(* ===================================================================== *)
(* spawnee: the task queue (core/task-queue.ts) and the orchestrator     *)
(* (core/orchestrator.ts), embedded as functions on an explicit state.   *)
(*                                                                       *)
(* The program is single-threaded JavaScript.  A synchronous stretch of  *)
(* code (a public method up to its first `await`, a signal listener, a   *)
(* timer callback, the continuation of an `await`) is one function on    *)
(* the state; the places where the code suspends are recorded as         *)
(* pending continuations that the environment resumes in any order.      *)
(* ===================================================================== *)

From Stdlib Require Import ZArith List Bool Sorting.Sorted Sorting.Permutation.
From stdpp Require Import base gmap strings list fin_maps.
Import ListNotations.
Open Scope Z_scope.

(* --------------------------------------------------------------------- *)
(* Data model (task-queue.ts)                                            *)
(* --------------------------------------------------------------------- *)

Inductive TaskStatus : Type :=
  | pending | ready | running | completed | failed.

Definition TaskStatus_eqb (a b : TaskStatus) : bool :=
  match a, b with
  | pending, pending | ready, ready | running, running
  | completed, completed | failed, failed => true
  | _, _ => false
  end.

#[global] Instance TaskStatus_eq_dec : EqDecision TaskStatus.
Proof. solve_decision. Defined.

Record TaskResult : Type := mkTaskResult {
  branch : option string;
  pullRequestUrl : option string;
  completedAt : string
}.

Record Validation : Type := mkValidation {
  command : string;
  successPattern : string
}.

(* TaskInput = Omit<Task, 'status' | 'attempts' | 'agentId' | 'error' | 'result'> *)
Record TaskInput : Type := mkTaskInput {
  in_id : string;
  in_name : string;
  in_prompt : string;
  in_dependsOn : list string;
  in_priority : Z;
  in_branch : option string;
  in_files : option (list string);
  in_timeout : option Z;
  in_retries : option Z;
  in_validation : option Validation;
  in_complete : option bool
}.

(* A Task is `{ ...input, status, attempts }` plus the optional fields the
   queue fills in later. *)
Record Task : Type := mkTask {
  input : TaskInput;
  status : TaskStatus;
  agentId : option string;
  attempts : Z;
  error : option string;
  result : option TaskResult
}.

Definition task_id (t : Task) : string := in_id (input t).
Definition dependsOn (t : Task) : list string := in_dependsOn (input t).
Definition priority (t : Task) : Z := in_priority (input t).
Definition timeout (t : Task) : option Z := in_timeout (input t).
Definition retries (t : Task) : option Z := in_retries (input t).
Definition complete (t : Task) : option bool := in_complete (input t).


Definition mkPending (i : TaskInput) : Task :=
  {| input := i; status := pending; agentId := None; attempts := 0;
     error := None; result := None |}.

Definition set_status (v : TaskStatus) (t : Task) : Task :=
  {| input := input t; status := v; agentId := agentId t;
     attempts := attempts t; error := error t; result := result t |}.
Definition set_agentId (v : option string) (t : Task) : Task :=
  {| input := input t; status := status t; agentId := v;
     attempts := attempts t; error := error t; result := result t |}.
Definition set_attempts (v : Z) (t : Task) : Task :=
  {| input := input t; status := status t; agentId := agentId t;
     attempts := v; error := error t; result := result t |}.
Definition set_error (v : option string) (t : Task) : Task :=
  {| input := input t; status := status t; agentId := agentId t;
     attempts := attempts t; error := v; result := result t |}.
Definition set_result (v : option TaskResult) (t : Task) : Task :=
  {| input := input t; status := status t; agentId := agentId t;
     attempts := attempts t; error := error t; result := v |}.

(* getStatus(): Record<string, number> *)
Record QueueStatus : Type := mkQueueStatus {
  n_pending : nat; n_ready : nat; n_running : nat;
  n_completed : nat; n_failed : nat; n_total : nat
}.

(* --------------------------------------------------------------------- *)
(* What the program does to the outside world, in order                  *)
(* --------------------------------------------------------------------- *)

(* Events emitted on the TaskQueue emitter; tasks are named by id and the
   results of `allComplete` by the ids of the two lists of getResults(). *)
Inductive QueueEvent : Type :=
  | taskReady (id : string)
  | taskStarted (id : string)
  | taskCompleted (id : string)
  | taskRetry (id : string)
  | taskFailed (id : string)
  | allComplete (completedIds failedIds : list string).

(* Events emitted on the Orchestrator emitter. *)
Inductive OrchestratorEvent : Type :=
  | ev_started (st : QueueStatus)
  | ev_agentSpawned (taskId agent : string)
  | ev_taskCompleted (id : string)
  | ev_taskFailed (id : string)
  | ev_taskRetry (id : string)
  | ev_complete (completedIds failedIds : list string)
  | ev_stopped (st : QueueStatus).

(* Calls on the CursorClient.  The prompt text built by buildPrompt is not
   part of any property below and is left out of the recorded call. *)
Inductive ClientCall : Type :=
  | createAgent (taskId branchName : string)
  | startMonitoring (agent : string) (pollInterval : Z)
  | stopMonitoring (agent : string)
  | stopAllMonitoring
  | stopAgent (agent : string)
  | client_sendFollowUp (agent message : string).

Inductive StoreCall : Type :=
  | store_save
  | store_clear.

Inductive Output : Type :=
  | Queue (e : QueueEvent)
  | Orch (e : OrchestratorEvent)
  | Client (c : ClientCall)
  | Store (c : StoreCall).

(* --------------------------------------------------------------------- *)
(* State                                                                 *)
(* --------------------------------------------------------------------- *)

(* options.config, and whether a StateStore was given *)
Record Config : Type := mkConfig {
  maxConcurrent : Z;
  pollInterval : Z;
  defaultTimeout : Z;
  hasStateStore : bool
}.

(* A timer created by setTimeout in spawnAgent: what its callback closes
   over, and the delay it was armed with. *)
Record Timer : Type := mkTimer {
  timer_agent : string;
  timer_task : string;
  timer_delay : Z
}.

(* The places where the code is suspended at an `await`.  A Task object
   held by a suspended dispatch loop is represented by its immutable part
   (its input); its mutable fields live in the task table. *)
Inductive Suspended : Type :=
  (* start(), at `await this.saveState()` *)
  | StartAwaitSave
  (* trySpawnAgents, in spawnAgent(task), at `await this.client.createAgent` *)
  | SpawnAwaitCreate (task : TaskInput) (rest : list TaskInput)
  (* trySpawnAgents, in spawnAgent(task), at the final `await this.saveState()` *)
  | SpawnAwaitSave (task : TaskInput) (rest : list TaskInput).

Record State : Type := mkState {
  (* TaskQueue *)
  tasks : list Task;                   (* Map<string, Task>, insertion order *)
  completed_ids : gset string;         (* the Set `completed` *)
  (* Orchestrator *)
  activeAgents : gmap string string;   (* agentId -> taskId *)
  timeouts : gmap string nat;          (* agentId -> timer *)
  isRunning : bool;
  templateName : string;
  (* JavaScript runtime *)
  armed : gmap nat Timer;              (* timers set and neither fired nor cleared *)
  nextTimer : nat;
  suspended : list Suspended;
  trace : list Output
}.

Definition set_tasks (v : list Task) (s : State) : State :=
  mkState v (completed_ids s) (activeAgents s) (timeouts s) (isRunning s)
          (templateName s) (armed s) (nextTimer s) (suspended s) (trace s).
Definition set_completed_ids (v : gset string) (s : State) : State :=
  mkState (tasks s) v (activeAgents s) (timeouts s) (isRunning s)
          (templateName s) (armed s) (nextTimer s) (suspended s) (trace s).
Definition set_activeAgents (v : gmap string string) (s : State) : State :=
  mkState (tasks s) (completed_ids s) v (timeouts s) (isRunning s)
          (templateName s) (armed s) (nextTimer s) (suspended s) (trace s).
Definition set_timeouts (v : gmap string nat) (s : State) : State :=
  mkState (tasks s) (completed_ids s) (activeAgents s) v (isRunning s)
          (templateName s) (armed s) (nextTimer s) (suspended s) (trace s).
Definition set_isRunning (v : bool) (s : State) : State :=
  mkState (tasks s) (completed_ids s) (activeAgents s) (timeouts s) v
          (templateName s) (armed s) (nextTimer s) (suspended s) (trace s).
Definition set_templateName (v : string) (s : State) : State :=
  mkState (tasks s) (completed_ids s) (activeAgents s) (timeouts s) (isRunning s)
          v (armed s) (nextTimer s) (suspended s) (trace s).
Definition set_armed (v : gmap nat Timer) (s : State) : State :=
  mkState (tasks s) (completed_ids s) (activeAgents s) (timeouts s) (isRunning s)
          (templateName s) v (nextTimer s) (suspended s) (trace s).
Definition set_nextTimer (v : nat) (s : State) : State :=
  mkState (tasks s) (completed_ids s) (activeAgents s) (timeouts s) (isRunning s)
          (templateName s) (armed s) v (suspended s) (trace s).
Definition set_suspended (v : list Suspended) (s : State) : State :=
  mkState (tasks s) (completed_ids s) (activeAgents s) (timeouts s) (isRunning s)
          (templateName s) (armed s) (nextTimer s) v (trace s).
Definition set_trace (v : list Output) (s : State) : State :=
  mkState (tasks s) (completed_ids s) (activeAgents s) (timeouts s) (isRunning s)
          (templateName s) (armed s) (nextTimer s) (suspended s) v.

(* new Orchestrator(options): empty queue, no bindings, not running *)
Definition initial : State :=
  mkState [] ∅ ∅ ∅ false "" ∅ 0%nat [] [].

Definition out (o : Output) (s : State) : State :=
  set_trace (trace s ++ [o]) s.

Definition suspend (c : Suspended) (s : State) : State :=
  set_suspended (suspended s ++ [c]) s.

(* --------------------------------------------------------------------- *)
(* TaskQueue: read accessors                                             *)
(* --------------------------------------------------------------------- *)

Definition has_id (id : string) (t : Task) : bool := String.eqb (task_id t) id.

(* this.tasks.get(id) *)
Definition getTask (id : string) (s : State) : option Task :=
  List.find (has_id id) (tasks s).

Definition getAllTasks (s : State) : list Task := tasks s.

(* Array.prototype.sort(compare): a stable sort (ECMAScript 2019); `insert`
   puts x in front of the first element that x does not sort after. *)
Fixpoint sort_insert {A : Type} (compare : A -> A -> Z) (x : A) (l : list A) : list A :=
  match l with
  | [] => [x]
  | y :: l' => if compare x y <=? 0 then x :: y :: l'
               else y :: sort_insert compare x l'
  end.

Fixpoint array_sort {A : Type} (compare : A -> A -> Z) (l : list A) : list A :=
  match l with
  | [] => []
  | x :: l' => sort_insert compare x (array_sort compare l')
  end.

Definition is_ready (t : Task) : bool := TaskStatus_eqb (status t) ready.

Definition getReadyTasks (s : State) : list Task :=
  array_sort (fun a b => priority b - priority a)
             (List.filter is_ready (tasks s)).

Definition with_status (v : TaskStatus) (l : list Task) : list Task :=
  List.filter (fun t => TaskStatus_eqb (status t) v) l.

Definition getResults (s : State) : list Task * list Task :=
  (with_status completed (tasks s), with_status failed (tasks s)).

Definition getStatus (s : State) : QueueStatus :=
  {| n_pending := length (with_status pending (tasks s));
     n_ready := length (with_status ready (tasks s));
     n_running := length (with_status running (tasks s));
     n_completed := length (with_status completed (tasks s));
     n_failed := length (with_status failed (tasks s));
     n_total := length (tasks s) |}.

(* A mutation of the Task object stored under `id`. *)
Definition modifyTask (id : string) (f : Task -> Task) (s : State) : State :=
  set_tasks (map (fun t => if has_id id t then f t else t) (tasks s)) s.

(* this.tasks.set(task.id, task): an existing key keeps its position *)
Definition tasks_set (t : Task) (l : list Task) : list Task :=
  if existsb (has_id (task_id t)) l
  then map (fun u => if has_id (task_id t) u then t else u) l
  else l ++ [t].

(* --------------------------------------------------------------------- *)
(* Orchestrator: what the queue listeners call                           *)
(* --------------------------------------------------------------------- *)

Section Orchestrator.

Variable cfg : Config.

(* task.branch || `task/${task.id}` *)
Definition branchName (t : TaskInput) : string :=
  match in_branch t with
  | Some b => if String.eqb b "" then "task/" ++ in_id t else b
  | None => "task/" ++ in_id t
  end.

(* task.timeout || this.options.config.defaultTimeout *)
Definition timeoutOf (t : TaskInput) : Z :=
  match in_timeout t with
  | Some z => if z =? 0 then defaultTimeout cfg else z
  | None => defaultTimeout cfg
  end.

(* saveState(), up to the point where the store is called *)
Definition saveState (s : State) : State :=
  if hasStateStore cfg then out (Store store_save) s else s.

(* The body of the `for` loop of trySpawnAgents from the start of an
   iteration to the first suspension: spawnAgent(task) calls
   client.createAgent and awaits it. *)
Definition spawnLoop (batch : list TaskInput) (s : State) : State :=
  match batch with
  | [] => s
  | t :: rest =>
      suspend (SpawnAwaitCreate t rest)
              (out (Client (createAgent (in_id t) (branchName t))) s)
  end.

Definition trySpawnAgents (s : State) : State :=
  if negb (isRunning s) then s
  else
    let availableSlots := maxConcurrent cfg - Z.of_nat (size (activeAgents s)) in
    if availableSlots <=? 0 then s
    else
      let readyTasks := firstn (Z.to_nat availableSlots) (getReadyTasks s) in
      spawnLoop (map input readyTasks) s.

(* clearTimeout(agentId) *)
Definition clearTimeout (agent : string) (s : State) : State :=
  match timeouts s !! agent with
  | None => s
  | Some timer =>
      set_timeouts (delete agent (timeouts s))
                   (set_armed (delete timer (armed s)) s)
  end.

(* clearAllTimeouts() *)
Definition clearAllTimeouts (s : State) : State :=
  set_timeouts ∅
    (set_armed (foldr (fun timer a => delete timer a) (armed s)
                      (map snd (map_to_list (timeouts s)))) s).

(* setupEventHandlers(): the listeners on the queue, run by emit *)
Definition listener (e : QueueEvent) (s : State) : State :=
  match e with
  | taskReady _ => trySpawnAgents s
  | taskStarted _ => s
  | taskCompleted id => saveState (out (Orch (ev_taskCompleted id)) s)
  | taskFailed id => saveState (out (Orch (ev_taskFailed id)) s)
  | taskRetry id => out (Orch (ev_taskRetry id)) s
  | allComplete c f =>
      let s := set_isRunning false s in
      let s := out (Client stopAllMonitoring) s in
      let s := clearAllTimeouts s in
      let s := out (Orch (ev_complete c f)) s in
      if hasStateStore cfg then out (Store store_clear) s else s
  end.

(* this.emit(event, ...) on the queue *)
Definition emit (e : QueueEvent) (s : State) : State :=
  listener e (out (Queue e) s).

(* --------------------------------------------------------------------- *)
(* TaskQueue: transitions                                                *)
(* --------------------------------------------------------------------- *)

(* task.dependsOn.every(depId => this.completed.has(depId)) *)
Definition depsComplete (s : State) (t : Task) : bool :=
  forallb (fun depId => bool_decide (depId ∈ completed_ids s)) (dependsOn t).

(* The loop of updateReadyTasks over the entries of the task table. *)
Fixpoint updateReadyLoop (ids : list string) (s : State) : State :=
  match ids with
  | [] => s
  | id :: ids' =>
      match getTask id s with
      | None => updateReadyLoop ids' s
      | Some task =>
          if negb (TaskStatus_eqb (status task) pending) then updateReadyLoop ids' s
          else if negb (depsComplete s task) then updateReadyLoop ids' s
          else updateReadyLoop ids'
                 (emit (taskReady id) (modifyTask id (set_status ready) s))
      end
  end.

Definition updateReadyTasks (s : State) : State :=
  updateReadyLoop (map task_id (tasks s)) s.

Definition markRunning (id agent : string) (s : State) : State :=
  match getTask id s with
  | None => s
  | Some _ =>
      emit (taskStarted id)
        (modifyTask id
           (fun t => set_attempts (attempts t + 1)
                       (set_agentId (Some agent) (set_status running t))) s)
  end.

Definition is_terminal (t : Task) : bool :=
  TaskStatus_eqb (status t) completed || TaskStatus_eqb (status t) failed.

Definition checkAllComplete (s : State) : State :=
  let allDone := forallb is_terminal (tasks s) in
  if allDone
  then emit (allComplete (map task_id (fst (getResults s)))
                         (map task_id (snd (getResults s)))) s
  else s.

(* markCompleted(id, result, checkComplete); `now` is what
   new Date().toISOString() returns, and the partial result is given by its
   two optional fields. *)
Definition markCompleted (id : string) (res : option string * option string)
    (checkComplete : bool) (now : string) (s : State) : State :=
  match getTask id s with
  | None => s
  | Some _ =>
      let s := modifyTask id
                 (fun t => set_result (Some (mkTaskResult (fst res) (snd res) now))
                             (set_status completed t)) s in
      let s := set_completed_ids ({[id]} ∪ completed_ids s) s in
      let s := emit (taskCompleted id) s in
      let s := updateReadyTasks s in
      if checkComplete then checkAllComplete s else s
  end.

(* the default value of the parameter maxRetries of markFailed *)
Definition DEFAULT_MAX_RETRIES : Z := 2.

(* task.retries ?? maxRetries *)
Definition retryLimit (t : Task) (maxRetries : Z) : Z :=
  match retries t with
  | Some r => r
  | None => maxRetries
  end.

Definition markFailed (id : string) (err : string) (maxRetries : Z)
    (s : State) : State :=
  match getTask id s with
  | None => s
  | Some task =>
      let s := modifyTask id (set_error (Some err)) s in
      if attempts task <? retryLimit task maxRetries
      then emit (taskRetry id) (modifyTask id (set_status ready) s)
      else checkAllComplete
             (emit (taskFailed id) (modifyTask id (set_status failed) s))
  end.

(* if (task.complete) *)
Definition truthy_flag (b : option bool) : bool :=
  match b with
  | Some true => true
  | _ => false
  end.

(* the callback of inputs.forEach in addTasks *)
Definition addTasks_each (now : string) (s : State) (i : TaskInput) : State :=
  let s := set_tasks (tasks_set (mkPending i) (tasks s)) s in
  if truthy_flag (in_complete i)
  then markCompleted (in_id i) (None, None) false now s
  else s.

Definition addTasks (inputs : list TaskInput) (now : string) (s : State) : State :=
  updateReadyTasks (fold_left (addTasks_each now) inputs s).

(* addTask(input) *)
Definition addTask (i : TaskInput) (now : string) (s : State) : State :=
  let s := set_tasks (tasks_set (mkPending i) (tasks s)) s in
  if truthy_flag (in_complete i)
  then markCompleted (in_id i) (None, None) false now s
  else updateReadyTasks s.

(* reset() *)
Definition reset (s : State) : State :=
  set_completed_ids ∅ (set_tasks [] s).

(* --------------------------------------------------------------------- *)
(* Orchestrator: run control, signal handlers, continuations             *)
(* --------------------------------------------------------------------- *)

(* The outcome of a call that can throw before changing anything. *)
Inductive Outcome : Type :=
  | Returned (s : State)
  | Threw (message : string).

Definition loadTasks (name : string) (inputs : list TaskInput) (now : string)
    (s : State) : State :=
  addTasks inputs now (set_templateName name s).

(* start(), up to `await this.saveState()` *)
Definition start (s : State) : Outcome :=
  if isRunning s then Threw "Orchestrator is already running"
  else
    let s := set_isRunning true s in
    let s := out (Orch (ev_started (getStatus s))) s in
    Returned (suspend StartAwaitSave (saveState s)).

(* if (!taskId) return;  -- undefined and the empty string are falsy *)
Definition truthy_string (o : option string) : option string :=
  match o with
  | Some x => if String.eqb x "" then None else Some x
  | None => None
  end.

Definition handleAgentComplete (agent : string)
    (target : option string * option string) (now : string) (s : State) : State :=
  match truthy_string (activeAgents s !! agent) with
  | None => s
  | Some taskId =>
      let s := set_activeAgents (delete agent (activeAgents s)) s in
      let s := clearTimeout agent s in
      let s := markCompleted taskId target true now s in
      trySpawnAgents s
  end.

Definition handleAgentFailed (agent : string) (err : string) (s : State) : State :=
  match truthy_string (activeAgents s !! agent) with
  | None => s
  | Some taskId =>
      let s := set_activeAgents (delete agent (activeAgents s)) s in
      let s := clearTimeout agent s in
      let s := out (Client (stopMonitoring agent)) s in
      let s := markFailed taskId err DEFAULT_MAX_RETRIES s in
      trySpawnAgents s
  end.

(* the callback given to setTimeout in spawnAgent *)
Definition timeoutCallback (agent : string) (s : State) : State :=
  match activeAgents s !! agent with
  | None => s
  | Some _ =>
      handleAgentFailed agent "Timeout exceeded"
        (out (Client (stopAgent agent)) s)
  end.

(* The listeners on the client (setupEventHandlers). *)
Inductive Signal : Type :=
  | sig_completed (agent : string) (targetBranch targetPrUrl : option string)
  | sig_failed (agent : string) (summary : option string)
  | sig_cancelled (agent : string)
  | sig_error (agent : string) (message : string).

Definition onSignal (sg : Signal) (now : string) (s : State) : State :=
  match sg with
  | sig_completed agent b p => handleAgentComplete agent (b, p) now s
  | sig_failed agent summary =>
      (* agent.summary || 'Agent failed' *)
      let errorMsg := match truthy_string summary with
                      | Some m => m
                      | None => "Agent failed"
                      end in
      handleAgentFailed agent errorMsg s
  | sig_cancelled agent => handleAgentFailed agent "Agent was stopped" s
  | sig_error _ _ => s
  end.

(* stop().  The awaits inside stop only sequence the requests to the client
   and the final 'stopped' event; they change no field of the orchestrator
   or of the queue, and the requests are recorded here in one stretch. *)
Definition stop (s : State) : State :=
  let s := set_isRunning false s in
  let s := out (Client stopAllMonitoring) s in
  let s := clearAllTimeouts s in
  let s := fold_left (fun s agent => out (Client (stopAgent agent)) s)
                     (map fst (map_to_list (activeAgents s))) s in
  out (Orch (ev_stopped (getStatus s))) s.

(* sendFollowUp(taskId, message), up to the call on the client *)
Definition sendFollowUp (taskId message : string) (s : State) : Outcome :=
  match getTask taskId s with
  | None => Threw ("No active agent for task " ++ taskId)
  | Some task =>
      match truthy_string (agentId task) with
      | None => Threw ("No active agent for task " ++ taskId)
      | Some agent => Returned (out (Client (client_sendFollowUp agent message)) s)
      end
  end.

(* getStatus() of the orchestrator *)
Definition orchestratorStatus (s : State)
    : bool * QueueStatus * list (string * string) :=
  (isRunning s, getStatus s, map_to_list (activeAgents s)).

(* spawnAgent(task) from the point where createAgent has returned the agent
   to the final `await this.saveState()`. *)
Definition spawnAgent_created (task : TaskInput) (rest : list TaskInput)
    (agent : string) (s : State) : State :=
  let s := set_activeAgents (<[agent := in_id task]> (activeAgents s)) s in
  let s := markRunning (in_id task) agent s in
  let s := out (Client (startMonitoring agent (pollInterval cfg))) s in
  let timer := nextTimer s in
  let s := set_nextTimer (S timer)
             (set_armed (<[timer := mkTimer agent (in_id task) (timeoutOf task)]>
                           (armed s)) s) in
  let s := set_timeouts (<[agent := timer]> (timeouts s)) s in
  let s := out (Orch (ev_agentSpawned (in_id task) agent)) s in
  suspend (SpawnAwaitSave task rest) (saveState s).

(* the `catch` of the loop of trySpawnAgents, then the next iteration *)
Definition spawnAgent_threw (task : TaskInput) (rest : list TaskInput)
    (message : string) (s : State) : State :=
  spawnLoop rest (markFailed (in_id task) message DEFAULT_MAX_RETRIES s).

(* --------------------------------------------------------------------- *)
(* One step of the event loop                                            *)
(* --------------------------------------------------------------------- *)

Inductive Action : Type :=
  (* calls on the run-control surface *)
  | Start
  | Stop
  | SendFollowUp (taskId message : string)
  (* the promise the k-th suspended continuation awaits settles *)
  | CreateAgentResolved (k : nat) (agent : string)
  | CreateAgentRejected (k : nat) (message : string)
  | SaveResolved (k : nat)
  | SaveRejected (k : nat) (message : string)
  (* the client emits a signal *)
  | Signalled (sg : Signal) (now : string)
  (* an armed timer fires *)
  | TimerFired (timer : nat).

Definition resume (k : nat) (s : State) : State :=
  set_suspended (delete k (suspended s)) s.

(* None: the action cannot happen in this state. *)
Definition step (a : Action) (s : State) : option State :=
  match a with
  | Start =>
      match start s with
      | Returned s' => Some s'
      | Threw _ => Some s
      end
  | Stop => Some (stop s)
  | SendFollowUp taskId message =>
      match sendFollowUp taskId message s with
      | Returned s' => Some s'
      | Threw _ => Some s
      end
  | CreateAgentResolved k agent =>
      match suspended s !! k with
      | Some (SpawnAwaitCreate task rest) =>
          Some (spawnAgent_created task rest agent (resume k s))
      | _ => None
      end
  | CreateAgentRejected k message =>
      match suspended s !! k with
      | Some (SpawnAwaitCreate task rest) =>
          Some (spawnAgent_threw task rest message (resume k s))
      | _ => None
      end
  | SaveResolved k =>
      match suspended s !! k with
      | Some StartAwaitSave => Some (trySpawnAgents (resume k s))
      | Some (SpawnAwaitSave task rest) => Some (spawnLoop rest (resume k s))
      | _ => None
      end
  | SaveRejected k message =>
      if hasStateStore cfg then
        match suspended s !! k with
        | Some StartAwaitSave => Some (resume k s)
        | Some (SpawnAwaitSave task rest) =>
            Some (spawnAgent_threw task rest message (resume k s))
        | _ => None
        end
      else None
  | Signalled sg now => Some (onSignal sg now s)
  | TimerFired timer =>
      match armed s !! timer with
      | Some t => Some (timeoutCallback (timer_agent t)
                          (set_armed (delete timer (armed s)) s))
      | None => None
      end
  end.

Fixpoint run (acts : list Action) (s : State) : option State :=
  match acts with
  | [] => Some s
  | a :: acts' =>
      match step a s with
      | Some s' => run acts' s'
      | None => None
      end
  end.

End Orchestrator.

(* A run: a fresh orchestrator, one loadTasks, then any sequence of steps. *)
Definition loaded (cfg : Config) (name : string) (inputs : list TaskInput)
    (now : string) : State :=
  loadTasks cfg name inputs now initial.

Definition reachable (cfg : Config) (name : string) (inputs : list TaskInput)
    (now : string) (s : State) : Prop :=
  exists acts, run cfg acts (loaded cfg name inputs now) = Some s.


(* --------------------------------------------------------------------- *)
(* Vocabulary of the properties                                          *)
(* --------------------------------------------------------------------- *)

Definition descending {A : Type} (prio : A -> Z) (l : list A) : Prop :=
  StronglySorted (fun a b => prio b <= prio a) l.

(* The four ways in which the binding of an executor handle is resolved:
   the three signals routed by the client listeners and the timer. *)
Inductive Resolution : Type :=
  | by_completed (targetBranch targetPrUrl : option string) (now : string)
  | by_failed (summary : option string)
  | by_cancelled
  | by_timeout.

Definition resolve (cfg : Config) (r : Resolution) (agent : string)
    (s : State) : State :=
  match r with
  | by_completed b p now => onSignal cfg (sig_completed agent b p) now s
  | by_failed summary => onSignal cfg (sig_failed agent summary) "" s
  | by_cancelled => onSignal cfg (sig_cancelled agent) "" s
  | by_timeout => timeoutCallback cfg agent s
  end.

(* a mutation of a Task object that leaves the fields of its input alone *)
Definition keeps_id (f : Task -> Task) : Prop := forall t, input (f t) = input t.

(* every task stored under `id` has all its dependencies completed *)
Definition dispatchable (s : State) (id : string) : Prop :=
  forall t, In t (tasks s) -> task_id t = id -> depsComplete s t = true.

(* the Task objects a suspended dispatch loop still holds *)
Definition batch_of (c : Suspended) : list TaskInput :=
  match c with
  | StartAwaitSave => []
  | SpawnAwaitCreate task rest => task :: rest
  | SpawnAwaitSave task rest => task :: rest
  end.

(* `allComplete` has been emitted with these results *)
Definition announced (s : State) (completedIds failedIds : list string) : Prop :=
  In (Queue (allComplete completedIds failedIds)) (trace s).

Definition is_announcement (o : Output) : Prop :=
  exists c f, o = Queue (allComplete c f).

(* What holds of every state of a run, also in the middle of a handler. *)
Record Inv (s : State) : Prop := mkInv {
  inv_unique : NoDup (map task_id (tasks s));
  inv_ready : forall t, In t (tasks s) -> status t = ready -> depsComplete s t = true;
  inv_bound : forall agent taskId,
      activeAgents s !! agent = Some taskId -> dispatchable s taskId;
  inv_batch : forall c i,
      In c (suspended s) -> In i (batch_of c) -> dispatchable s (in_id i);
  inv_announced : forall c f,
      announced s c f -> (length c + length f = length (tasks s))%nat
}.

(* No pending task has all its dependencies completed. *)
Definition none_overdue (s : State) : Prop :=
  forall t, In t (tasks s) -> status t = pending -> depsComplete s t = false.

(* Before start(): nothing bound, nothing suspended, nothing announced. *)
Record Idle (s : State) : Prop := mkIdle {
  idle_flag : isRunning s = false;
  idle_agents : activeAgents s = ∅;
  idle_suspended : suspended s = [];
  idle_trace : forall c f, ~ announced s c f
}.

(* A run all of whose tasks were loaded as completed. *)
Record AllPremarked (s : State) : Prop := mkAllPremarked {
  pre_tasks : forall t, In t (tasks s) -> status t = completed;
  pre_agents : activeAgents s = ∅;
  pre_suspended : forall c, In c (suspended s) -> c = StartAwaitSave;
  pre_trace : forall c f, ~ announced s c f
}.

(* task?.agentId, as tested by sendFollowUp *)
Definition recordedAgent (taskId : string) (s : State) : option string :=
  match getTask taskId s with
  | Some task => truthy_string (agentId task)
  | None => None
  end.

(* The state a sequence of steps leads to (the start state if some step of
   the sequence cannot happen). *)
Definition after (cfg : Config) (acts : list Action) (s : State) : State :=
  match run cfg acts s with
  | Some s' => s'
  | None => s
  end.

(* --------------------------------------------------------------------- *)
(* Sample runs                                                           *)
(* --------------------------------------------------------------------- *)

Definition sampleTask (id : string) (deps : list string) (prio : Z)
    (r : option Z) (c : option bool) : TaskInput :=
  mkTaskInput id id "do the work" deps prio None None None r None c.

(* one slot; B and C wait for A *)
Definition cfg_one : Config := mkConfig 1 15000 3600000 true.
Definition fan_out : list TaskInput :=
  [sampleTask "A" [] 0 None None;
   sampleTask "B" ["A"] 0 None None;
   sampleTask "C" ["A"] 0 None None].

(* A has been dispatched as agent a1 and is running *)
Definition fan_out_A_running : State :=
  after cfg_one [Start; SaveResolved 0; CreateAgentResolved 0 "a1"; SaveResolved 0]
        (loaded cfg_one "plan" fan_out "t0").

(* two slots; A and B are independent *)
Definition cfg_two : Config := mkConfig 2 15000 3600000 true.
Definition pair : list TaskInput :=
  [sampleTask "A" [] 0 None None; sampleTask "B" [] 0 None None].

(* one task with retries = 1 *)
Definition one_retry : list TaskInput := [sampleTask "A" [] 0 (Some 1) None].

(* every task is pre-marked complete *)
Definition all_done : list TaskInput :=
  [sampleTask "A" [] 0 None (Some true); sampleTask "B" ["A"] 0 None (Some true)].

(* The binding of A is gone after its completion, its agentId is not. *)
Definition fan_out_A_completed : State :=
  after cfg_one [Signalled (sig_completed "a1" None None) "t1"] fan_out_A_running.

(* The completion of A starts three dispatch loops, each of which has B as
   its batch; the three createAgent calls then resolve. *)
Definition fan_out_overrun : list Action :=
  [Start; SaveResolved 0; CreateAgentResolved 0 "a1"; SaveResolved 0;
   Signalled (sig_completed "a1" None None) "t1";
   CreateAgentResolved 0 "b1"; CreateAgentResolved 0 "b2";
   CreateAgentResolved 0 "b3"].

(* A is dispatched once and its agent reports a failure. *)
Definition one_retry_fails_once : list Action :=
  [Start; SaveResolved 0; CreateAgentResolved 0 "a1"; SaveResolved 0;
   Signalled (sig_failed "a1" (Some "boom")) "t1"].

(* The batch [A; B] is under way: createAgent for A is pending, then the
   run is stopped, then A's agent arrives. *)
Definition pair_stopped_mid_batch : State :=
  after cfg_two [Start; SaveResolved 0; Stop; CreateAgentResolved 0 "a1"]
        (loaded cfg_two "plan" pair "t0").

(* The batch [A; B] is under way: createAgent for A is pending. *)
Definition pair_A_pending : State :=
  after cfg_two [Start; SaveResolved 0] (loaded cfg_two "plan" pair "t0").

(* the state in which the only task has failed for good *)
Definition one_retry_failed : State :=
  after cfg_one one_retry_fails_once (loaded cfg_one "plan" one_retry "t0").

(* B waits for A; the completion of A starts two dispatch loops for B, and
   both agents of B complete. *)
Definition chain : list TaskInput :=
  [sampleTask "A" [] 0 None None; sampleTask "B" ["A"] 0 None None].
Definition chain_B_twice : list Action :=
  [Start; SaveResolved 0; CreateAgentResolved 0 "a1"; SaveResolved 0;
   Signalled (sig_completed "a1" None None) "t1";
   CreateAgentResolved 0 "b1"; CreateAgentResolved 0 "b2";
   Signalled (sig_completed "b1" None None) "t2";
   Signalled (sig_completed "b2" None None) "t3"].

(* --------------------------------------------------------------------- *)
(* Vocabulary of the further properties                                  *)
(* --------------------------------------------------------------------- *)

(* the input is pre-marked complete *)
Definition premarked (i : TaskInput) : Prop := truthy_flag (in_complete i) = true.

(* What the tasks of a freshly loaded table look like. *)
Definition load_shape (s : State) : Prop :=
  forall t, In t (tasks s) ->
    attempts t = 0 /\ agentId t = None /\ error t = None
    /\ if truthy_flag (complete t)
       then status t = completed /\ is_Some (result t)
            /\ task_id t ∈ completed_ids s
       else (status t = pending \/ status t = ready) /\ result t = None.

(* The changes the code makes to a Task object after it was created, read
   off markRunning, markCompleted, markFailed and updateReadyTasks; `c` is
   the completed set at the end. *)
Inductive task_tr (c : gset string) : Task -> Task -> Prop :=
  | tr_same t : task_tr c t t
  | tr_ready t : task_tr c t (set_status ready t)
  | tr_running t a :
      task_tr c t (set_attempts (attempts t + 1)
                     (set_agentId (Some a) (set_status running t)))
  | tr_completed t r :
      task_id t ∈ c -> task_tr c t (set_result (Some r) (set_status completed t))
  | tr_error t e : task_tr c t (set_error (Some e) t)
  | tr_failed t : is_Some (error t) -> task_tr c t (set_status failed t)
  | tr_trans t1 t2 t3 : task_tr c t1 t2 -> task_tr c t2 t3 -> task_tr c t1 t3.

(* s' comes after s: task by task, in table order. *)
Record transitions (s s' : State) : Prop := mkTransitions {
  trs_tasks : Forall2 (task_tr (completed_ids s')) (tasks s) (tasks s');
  trs_completed : completed_ids s ⊆ completed_ids s';
  trs_new : forall t', In t' (tasks s') -> task_id t' ∈ completed_ids s' ->
            task_id t' ∈ completed_ids s \/ is_Some (result t')
}.

(* What the mutable fields of one task say about each other. *)
Record task_ok (c : gset string) (t : Task) : Prop := mkTaskOk {
  ok_attempts : 0 <= attempts t;
  ok_agent : is_Some (agentId t) <-> 1 <= attempts t;
  ok_completed : status t = completed -> task_id t ∈ c /\ is_Some (result t);
  ok_running : status t = running -> is_Some (agentId t);
  ok_pending : status t = pending -> attempts t = 0 /\ result t = None;
  ok_failed : status t = failed -> is_Some (error t)
}.

(* --------------------------------------------------------------------- *)
(* Orchestrator.buildPrompt                                              *)
(* --------------------------------------------------------------------- *)

(* the fields of OrchestratorOptions besides config and stateStore *)
Record Options : Type := mkOptions {
  repository : string;
  baseBranch : string;
  globalContext : option string;
  globalFiles : option (list string)
}.

(* "\n" *)
Definition nl : string := String (Ascii.ascii_of_nat 10) EmptyString.

(* files.map(f => `- ${f}`).join('\n') *)
Definition bullets (files : list string) : string :=
  String.concat nl (map (fun f => "- " ++ f)%string files).

Definition branchInfo (r : TaskResult) : string :=
  match truthy_string (branch r) with
  | Some b => (" (branch: " ++ b ++ ")")%string
  | None => ""%string
  end.

Definition prInfo (r : TaskResult) : string :=
  match truthy_string (pullRequestUrl r) with
  | Some u => (nl ++ "   PR: " ++ u)%string
  | None => ""%string
  end.

Definition resultLine (depTask : Task) (r : TaskResult) : string :=
  ("- **" ++ in_name (input depTask) ++ "**" ++ branchInfo r ++ prInfo r)%string.

Definition inProgressLine (depTask : Task) : string :=
  ("- **" ++ in_name (input depTask) ++ "** (in progress)")%string.

(* the loop over task.dependsOn: one line per dependency found in the table *)
Definition dependencyInfo (deps : list string) (s : State) : list string :=
  fold_left
    (fun info depId =>
       match getTask depId s with
       | Some depTask =>
           match result depTask with
           | Some r => info ++ [resultLine depTask r]
           | None => info ++ [inProgressLine depTask]
           end
       | None => info
       end)
    deps [].

Definition dependenciesSection (info : list string) : string :=
  ("## Dependencies" ++ nl
   ++ "This task depends on the following completed tasks:" ++ nl
   ++ String.concat nl info ++ nl ++ nl
   ++ "Please review the work from these dependencies before proceeding. If they created documentation or files, reference those in your work.")%string.

Definition taskSection (task : TaskInput) : string :=
  ("## Task" ++ nl ++ in_prompt task)%string.

Definition validationSection (v : Validation) : string :=
  ("## Validation" ++ nl
   ++ "After completing the task, verify by running:" ++ nl
   ++ "`" ++ command v ++ "`" ++ nl
   ++ "Expected output should match: " ++ successPattern v)%string.

Definition buildPrompt (o : Options) (task : TaskInput) (s : State) : string :=
  let parts : list string := [] in
  let parts :=
    match truthy_string (globalContext o) with
    | Some g => parts ++ [("## Global Instructions" ++ nl ++ g)%string]
    | None => parts
    end in
  let parts :=
    match globalFiles o with
    | Some (f :: fs) => parts ++ [("## Reference Files" ++ nl ++ bullets (f :: fs))%string]
    | _ => parts
    end in
  let parts :=
    match in_dependsOn task with
    | [] => parts
    | deps =>
        match dependencyInfo deps s with
        | [] => parts
        | info => parts ++ [dependenciesSection info]
        end
    end in
  let parts :=
    match in_files task with
    | Some (f :: fs) =>
        parts ++ [("## Task-Specific Files" ++ nl ++ bullets (f :: fs))%string]
    | _ => parts
    end in
  let parts := parts ++ [taskSection task] in
  let parts :=
    match in_validation task with
    | Some v => parts ++ [validationSection v]
    | None => parts
    end in
  String.concat (nl ++ nl) parts.

(* every task whose id is in the completed set carries a result *)
Definition results_recorded (s : State) : Prop :=
  forall t, In t (tasks s) -> task_id t ∈ completed_ids s -> is_Some (result t).

(* --------------------------------------------------------------------- *)
(* parsers/index: the tasks of a template and their validation           *)
(* --------------------------------------------------------------------- *)

(* What TaskSchema yields for one task (dependsOn and priority have
   defaults in the schema), and the `defaults` block of the template. *)
Record TemplateTask : Type := mkTemplateTask {
  tt_id : string;
  tt_name : string;
  tt_prompt : string;
  tt_dependsOn : list string;
  tt_files : option (list string);
  tt_branch : option string;
  tt_priority : Z;
  tt_timeout : option Z;
  tt_retries : option Z;
  tt_validation : option Validation;
  tt_complete : option bool
}.

Record Defaults : Type := mkDefaults {
  d_timeout : Z;
  d_retries : Z
}.

(* t.timeout ?? validated.defaults.timeout *)
Definition nullish {A : Type} (o : option A) (d : A) : A :=
  match o with
  | Some x => x
  | None => d
  end.

(* the callback of validated.tasks.map in parseTemplate *)
Definition toTaskInput (d : Defaults) (t : TemplateTask) : TaskInput :=
  {| in_id := tt_id t;
     in_name := tt_name t;
     in_prompt := tt_prompt t;
     in_dependsOn := tt_dependsOn t;
     in_priority := tt_priority t;
     in_branch := tt_branch t;
     in_files := tt_files t;
     in_timeout := Some (nullish (tt_timeout t) (d_timeout d));
     in_retries := Some (nullish (tt_retries t) (d_retries d));
     in_validation := tt_validation t;
     in_complete := tt_complete t |}.

(* new Map(tasks.map(t => [t.id, t])): a later task with the same id wins *)
Definition taskMapOf (tasks : list TaskInput) : gmap string TaskInput :=
  fold_left (fun m t => <[in_id t := t]> m) tasks ∅.

(* visited and recursionStack *)
Definition DfsState : Type := gset string * gset string.

(* The `for` loop of dfs over task.dependsOn; `rec` is dfs itself. *)
Definition dfs_loop (rec : string -> DfsState -> option (bool * DfsState))
    : list string -> DfsState -> option (bool * DfsState) :=
  fix loop (deps : list string) (st : DfsState) : option (bool * DfsState) :=
    match deps with
    | [] => Some (false, st)
    | depId :: deps' =>
        (* if (!visited.has(depId) && dfs(depId)) return true; *)
        let r := if bool_decide (depId ∈ fst st) then Some (false, st)
                 else rec depId st in
        match r with
        | None => None
        | Some (true, st') => Some (true, st')
        | Some (false, st') =>
            (* if (recursionStack.has(depId)) return true; *)
            if bool_decide (depId ∈ snd st') then Some (true, st')
            else loop deps' st'
        end
    end.

(* dfs(taskId) of hasCycle.  `fuel` is the number of nested calls of dfs
   the call stack still has room for: every call of dfs from the loop of dfs
   takes one more frame.  None: the stack is exhausted and the engine throws
   RangeError (Maximum call stack size exceeded), which nothing in hasCycle,
   validateDependencies or parseTemplate catches. *)
Fixpoint dfs (fuel : nat) (taskMap : gmap string TaskInput) (taskId : string)
    (st : DfsState) : option (bool * DfsState) :=
  match fuel with
  | O => None
  | S fuel' =>
      let st := ({[taskId]} ∪ fst st, {[taskId]} ∪ snd st) in
      match taskMap !! taskId with
      | None => Some (false, st)
      | Some task =>
          match dfs_loop (dfs fuel' taskMap) (in_dependsOn task) st with
          | None => None
          | Some (true, st') => Some (true, st')
          | Some (false, st') => Some (false, (fst st', snd st' ∖ {[taskId]}))
          end
      end
  end.

(* the loop of hasCycle over the tasks *)
Fixpoint hasCycle_loop (fuel : nat) (taskMap : gmap string TaskInput)
    (tasks : list TaskInput) (st : DfsState) : option bool :=
  match tasks with
  | [] => Some false
  | task :: tasks' =>
      if bool_decide (in_id task ∈ fst st) then hasCycle_loop fuel taskMap tasks' st
      else
        match dfs fuel taskMap (in_id task) st with
        | None => None
        | Some (true, _) => Some true
        | Some (false, st') => hasCycle_loop fuel taskMap tasks' st'
        end
  end.

(* hasCycle(tasks), run with room for `stack` nested calls of dfs; None when
   dfs throws RangeError. *)
Definition hasCycle (stack : nat) (tasks : list TaskInput) : option bool :=
  hasCycle_loop stack (taskMapOf tasks) tasks (∅, ∅).

(* the double-quote character of the messages *)
Definition dquote : string := String (Ascii.ascii_of_nat 34) EmptyString.

(* the line pushed for a dependency that is no task of the list *)
Definition unknownLine (taskId depId : string) : string :=
  ("Task " ++ dquote ++ taskId ++ dquote ++ " depends on unknown task "
   ++ dquote ++ depId ++ dquote)%string.

(* the first loop of validateDependencies *)
Definition unknownDependencies (tasks : list TaskInput) : list string :=
  let taskIds : gset string := list_to_set (map in_id tasks) in
  flat_map
    (fun task =>
       flat_map
         (fun depId =>
            if bool_decide (depId ∈ taskIds) then []
            else [unknownLine (in_id task) depId])
         (in_dependsOn task))
    tasks.

(* `a` depends on `b` in the task map *)
Definition dependsOnId (taskMap : gmap string TaskInput) (a b : string) : Prop :=
  exists task, taskMap !! a = Some task /\ In b (in_dependsOn task).

(* the line pushed when hasCycle returns true *)
Definition circularLine : string := "Circular dependency detected in task graph".

(* the message of the Error validateDependencies throws *)
Definition validationMessage (errors : list string) : string :=
  ("Template validation failed:" ++ nl ++ String.concat nl errors)%string.

(* validateDependencies(tasks), run with room for `stack` nested calls of
   dfs.  None: hasCycle threw RangeError, which is not caught here;
   Some (inl message): the Error with the validation message is thrown;
   Some (inr tt): the function returns. *)
Definition validateDependencies (stack : nat) (tasks : list TaskInput)
    : option (string + unit) :=
  match hasCycle stack tasks with
  | None => None
  | Some cyclic =>
      let errors :=
        unknownDependencies tasks ++ (if cyclic then [circularLine] else []) in
      match errors with
      | [] => Some (inr tt)
      | _ => Some (inl (validationMessage errors))
      end
  end.

(* The template is valid: every dependency is the id of a task of the list
   and the dependsOn relation of the task map has no cycle. *)
Definition validTemplate (tasks : list TaskInput) : Prop :=
  (forall t, In t tasks -> forall d, In d (in_dependsOn t) ->
     In d (map in_id tasks))
  /\ forall a, ~ tc (dependsOnId (taskMapOf tasks)) a a.

(* a chain of tasks: each depends on the next id of the list, the last on
   nothing *)
Fixpoint dependencyChain (ids : list string) : list TaskInput :=
  match ids with
  | [] => []
  | x :: ids' =>
      mkTaskInput x x "step" (match ids' with y :: _ => [y] | [] => [] end)
                  0 None None None None None None
      :: dependencyChain ids'
  end.

(* What holds of the nodes that dfs has finished (visited and no longer on
   the stack): they are tasks of the map, their dependencies are finished
   too, and they are on no cycle. *)
Definition finished_ok (taskMap : gmap string TaskInput) (st : DfsState) : Prop :=
  snd st ⊆ fst st
  /\ forall v, v ∈ fst st -> v ∉ snd st ->
       (exists task, taskMap !! v = Some task
                     /\ forall d, In d (in_dependsOn task) ->
                                  d ∈ fst st /\ d ∉ snd st)
       /\ ~ tc (dependsOnId taskMap) v v.

(* A finished node of the search: visited and no longer on the stack. *)
Definition finished (st : DfsState) (v : string) : Prop :=
  v ∈ fst st /\ v ∉ snd st.

(* What a call of the search that returns false has done. *)
Definition dfs_false_spec (taskMap : gmap string TaskInput)
    (rec : string -> DfsState -> option (bool * DfsState)) : Prop :=
  forall v st st',
    rec v st = Some (false, st') -> v ∉ fst st -> finished_ok taskMap st ->
    fst st ⊆ fst st' /\ finished_ok taskMap st'
    /\ (is_Some (taskMap !! v) -> snd st' = snd st /\ finished st' v)
    /\ (taskMap !! v = None -> v ∈ snd st').

(* every agent with an entry in `timeouts` is bound in `activeAgents` *)
Definition timers_bound (s : State) : Prop :=
  forall agent timer,
    timeouts s !! agent = Some timer -> is_Some (activeAgents s !! agent).

(* a template of two tasks: A takes the defaults, B sets its own retries
   and timeout *)
Definition template_defaults : Defaults := mkDefaults 3600000 2.
Definition template_tasks : list TemplateTask :=
  [mkTemplateTask "A" "A" "do the work" [] None None 0 None None None None;
   mkTemplateTask "B" "B" "do the rest" ["A"] None None 5 (Some 60000) (Some 0)
                  None None].

(* What the bindings and the suspended dispatch loops refer to. *)
Record Held (s : State) : Prop := mkHeld {
  held_attempts : forall t, In t (tasks s) -> 0 <= attempts t;
  held_bound : forall agent taskId,
      activeAgents s !! agent = Some taskId ->
      exists t, In t (tasks s) /\ task_id t = taskId /\ 1 <= attempts t;
  held_batch : forall c i,
      In c (suspended s) -> In i (batch_of c) -> In i (map input (tasks s))
}.

(* From s to s' the table keeps its inputs, and a continuation of s' is one
   of s or holds inputs of the table. *)
Record dispatches (s s' : State) : Prop := mkDispatches {
  dsp_inputs : map input (tasks s') = map input (tasks s);
  dsp_suspended : forall c,
      In c (suspended s') ->
      In c (suspended s) \/ forall i, In i (batch_of c) -> In i (map input (tasks s))
}.

(* In the task map every id of the list but the last is a task whose only
   dependency is the next id of the list. *)
Fixpoint linked (taskMap : gmap string TaskInput) (ids : list string) : Prop :=
  match ids with
  | x :: ids' =>
      match ids' with
      | y :: _ =>
          (exists t, taskMap !! x = Some t /\ in_dependsOn t = [y])
          /\ linked taskMap ids'
      | [] => True
      end
  | [] => True
  end.

(* the allComplete events of the trace, counted *)
Definition is_allComplete (o : Output) : bool :=
  match o with
  | Queue (allComplete _ _) => true
  | _ => false
  end.

Definition announcements (s : State) : nat :=
  length (List.filter is_allComplete (trace s)).

(* the calls of client.createAgent made for the task `id`, counted *)
Definition createAgent_calls (id : string) (s : State) : nat :=
  length (List.filter (fun o => match o with
                                | Client (createAgent i _) => String.eqb i id
                                | _ => false
                                end) (trace s)).

(* two slots; A has retries = 1 *)
Definition flaky : list TaskInput :=
  [sampleTask "A" [] 0 (Some 1) None;
   sampleTask "B" [] 0 None None;
   sampleTask "C" [] 0 None None].

(* The Executor rejects every start request for A; B and C are started and
   complete.  A is in the batch of the first dispatch round and of the
   rounds that follow the completions of B and of C. *)
Definition flaky_A_rejected : list Action :=
  [Start; SaveResolved 0;
   CreateAgentRejected 0 "HTTP 500";
   CreateAgentResolved 0 "b1"; SaveResolved 0;
   Signalled (sig_completed "b1" None None) "t1";
   CreateAgentRejected 0 "HTTP 500";
   CreateAgentResolved 0 "c1"; SaveResolved 0;
   Signalled (sig_completed "c1" None None) "t2";
   CreateAgentRejected 0 "HTTP 500"].
(* ===================================================================== *)
(* Proofs                                                                *)
(* ===================================================================== *)

(* --------------------------------------------------------------------- *)
(* Array.prototype.sort as used by getReadyTasks                         *)
(* --------------------------------------------------------------------- *)

Section Sorting.

Context {A : Type} (prio : A -> Z).

Let by_priority (a b : A) : Z := prio b - prio a.

Lemma sort_insert_perm (x : A) (l : list A) :
  Permutation (sort_insert by_priority x l) (x :: l).
Proof.
  induction l as [|y l IH]; simpl; [reflexivity|].
  destruct (by_priority x y <=? 0); [reflexivity|].
  rewrite IH. apply perm_swap.
Qed.

Lemma array_sort_perm (l : list A) :
  Permutation (array_sort by_priority l) l.
Proof.
  induction l as [|x l IH]; simpl; [reflexivity|].
  rewrite sort_insert_perm. by constructor.
Qed.

Lemma sort_insert_descending (x : A) (l : list A) :
  descending prio l -> descending prio (sort_insert by_priority x l).
Proof.
  unfold descending, by_priority.
  induction 1 as [|y l Hl IH Hy]; simpl.
  - repeat constructor.
  - destruct (Z.leb_spec (prio y - prio x) 0) as [Hle|Hgt].
    + constructor; [by constructor|].
      constructor; [lia|].
      eapply Forall_impl; [exact Hy|]. simpl. intros; lia.
    + constructor; [exact IH|].
      eapply Permutation_Forall; [symmetry; apply sort_insert_perm|].
      constructor; [lia|exact Hy].
Qed.

Lemma array_sort_descending (l : list A) :
  descending prio (array_sort by_priority l).
Proof.
  induction l as [|x l IH]; simpl.
  - constructor.
  - by apply sort_insert_descending.
Qed.

(* Stability: the elements of one priority keep their relative order. *)
Lemma sort_insert_stable (p : Z) (x : A) (l : list A) :
  List.filter (fun a => prio a =? p) (sort_insert by_priority x l)
  = List.filter (fun a => prio a =? p) (x :: l).
Proof.
  unfold by_priority.
  induction l as [|y l IH]; simpl; [reflexivity|].
  destruct (Z.leb_spec (prio y - prio x) 0) as [Hle|Hgt]; [reflexivity|].
  simpl in *. rewrite IH.
  destruct (Z.eqb_spec (prio x) p), (Z.eqb_spec (prio y) p); try reflexivity.
  lia.
Qed.

Lemma array_sort_stable (p : Z) (l : list A) :
  List.filter (fun a => prio a =? p) (array_sort by_priority l)
  = List.filter (fun a => prio a =? p) l.
Proof.
  induction l as [|x l IH]; simpl; [reflexivity|].
  rewrite sort_insert_stable. simpl. by rewrite IH.
Qed.

End Sorting.

Lemma Permutation_in_iff {A : Type} (x : A) (l l' : list A) :
  Permutation l l' -> In x l <-> In x l'.
Proof.
  intros H. split; apply Permutation_in; [exact H|by symmetry].
Qed.

Lemma In_getReadyTasks (s : State) (t : Task) :
  In t (getReadyTasks s) <-> In t (tasks s) /\ status t = ready.
Proof.
  unfold getReadyTasks.
  rewrite (Permutation_in_iff t _ _ (array_sort_perm priority _)).
  rewrite filter_In. unfold is_ready.
  split; intros [Hin Hr]; (split; [exact Hin|]).
  - by destruct (status t).
  - by rewrite Hr.
Qed.

(** C9: getReadyTasks() returns exactly the tasks of the table whose status
    is `ready` (a permutation of them), in descending order of priority, and
    the tasks of any one priority appear in the order in which they were
    inserted into the table. *)
Theorem C9_getReadyTasks_sorted_stable (s : State) :
  Permutation (getReadyTasks s) (List.filter is_ready (tasks s))
  /\ (forall t, In t (getReadyTasks s) <-> In t (tasks s) /\ status t = ready)
  /\ StronglySorted (fun a b => priority b <= priority a) (getReadyTasks s)
  /\ (forall p, List.filter (fun t => priority t =? p) (getReadyTasks s)
                = List.filter (fun t => priority t =? p)
                              (List.filter is_ready (tasks s))).
Proof.
  split; [|split; [|split]]; [| |unfold getReadyTasks..].
  - apply (array_sort_perm priority).
  - intros t. apply In_getReadyTasks.
  - apply (array_sort_descending priority).
  - intros p. apply (array_sort_stable priority).
Qed.

(* --------------------------------------------------------------------- *)
(* Which fields each function leaves alone                               *)
(* --------------------------------------------------------------------- *)

Create Rewrite HintDb frame.

Ltac frame_simpl := repeat (progress (autorewrite with frame; simpl)).
Ltac frame_solve := repeat (case_match; frame_simpl; try done).

Section Frames.

Variable cfg : Config.

Lemma saveState_fields (s : State) :
  tasks (saveState cfg s) = tasks s
  /\ completed_ids (saveState cfg s) = completed_ids s
  /\ activeAgents (saveState cfg s) = activeAgents s
  /\ timeouts (saveState cfg s) = timeouts s
  /\ armed (saveState cfg s) = armed s
  /\ nextTimer (saveState cfg s) = nextTimer s
  /\ isRunning (saveState cfg s) = isRunning s
  /\ suspended (saveState cfg s) = suspended s.
Proof. unfold saveState. by destruct (hasStateStore cfg). Qed.

Lemma tasks_saveState s : tasks (saveState cfg s) = tasks s.
Proof. apply saveState_fields. Qed.
Lemma completed_ids_saveState s : completed_ids (saveState cfg s) = completed_ids s.
Proof. apply saveState_fields. Qed.
Lemma activeAgents_saveState s : activeAgents (saveState cfg s) = activeAgents s.
Proof. apply saveState_fields. Qed.
Lemma timeouts_saveState s : timeouts (saveState cfg s) = timeouts s.
Proof. apply saveState_fields. Qed.
Lemma armed_saveState s : armed (saveState cfg s) = armed s.
Proof. apply saveState_fields. Qed.
Lemma nextTimer_saveState s : nextTimer (saveState cfg s) = nextTimer s.
Proof. apply saveState_fields. Qed.
Lemma isRunning_saveState s : isRunning (saveState cfg s) = isRunning s.
Proof. apply saveState_fields. Qed.
Lemma suspended_saveState s : suspended (saveState cfg s) = suspended s.
Proof. apply saveState_fields. Qed.

Hint Rewrite tasks_saveState completed_ids_saveState activeAgents_saveState
  timeouts_saveState armed_saveState nextTimer_saveState isRunning_saveState
  suspended_saveState : frame.

Lemma spawnLoop_fields (batch : list TaskInput) (s : State) :
  tasks (spawnLoop batch s) = tasks s
  /\ completed_ids (spawnLoop batch s) = completed_ids s
  /\ activeAgents (spawnLoop batch s) = activeAgents s
  /\ timeouts (spawnLoop batch s) = timeouts s
  /\ armed (spawnLoop batch s) = armed s
  /\ nextTimer (spawnLoop batch s) = nextTimer s
  /\ isRunning (spawnLoop batch s) = isRunning s.
Proof. by destruct batch. Qed.

Lemma tasks_spawnLoop b s : tasks (spawnLoop b s) = tasks s.
Proof. apply spawnLoop_fields. Qed.
Lemma completed_ids_spawnLoop b s : completed_ids (spawnLoop b s) = completed_ids s.
Proof. apply spawnLoop_fields. Qed.
Lemma activeAgents_spawnLoop b s : activeAgents (spawnLoop b s) = activeAgents s.
Proof. apply spawnLoop_fields. Qed.
Lemma timeouts_spawnLoop b s : timeouts (spawnLoop b s) = timeouts s.
Proof. apply spawnLoop_fields. Qed.
Lemma armed_spawnLoop b s : armed (spawnLoop b s) = armed s.
Proof. apply spawnLoop_fields. Qed.
Lemma nextTimer_spawnLoop b s : nextTimer (spawnLoop b s) = nextTimer s.
Proof. apply spawnLoop_fields. Qed.
Lemma isRunning_spawnLoop b s : isRunning (spawnLoop b s) = isRunning s.
Proof. apply spawnLoop_fields. Qed.

Hint Rewrite tasks_spawnLoop completed_ids_spawnLoop activeAgents_spawnLoop
  timeouts_spawnLoop armed_spawnLoop nextTimer_spawnLoop isRunning_spawnLoop
  : frame.

Lemma trySpawnAgents_fields (s : State) :
  tasks (trySpawnAgents cfg s) = tasks s
  /\ completed_ids (trySpawnAgents cfg s) = completed_ids s
  /\ activeAgents (trySpawnAgents cfg s) = activeAgents s
  /\ timeouts (trySpawnAgents cfg s) = timeouts s
  /\ armed (trySpawnAgents cfg s) = armed s
  /\ nextTimer (trySpawnAgents cfg s) = nextTimer s
  /\ isRunning (trySpawnAgents cfg s) = isRunning s.
Proof.
  unfold trySpawnAgents. destruct (negb (isRunning s)); [done|].
  destruct (_ <=? 0); [done|]. apply spawnLoop_fields.
Qed.

Lemma tasks_trySpawnAgents s : tasks (trySpawnAgents cfg s) = tasks s.
Proof. apply trySpawnAgents_fields. Qed.
Lemma completed_ids_trySpawnAgents s :
  completed_ids (trySpawnAgents cfg s) = completed_ids s.
Proof. apply trySpawnAgents_fields. Qed.
Lemma activeAgents_trySpawnAgents s :
  activeAgents (trySpawnAgents cfg s) = activeAgents s.
Proof. apply trySpawnAgents_fields. Qed.
Lemma timeouts_trySpawnAgents s : timeouts (trySpawnAgents cfg s) = timeouts s.
Proof. apply trySpawnAgents_fields. Qed.
Lemma armed_trySpawnAgents s : armed (trySpawnAgents cfg s) = armed s.
Proof. apply trySpawnAgents_fields. Qed.
Lemma nextTimer_trySpawnAgents s : nextTimer (trySpawnAgents cfg s) = nextTimer s.
Proof. apply trySpawnAgents_fields. Qed.
Lemma isRunning_trySpawnAgents s : isRunning (trySpawnAgents cfg s) = isRunning s.
Proof. apply trySpawnAgents_fields. Qed.

Hint Rewrite tasks_trySpawnAgents completed_ids_trySpawnAgents
  activeAgents_trySpawnAgents timeouts_trySpawnAgents armed_trySpawnAgents
  nextTimer_trySpawnAgents isRunning_trySpawnAgents : frame.

Lemma clearTimeout_fields (agent : string) (s : State) :
  tasks (clearTimeout agent s) = tasks s
  /\ completed_ids (clearTimeout agent s) = completed_ids s
  /\ activeAgents (clearTimeout agent s) = activeAgents s
  /\ nextTimer (clearTimeout agent s) = nextTimer s
  /\ isRunning (clearTimeout agent s) = isRunning s
  /\ suspended (clearTimeout agent s) = suspended s
  /\ trace (clearTimeout agent s) = trace s.
Proof. unfold clearTimeout. by destruct (timeouts s !! agent). Qed.

Lemma tasks_clearTimeout a s : tasks (clearTimeout a s) = tasks s.
Proof. apply clearTimeout_fields. Qed.
Lemma completed_ids_clearTimeout a s :
  completed_ids (clearTimeout a s) = completed_ids s.
Proof. apply clearTimeout_fields. Qed.
Lemma activeAgents_clearTimeout a s : activeAgents (clearTimeout a s) = activeAgents s.
Proof. apply clearTimeout_fields. Qed.
Lemma nextTimer_clearTimeout a s : nextTimer (clearTimeout a s) = nextTimer s.
Proof. apply clearTimeout_fields. Qed.
Lemma isRunning_clearTimeout a s : isRunning (clearTimeout a s) = isRunning s.
Proof. apply clearTimeout_fields. Qed.
Lemma suspended_clearTimeout a s : suspended (clearTimeout a s) = suspended s.
Proof. apply clearTimeout_fields. Qed.
Lemma trace_clearTimeout a s : trace (clearTimeout a s) = trace s.
Proof. apply clearTimeout_fields. Qed.

Hint Rewrite tasks_clearTimeout completed_ids_clearTimeout
  activeAgents_clearTimeout nextTimer_clearTimeout isRunning_clearTimeout
  suspended_clearTimeout trace_clearTimeout : frame.

Lemma listener_fields (e : QueueEvent) (s : State) :
  tasks (listener cfg e s) = tasks s
  /\ completed_ids (listener cfg e s) = completed_ids s
  /\ activeAgents (listener cfg e s) = activeAgents s
  /\ nextTimer (listener cfg e s) = nextTimer s.
Proof.
  destruct e; simpl; frame_simpl; try done.
  by destruct (hasStateStore cfg).
Qed.

Lemma emit_fields (e : QueueEvent) (s : State) :
  tasks (emit cfg e s) = tasks s
  /\ completed_ids (emit cfg e s) = completed_ids s
  /\ activeAgents (emit cfg e s) = activeAgents s
  /\ nextTimer (emit cfg e s) = nextTimer s.
Proof. unfold emit. apply (listener_fields e (out (Queue e) s)). Qed.

Lemma tasks_emit e s : tasks (emit cfg e s) = tasks s.
Proof. apply emit_fields. Qed.
Lemma completed_ids_emit e s : completed_ids (emit cfg e s) = completed_ids s.
Proof. apply emit_fields. Qed.
Lemma activeAgents_emit e s : activeAgents (emit cfg e s) = activeAgents s.
Proof. apply emit_fields. Qed.
Lemma nextTimer_emit e s : nextTimer (emit cfg e s) = nextTimer s.
Proof. apply emit_fields. Qed.

Hint Rewrite tasks_emit completed_ids_emit activeAgents_emit nextTimer_emit
  : frame.

Lemma updateReadyLoop_fields (ids : list string) (s : State) :
  completed_ids (updateReadyLoop cfg ids s) = completed_ids s
  /\ activeAgents (updateReadyLoop cfg ids s) = activeAgents s
  /\ nextTimer (updateReadyLoop cfg ids s) = nextTimer s.
Proof.
  revert s. induction ids as [|id ids IH]; intros s; [done|].
  cbn [updateReadyLoop].
  destruct (getTask id s) as [task|]; [|apply IH].
  destruct (negb _); [apply IH|].
  destruct (negb _); [apply IH|].
  destruct (IH (emit cfg (taskReady id) (modifyTask id (set_status ready) s)))
    as (-> & -> & ->).
  by frame_simpl.
Qed.

Lemma completed_ids_updateReadyTasks s :
  completed_ids (updateReadyTasks cfg s) = completed_ids s.
Proof. apply updateReadyLoop_fields. Qed.
Lemma activeAgents_updateReadyTasks s :
  activeAgents (updateReadyTasks cfg s) = activeAgents s.
Proof. apply updateReadyLoop_fields. Qed.
Lemma nextTimer_updateReadyTasks s :
  nextTimer (updateReadyTasks cfg s) = nextTimer s.
Proof. apply updateReadyLoop_fields. Qed.

Hint Rewrite completed_ids_updateReadyTasks activeAgents_updateReadyTasks
  nextTimer_updateReadyTasks : frame.

Lemma checkAllComplete_fields (s : State) :
  tasks (checkAllComplete cfg s) = tasks s
  /\ completed_ids (checkAllComplete cfg s) = completed_ids s
  /\ activeAgents (checkAllComplete cfg s) = activeAgents s
  /\ nextTimer (checkAllComplete cfg s) = nextTimer s.
Proof.
  unfold checkAllComplete. destruct (forallb _ _); [|done]. apply emit_fields.
Qed.

Lemma tasks_checkAllComplete s : tasks (checkAllComplete cfg s) = tasks s.
Proof. apply checkAllComplete_fields. Qed.
Lemma completed_ids_checkAllComplete s :
  completed_ids (checkAllComplete cfg s) = completed_ids s.
Proof. apply checkAllComplete_fields. Qed.
Lemma activeAgents_checkAllComplete s :
  activeAgents (checkAllComplete cfg s) = activeAgents s.
Proof. apply checkAllComplete_fields. Qed.
Lemma nextTimer_checkAllComplete s :
  nextTimer (checkAllComplete cfg s) = nextTimer s.
Proof. apply checkAllComplete_fields. Qed.

Hint Rewrite tasks_checkAllComplete completed_ids_checkAllComplete
  activeAgents_checkAllComplete nextTimer_checkAllComplete : frame.

Lemma activeAgents_markRunning id agent s :
  activeAgents (markRunning cfg id agent s) = activeAgents s.
Proof. unfold markRunning. destruct (getTask id s); by frame_simpl. Qed.

Lemma activeAgents_markCompleted id res chk now s :
  activeAgents (markCompleted cfg id res chk now s) = activeAgents s.
Proof.
  unfold markCompleted. destruct (getTask id s); [|done].
  destruct chk; by frame_simpl.
Qed.

Lemma activeAgents_markFailed id err m s :
  activeAgents (markFailed cfg id err m s) = activeAgents s.
Proof.
  unfold markFailed. destruct (getTask id s); [|done].
  destruct (_ <? _); by frame_simpl.
Qed.

Lemma nextTimer_markFailed id err m s :
  nextTimer (markFailed cfg id err m s) = nextTimer s.
Proof.
  unfold markFailed. destruct (getTask id s); [|done].
  destruct (_ <? _); by frame_simpl.
Qed.

Lemma completed_ids_markFailed id err m s :
  completed_ids (markFailed cfg id err m s) = completed_ids s.
Proof.
  unfold markFailed. destruct (getTask id s); [|done].
  destruct (_ <? _); by frame_simpl.
Qed.

Lemma completed_ids_markRunning id agent s :
  completed_ids (markRunning cfg id agent s) = completed_ids s.
Proof. unfold markRunning. destruct (getTask id s); by frame_simpl. Qed.

End Frames.

#[export] Hint Rewrite tasks_saveState completed_ids_saveState
  activeAgents_saveState timeouts_saveState armed_saveState nextTimer_saveState
  isRunning_saveState suspended_saveState
  tasks_spawnLoop completed_ids_spawnLoop activeAgents_spawnLoop
  timeouts_spawnLoop armed_spawnLoop nextTimer_spawnLoop isRunning_spawnLoop
  tasks_trySpawnAgents completed_ids_trySpawnAgents
  activeAgents_trySpawnAgents timeouts_trySpawnAgents armed_trySpawnAgents
  nextTimer_trySpawnAgents isRunning_trySpawnAgents
  tasks_clearTimeout completed_ids_clearTimeout
  activeAgents_clearTimeout nextTimer_clearTimeout isRunning_clearTimeout
  suspended_clearTimeout trace_clearTimeout
  tasks_emit completed_ids_emit activeAgents_emit nextTimer_emit
  completed_ids_updateReadyTasks activeAgents_updateReadyTasks
  nextTimer_updateReadyTasks
  tasks_checkAllComplete completed_ids_checkAllComplete
  activeAgents_checkAllComplete nextTimer_checkAllComplete
  activeAgents_markRunning activeAgents_markCompleted activeAgents_markFailed
  nextTimer_markFailed completed_ids_markFailed completed_ids_markRunning
  : frame.

(* --------------------------------------------------------------------- *)
(* Looking a task up after a mutation                                    *)
(* --------------------------------------------------------------------- *)

Lemma has_id_true (id : string) (t : Task) : has_id id t = true <-> task_id t = id.
Proof. unfold has_id. apply String.eqb_eq. Qed.

Lemma has_id_false (id : string) (t : Task) : has_id id t = false <-> task_id t <> id.
Proof. unfold has_id. apply String.eqb_neq. Qed.

Lemma getTask_Some (id : string) (s : State) (t : Task) :
  getTask id s = Some t -> In t (tasks s) /\ task_id t = id.
Proof.
  unfold getTask. intros H. apply find_some in H.
  by rewrite has_id_true in H.
Qed.

Lemma getTask_ext (id : string) (s s' : State) :
  tasks s' = tasks s -> getTask id s' = getTask id s.
Proof. unfold getTask. by intros ->. Qed.

Lemma find_modify (id id' : string) (f : Task -> Task) (l : list Task) :
  keeps_id f ->
  List.find (has_id id) (map (fun t => if has_id id' t then f t else t) l)
  = option_map (fun t => if has_id id' t then f t else t) (List.find (has_id id) l).
Proof.
  intros Hf. induction l as [|a l IH]; simpl; [reflexivity|].
  assert (has_id id (if has_id id' a then f a else a) = has_id id a) as ->.
  { destruct (has_id id' a); [|reflexivity]. unfold has_id, task_id. by rewrite Hf. }
  destruct (has_id id a); [reflexivity|exact IH].
Qed.

Lemma getTask_modifyTask_eq (id : string) (f : Task -> Task) (s : State) (t : Task) :
  keeps_id f -> getTask id s = Some t ->
  getTask id (modifyTask id f s) = Some (f t).
Proof.
  intros Hf Ht. unfold getTask, modifyTask. simpl.
  rewrite find_modify by exact Hf. fold (getTask id s). rewrite Ht. simpl.
  apply getTask_Some in Ht as [_ Ht]. apply has_id_true in Ht. by rewrite Ht.
Qed.

Lemma getTask_modifyTask_ne (id id' : string) (f : Task -> Task) (s : State) :
  keeps_id f -> id <> id' ->
  getTask id (modifyTask id' f s) = getTask id s.
Proof.
  intros Hf Hne. unfold getTask, modifyTask. simpl.
  rewrite find_modify by exact Hf. fold (getTask id s).
  destruct (getTask id s) as [t|] eqn:Ht; [|reflexivity]. simpl.
  apply getTask_Some in Ht as [_ Ht].
  assert (has_id id' t = false) as ->; [|reflexivity].
  apply has_id_false. congruence.
Qed.

Lemma keeps_id_set_status v : keeps_id (set_status v).
Proof. by intros t. Qed.
Lemma keeps_id_set_error v : keeps_id (set_error v).
Proof. by intros t. Qed.

Section Lookup.

Variable cfg : Config.

Lemma getTask_emit id e s : getTask id (emit cfg e s) = getTask id s.
Proof. apply getTask_ext. by frame_simpl. Qed.

Lemma getTask_trySpawnAgents id s : getTask id (trySpawnAgents cfg s) = getTask id s.
Proof. apply getTask_ext. by frame_simpl. Qed.

Lemma getTask_checkAllComplete id s :
  getTask id (checkAllComplete cfg s) = getTask id s.
Proof. apply getTask_ext. by frame_simpl. Qed.

(* updateReadyTasks only touches tasks that are pending *)
Lemma getTask_updateReadyLoop (ids : list string) (id : string) (s : State) (t : Task) :
  getTask id s = Some t -> status t <> pending ->
  getTask id (updateReadyLoop cfg ids s) = Some t.
Proof.
  revert s. induction ids as [|i ids IH]; intros s Ht Hnp; [exact Ht|].
  cbn [updateReadyLoop].
  destruct (getTask i s) as [task|] eqn:Hi; [|by apply IH].
  destruct (negb (TaskStatus_eqb (status task) pending)) eqn:Hp; [by apply IH|].
  destruct (negb (depsComplete s task)); [by apply IH|].
  apply IH; [|exact Hnp].
  rewrite getTask_emit. rewrite getTask_modifyTask_ne; [exact Ht|apply keeps_id_set_status|].
  intros ->. rewrite Ht in Hi. injection Hi as ->.
  destruct (status task); simpl in Hp; congruence.
Qed.

(* the task a failure is recorded for, afterwards *)
Lemma getTask_markFailed (id err : string) (m : Z) (s : State) (t : Task) :
  getTask id s = Some t ->
  getTask id (markFailed cfg id err m s)
  = Some (set_status (if attempts t <? retryLimit t m then ready else failed)
                     (set_error (Some err) t)).
Proof.
  intros Ht. unfold markFailed. rewrite Ht.
  pose proof (getTask_modifyTask_eq id _ s t (keeps_id_set_error (Some err)) Ht) as H1.
  destruct (attempts t <? retryLimit t m).
  - rewrite getTask_emit.
    by apply getTask_modifyTask_eq; [apply keeps_id_set_status|].
  - rewrite getTask_checkAllComplete, getTask_emit.
    by apply getTask_modifyTask_eq; [apply keeps_id_set_status|].
Qed.

(* the task a completion is recorded for, afterwards *)
Lemma getTask_markCompleted (id : string) res chk now (s : State) (t : Task) :
  getTask id s = Some t ->
  getTask id (markCompleted cfg id res chk now s)
  = Some (set_result (Some (mkTaskResult (fst res) (snd res) now))
                     (set_status completed t))
  /\ id ∈ completed_ids (markCompleted cfg id res chk now s).
Proof.
  intros Ht. unfold markCompleted. rewrite Ht.
  set (f := fun t => set_result _ (set_status completed t)).
  assert (keeps_id f) as Hf by (by intros u).
  pose proof (getTask_modifyTask_eq id f s t Hf Ht) as H1.
  set (s1 := emit cfg _ _).
  assert (getTask id s1 = Some (f t)) as H2.
  { unfold s1. rewrite getTask_emit. erewrite getTask_ext; [exact H1|done]. }
  assert (getTask id (updateReadyTasks cfg s1) = Some (f t)) as H3.
  { by apply getTask_updateReadyLoop. }
  assert (id ∈ completed_ids (updateReadyTasks cfg s1)) as H4.
  { unfold s1. frame_simpl. set_solver. }
  destruct chk; [|done].
  rewrite getTask_checkAllComplete, completed_ids_checkAllComplete. done.
Qed.

End Lookup.

(* --------------------------------------------------------------------- *)
(* Resolution handlers                                                   *)
(* --------------------------------------------------------------------- *)

Section Handlers.

Variable cfg : Config.

Lemma truthy_string_None_of_None (o : option string) :
  o = None -> truthy_string o = None.
Proof. by intros ->. Qed.

Lemma truthy_string_Some (o : option string) (x : string) :
  truthy_string o = Some x -> o = Some x /\ x <> "".
Proof.
  destruct o as [y|]; simpl; [|done].
  destruct (String.eqb_spec y ""); [done|]. intros [= ->]. done.
Qed.

Lemma handleAgentComplete_unbound agent target now s :
  truthy_string (activeAgents s !! agent) = None ->
  handleAgentComplete cfg agent target now s = s.
Proof. unfold handleAgentComplete. by intros ->. Qed.

Lemma handleAgentFailed_unbound agent err s :
  truthy_string (activeAgents s !! agent) = None ->
  handleAgentFailed cfg agent err s = s.
Proof. unfold handleAgentFailed. by intros ->. Qed.

Lemma activeAgents_handleAgentComplete agent target now s taskId :
  truthy_string (activeAgents s !! agent) = Some taskId ->
  activeAgents (handleAgentComplete cfg agent target now s)
  = delete agent (activeAgents s).
Proof. unfold handleAgentComplete. intros ->. cbv zeta. frame_simpl. reflexivity. Qed.

Lemma activeAgents_handleAgentFailed agent err s taskId :
  truthy_string (activeAgents s !! agent) = Some taskId ->
  activeAgents (handleAgentFailed cfg agent err s)
  = delete agent (activeAgents s).
Proof. unfold handleAgentFailed. intros ->. cbv zeta. frame_simpl. reflexivity. Qed.

Lemma resolve_unbound (r : Resolution) (agent : string) (s : State) :
  activeAgents s !! agent = None -> resolve cfg r agent s = s.
Proof.
  intros H. destruct r; simpl.
  - by apply handleAgentComplete_unbound, truthy_string_None_of_None.
  - by apply handleAgentFailed_unbound, truthy_string_None_of_None.
  - by apply handleAgentFailed_unbound, truthy_string_None_of_None.
  - unfold timeoutCallback. by rewrite H.
Qed.

Lemma resolve_unbinds (r : Resolution) (agent taskId : string) (s : State) :
  truthy_string (activeAgents s !! agent) = Some taskId ->
  activeAgents (resolve cfg r agent s) = delete agent (activeAgents s).
Proof.
  intros H. destruct r; simpl.
  - by eapply activeAgents_handleAgentComplete.
  - by eapply activeAgents_handleAgentFailed.
  - by eapply activeAgents_handleAgentFailed.
  - unfold timeoutCallback.
    destruct (truthy_string_Some _ _ H) as [-> _].
    by erewrite activeAgents_handleAgentFailed.
Qed.

End Handlers.

(** C5: when a handle is bound to a task, whichever resolution handler
    (completion, failure, cancellation, timeout) runs first removes the
    binding, and running any resolution handler for the same handle
    afterwards returns the state unchanged: no task status, binding, timer
    or anything else differs. *)
Theorem C5_second_resolution_is_noop (cfg : Config) (first second : Resolution)
    (agent taskId : string) (s : State) :
  truthy_string (activeAgents s !! agent) = Some taskId ->
  activeAgents (resolve cfg first agent s) !! agent = None
  /\ resolve cfg second agent (resolve cfg first agent s)
     = resolve cfg first agent s.
Proof.
  intros Hbound.
  assert (activeAgents (resolve cfg first agent s) !! agent = None) as Hgone.
  { rewrite (resolve_unbinds cfg first agent taskId s Hbound).
    apply lookup_delete_eq. }
  split; [exact Hgone|]. by apply resolve_unbound.
Qed.

Lemma C5_witness :
  truthy_string (activeAgents fan_out_A_running !! "a1") = Some "A"
  /\ activeAgents (resolve cfg_one by_timeout "a1" fan_out_A_running) !! "a1" = None
  /\ resolve cfg_one (by_completed None None "t1") "a1"
       (resolve cfg_one by_timeout "a1" fan_out_A_running)
     = resolve cfg_one by_timeout "a1" fan_out_A_running.
Proof.
  split; [vm_compute; reflexivity|].
  apply (C5_second_resolution_is_noop cfg_one by_timeout
           (by_completed None None "t1") "a1" "A" fan_out_A_running).
  vm_compute; reflexivity.
Defined.

(* --------------------------------------------------------------------- *)
(* stop()                                                                *)
(* --------------------------------------------------------------------- *)

Lemma lookup_foldr_delete (l : list nat) (m : gmap nat Timer) (n : nat) :
  In n l -> foldr (fun timer a => delete timer a) m l !! n = None.
Proof.
  induction l as [|x l IH]; simpl; [done|].
  intros [->|Hin].
  - apply lookup_delete_eq.
  - destruct (decide (x = n)) as [->|Hne].
    + apply lookup_delete_eq.
    + rewrite lookup_delete_ne by done. by apply IH.
Qed.

Lemma foldr_delete_subseteq (l : list nat) (m : gmap nat Timer) :
  foldr (fun timer a => delete timer a) m l ⊆ m.
Proof.
  induction l as [|x l IH]; simpl; [done|].
  etrans; [apply delete_subseteq|exact IH].
Qed.

Lemma fold_stopAgent_fields (l : list string) (s : State) :
  let s' := fold_left (fun s agent => out (Client (stopAgent agent)) s) l s in
  tasks s' = tasks s /\ completed_ids s' = completed_ids s
  /\ activeAgents s' = activeAgents s /\ timeouts s' = timeouts s
  /\ armed s' = armed s /\ isRunning s' = isRunning s
  /\ suspended s' = suspended s /\ nextTimer s' = nextTimer s.
Proof.
  revert s. induction l as [|a l IH]; intros s; simpl; [done|].
  apply (IH (out (Client (stopAgent a)) s)).
Qed.

Lemma stop_fields (s : State) :
  tasks (stop s) = tasks s /\ completed_ids (stop s) = completed_ids s
  /\ activeAgents (stop s) = activeAgents s /\ timeouts (stop s) = ∅
  /\ armed (stop s)
     = foldr (fun timer a => delete timer a) (armed s)
             (map snd (map_to_list (timeouts s)))
  /\ isRunning (stop s) = false /\ suspended (stop s) = suspended s.
Proof.
  unfold stop. cbv zeta. simpl.
  match goal with
  | |- context [fold_left ?f ?l ?x] =>
      destruct (fold_stopAgent_fields l x) as (-> & -> & -> & -> & -> & -> & -> & _)
  end.
  done.
Qed.

Lemma getTask_stop (id : string) (s : State) : getTask id (stop s) = getTask id s.
Proof. apply getTask_ext, stop_fields. Qed.



(* --------------------------------------------------------------------- *)
(* Run-control misuse                                                    *)
(* --------------------------------------------------------------------- *)

(** C8 (as stated, refuted): task A has completed, so no handle is bound to
    it any more, yet sendFollowUp("A", ..) is not rejected: it forwards the
    message to the agent id still recorded on the task. *)
Lemma C8_followUp_without_binding_not_rejected :
  (forall agent, activeAgents fan_out_A_completed !! agent <> Some "A")
  /\ sendFollowUp "A" "more" fan_out_A_completed
     = Returned (out (Client (client_sendFollowUp "a1" "more")) fan_out_A_completed).
Proof.
  split; [|vm_compute; reflexivity].
  intros agent H.
  assert (activeAgents fan_out_A_completed = ∅) as Hempty
    by (vm_compute; reflexivity).
  rewrite Hempty in H. by rewrite lookup_empty in H.
Qed.

(** C8 (amended): start() on a running orchestrator throws
    "Orchestrator is already running" and leaves the state as it was;
    sendFollowUp(taskId, message) throws "No active agent for task <id>" and
    leaves the state as it was exactly when the task is unknown or has no
    agentId recorded (it was never dispatched); when an agentId is recorded,
    bound or not, the message is forwarded to the client and nothing but the
    record of that call changes. *)
Theorem C8_misuse_rejected_without_mutation (cfg : Config) (s : State)
    (taskId message : string) :
  (isRunning s = true ->
     start cfg s = Threw "Orchestrator is already running"
     /\ step cfg Start s = Some s)
  /\ (recordedAgent taskId s = None ->
        sendFollowUp taskId message s = Threw ("No active agent for task " ++ taskId)
        /\ step cfg (SendFollowUp taskId message) s = Some s)
  /\ (forall agent, recordedAgent taskId s = Some agent ->
        sendFollowUp taskId message s
        = Returned (out (Client (client_sendFollowUp agent message)) s)).
Proof.
  split; [|split].
  - intros Hr. unfold step, start. by rewrite Hr.
  - unfold recordedAgent, step, sendFollowUp.
    destruct (getTask taskId s) as [t|]; [|done]. by intros ->.
  - intros agent. unfold recordedAgent, sendFollowUp.
    destruct (getTask taskId s) as [t|]; [|done]. by intros ->.
Qed.

Lemma C8_witness :
  (isRunning fan_out_A_running = true
   /\ start cfg_one fan_out_A_running = Threw "Orchestrator is already running"
   /\ step cfg_one Start fan_out_A_running = Some fan_out_A_running)
  /\ (recordedAgent "B" fan_out_A_running = None
      /\ sendFollowUp "B" "more" fan_out_A_running
         = Threw ("No active agent for task " ++ "B")
      /\ step cfg_one (SendFollowUp "B" "more") fan_out_A_running
         = Some fan_out_A_running).
Proof.
  destruct (C8_misuse_rejected_without_mutation cfg_one fan_out_A_running
              "B" "more") as (Hstart & Hnone & _).
  split.
  - split; [vm_compute; reflexivity|]. apply Hstart. vm_compute; reflexivity.
  - split; [vm_compute; reflexivity|]. apply Hnone. vm_compute; reflexivity.
Defined.

(* --------------------------------------------------------------------- *)
(* The dispatch loop                                                     *)
(* --------------------------------------------------------------------- *)

Section Dispatch.

Variable cfg : Config.

Lemma tasks_markFailed (id err : string) (m : Z) (s : State) :
  tasks (markFailed cfg id err m s)
  = match getTask id s with
    | None => tasks s
    | Some t =>
        map (fun u => if has_id id u
                      then set_status (if attempts t <? retryLimit t m
                                       then ready else failed)
                                      (set_error (Some err) u)
                      else u) (tasks s)
    end.
Proof.
  unfold markFailed. destruct (getTask id s) as [t|]; [|reflexivity].
  destruct (attempts t <? retryLimit t m); frame_simpl;
    rewrite map_map; apply map_ext; intros u;
    unfold has_id, task_id; simpl;
    destruct (String.eqb (in_id (input u)) id) eqn:E; simpl; by rewrite ?E.
Qed.

Lemma attempts_markFailed (id err : string) (m : Z) (s : State) :
  map attempts (tasks (markFailed cfg id err m s)) = map attempts (tasks s).
Proof.
  rewrite tasks_markFailed. destruct (getTask id s) as [t|]; [|reflexivity].
  rewrite map_map. apply map_ext. intros u. by destruct (has_id id u).
Qed.

Lemma timers_listener (e : QueueEvent) (s : State) :
  timeouts (listener cfg e s) ⊆ timeouts s /\ armed (listener cfg e s) ⊆ armed s.
Proof.
  destruct e; simpl; frame_simpl; try done.
  destruct (hasStateStore cfg); simpl;
    (split; [apply map_empty_subseteq|apply foldr_delete_subseteq]).
Qed.

Lemma timers_emit (e : QueueEvent) (s : State) :
  timeouts (emit cfg e s) ⊆ timeouts s /\ armed (emit cfg e s) ⊆ armed s.
Proof. unfold emit. apply (timers_listener e (out (Queue e) s)). Qed.

Lemma timers_checkAllComplete (s : State) :
  timeouts (checkAllComplete cfg s) ⊆ timeouts s
  /\ armed (checkAllComplete cfg s) ⊆ armed s.
Proof.
  unfold checkAllComplete. destruct (forallb _ _); [apply timers_emit|done].
Qed.

Lemma timers_markFailed (id err : string) (m : Z) (s : State) :
  timeouts (markFailed cfg id err m s) ⊆ timeouts s
  /\ armed (markFailed cfg id err m s) ⊆ armed s.
Proof.
  unfold markFailed. destruct (getTask id s) as [t|]; [|done].
  destruct (_ <? _).
  - apply (timers_emit (taskRetry id)
             (modifyTask id (set_status ready)
                (modifyTask id (set_error (Some err)) s))).
  - destruct (timers_checkAllComplete
                (emit cfg (taskFailed id)
                   (modifyTask id (set_status failed)
                      (modifyTask id (set_error (Some err)) s)))) as [H1 H2].
    destruct (timers_emit (taskFailed id)
                (modifyTask id (set_status failed)
                   (modifyTask id (set_error (Some err)) s))) as [H3 H4].
    split; etrans; eauto.
Qed.

Lemma spawnLoop_cons (next : TaskInput) (rest : list TaskInput) (s : State) :
  last (trace (spawnLoop (next :: rest) s))
  = Some (Client (createAgent (in_id next) (branchName next)))
  /\ In (SpawnAwaitCreate next rest) (suspended (spawnLoop (next :: rest) s)).
Proof.
  simpl. split; [apply last_snoc|]. apply in_or_app. right. by left.
Qed.

End Dispatch.

(* What the catch branch of the loop of trySpawnAgents does when the
   Executor rejects the start request of a task of the batch: markFailed is
   called for that task with the rejection message, the attempts counter of
   every task is left as it was, no binding is added, no timer is created,
   and the loop goes on to call createAgent for the next task of the
   batch. *)
Lemma rejected_start_effect (cfg : Config) (s : State)
    (k : nat) (task : TaskInput) (rest : list TaskInput) (message : string) :
  suspended s !! k = Some (SpawnAwaitCreate task rest) ->
  exists s',
    step cfg (CreateAgentRejected k message) s = Some s'
    /\ map attempts (tasks s') = map attempts (tasks s)
    /\ (forall t, getTask (in_id task) s = Some t ->
          getTask (in_id task) s'
          = Some (set_status
                    (if attempts t <? retryLimit t DEFAULT_MAX_RETRIES
                     then ready else failed)
                    (set_error (Some message) t)))
    /\ activeAgents s' = activeAgents s
    /\ nextTimer s' = nextTimer s
    /\ timeouts s' ⊆ timeouts s
    /\ armed s' ⊆ armed s
    /\ (forall next rest', rest = next :: rest' ->
          last (trace s') = Some (Client (createAgent (in_id next) (branchName next)))
          /\ In (SpawnAwaitCreate next rest') (suspended s')).
Proof.
  intros Hk. eexists. split; [simpl; rewrite Hk; reflexivity|].
  unfold spawnAgent_threw.
  split; [|split; [|split; [|split; [|split; [|split]]]]].
  - frame_simpl. by rewrite attempts_markFailed.
  - intros t Ht. erewrite getTask_ext; [|apply tasks_spawnLoop].
    apply getTask_markFailed. exact Ht.
  - by frame_simpl.
  - by frame_simpl.
  - frame_simpl. apply (timers_markFailed cfg _ _ _ (resume k s)).
  - frame_simpl. apply (timers_markFailed cfg _ _ _ (resume k s)).
  - intros next rest' ->. apply spawnLoop_cons.
Qed.

(** C7 (code defect, evaluated): task A has retries = 1 and the Executor
    rejects every start request for it.  The catch branch calls markFailed,
    as handleAgentFailed does on the sibling path, but attempts is incremented
    only by markRunning, which a rejected start never reaches: after three
    rejected createAgent calls A still has attempts = 0 and is `ready`, not
    `failed`.  The rejected dispatches are not counted, so retries never
    bounds them; at the end the orchestrator is running with nothing bound,
    suspended or armed, A is never dispatched again and allComplete is never
    emitted. *)
Theorem C7_rejected_starts_never_use_up_retries :
  exists s,
    run cfg_two flaky_A_rejected (loaded cfg_two "plan" flaky "t0") = Some s
    /\ createAgent_calls "A" s = 3%nat
    /\ option_map (fun t => (retries t, attempts t, status t, error t))
                  (getTask "A" s)
       = Some (Some 1, 0, ready, Some "HTTP 500")
    /\ option_map status (getTask "B" s) = Some completed
    /\ option_map status (getTask "C" s) = Some completed
    /\ isRunning s = true
    /\ suspended s = []
    /\ activeAgents s = ∅
    /\ armed s = ∅
    /\ announcements s = 0%nat.
Proof.
  eexists. split; [vm_compute; reflexivity|].
  split; [vm_compute; reflexivity|]. split; [vm_compute; reflexivity|].
  split; [vm_compute; reflexivity|]. split; [vm_compute; reflexivity|].
  split; [vm_compute; reflexivity|]. split; [vm_compute; reflexivity|].
  split; [vm_compute; reflexivity|]. split; vm_compute; reflexivity.
Qed.

(** C6 (as stated, refuted): the batch [A; B] is under way when stop() is
    called; the run flag is false, and when the dispatch of A has finished
    the loop still calls createAgent for B, and B is bound and running. *)
Lemma C6_stop_mid_batch_still_dispatches :
  isRunning pair_stopped_mid_batch = false
  /\ option_map status (getTask "B" pair_stopped_mid_batch) = Some ready
  /\ exists s1 s2,
       step cfg_two (SaveResolved 0) pair_stopped_mid_batch = Some s1
       /\ last (trace s1) = Some (Client (createAgent "B" "task/B"))
       /\ step cfg_two (CreateAgentResolved 0 "b1") s1 = Some s2
       /\ isRunning s2 = false
       /\ activeAgents s2 !! "b1" = Some "B"
       /\ option_map status (getTask "B" s2) = Some running.
Proof.
  split; [vm_compute; reflexivity|]. split; [vm_compute; reflexivity|].
  eexists. eexists. split; [reflexivity|]. split; [vm_compute; reflexivity|].
  split; [reflexivity|]. repeat split; vm_compute; reflexivity.
Qed.

(** C6 (amended): the running flag and the number of free slots are tested
    once, when a dispatch loop is invoked: if the orchestrator is not running
    or no slot is free nothing happens, otherwise the batch is the first
    `free slots` ready tasks.  Between two dispatches of one batch nothing is
    tested: when the dispatch of one task of the batch has finished, the
    next task of the batch is dispatched whatever the running flag and the
    bindings are then. *)
Theorem C6_flag_and_slots_tested_once_per_invocation (cfg : Config) (s : State)
    (k : nat) (task next : TaskInput) (rest : list TaskInput) :
  suspended s !! k = Some (SpawnAwaitSave task (next :: rest)) ->
  trySpawnAgents cfg s
  = (if negb (isRunning s)
        || (maxConcurrent cfg - Z.of_nat (size (activeAgents s)) <=? 0)
     then s
     else spawnLoop
            (map input (firstn (Z.to_nat (maxConcurrent cfg
                                          - Z.of_nat (size (activeAgents s))))
                               (getReadyTasks s))) s)
  /\ exists s',
       step cfg (SaveResolved k) s = Some s'
       /\ last (trace s') = Some (Client (createAgent (in_id next) (branchName next)))
       /\ In (SpawnAwaitCreate next rest) (suspended s')
       /\ isRunning s' = isRunning s
       /\ activeAgents s' = activeAgents s.
Proof.
  intros Hk. split.
  - unfold trySpawnAgents. destruct (negb (isRunning s)); [done|]. simpl.
    by destruct (_ <=? 0).
  - eexists. split; [simpl; rewrite Hk; reflexivity|].
    split; [apply spawnLoop_cons|]. split; [apply spawnLoop_cons|].
    by frame_simpl.
Qed.

Lemma C6_witness :
  suspended (after cfg_two [Stop; CreateAgentResolved 0 "a1"] pair_A_pending) !! 0%nat
  = Some (SpawnAwaitSave (sampleTask "A" [] 0 None None)
                         [sampleTask "B" [] 0 None None])
  /\ exists s',
       step cfg_two (SaveResolved 0)
            (after cfg_two [Stop; CreateAgentResolved 0 "a1"] pair_A_pending)
       = Some s'
       /\ last (trace s') = Some (Client (createAgent "B" "task/B")).
Proof.
  assert (suspended (after cfg_two [Stop; CreateAgentResolved 0 "a1"] pair_A_pending)
            !! 0%nat
          = Some (SpawnAwaitSave (sampleTask "A" [] 0 None None)
                                 [sampleTask "B" [] 0 None None])) as Hk
    by (vm_compute; reflexivity).
  split; [exact Hk|].
  destruct (C6_flag_and_slots_tested_once_per_invocation cfg_two _ 0 _ _ _ Hk)
    as (_ & s' & Hs & Hl & _).
  exists s'. split; [exact Hs|exact Hl].
Defined.

(** C1 (code defect, evaluated): with maxConcurrent = 1, the completion of A
    makes B and C ready; each taskReady event and the handler itself start a
    dispatch loop while no binding exists yet, each loop takes B as its
    batch, and when the three createAgent calls have resolved three handles
    are bound. *)
Theorem C1_bindings_exceed_maxConcurrent :
  maxConcurrent cfg_one = 1
  /\ exists s,
       run cfg_one fan_out_overrun (loaded cfg_one "plan" fan_out "t0") = Some s
       /\ size (activeAgents s) = 3%nat
       /\ activeAgents s !! "b1" = Some "B"
       /\ activeAgents s !! "b2" = Some "B"
       /\ activeAgents s !! "b3" = Some "B".
Proof.
  split; [reflexivity|]. eexists. split; [vm_compute; reflexivity|].
  repeat split; vm_compute; reflexivity.
Qed.

(** C2 (code defect, evaluated): a task with retries = 1 is dispatched once
    (attempts = 1) and its agent fails; markFailed tests 1 < 1 and the task
    is `failed` with attempts = 1, not 2, and without any retry. *)
Theorem C2_failed_with_attempts_equal_to_retries :
  exists s,
    run cfg_one one_retry_fails_once (loaded cfg_one "plan" one_retry "t0") = Some s
    /\ option_map (fun t => (retries t, attempts t, status t)) (getTask "A" s)
       = Some (Some 1, 1, failed).
Proof. eexists. split; vm_compute; reflexivity. Qed.

(* --------------------------------------------------------------------- *)
(* The invariant of a run: elementary state changes                      *)
(* --------------------------------------------------------------------- *)

Lemma depsComplete_ext (s s' : State) (t t' : Task) :
  completed_ids s' = completed_ids s -> input t' = input t ->
  depsComplete s' t' = depsComplete s t.
Proof. unfold depsComplete, dependsOn. by intros -> ->. Qed.

Lemma depsComplete_mono (s s' : State) (t t' : Task) :
  completed_ids s ⊆ completed_ids s' -> input t' = input t ->
  depsComplete s t = true -> depsComplete s' t' = true.
Proof.
  unfold depsComplete, dependsOn. intros Hsub ->.
  rewrite !forallb_forall. intros H d Hd.
  specialize (H d Hd). apply bool_decide_eq_true in H.
  apply bool_decide_eq_true. set_solver.
Qed.

Lemma depsComplete_spec (s : State) (t : Task) :
  depsComplete s t = true <-> forall d, In d (dependsOn t) -> d ∈ completed_ids s.
Proof.
  unfold depsComplete. rewrite forallb_forall.
  split; intros H d Hd; specialize (H d Hd).
  - by apply bool_decide_eq_true in H.
  - by apply bool_decide_eq_true.
Qed.

Lemma depsComplete_false (s : State) (t : Task) :
  depsComplete s t = false -> exists d, In d (dependsOn t) /\ d ∉ completed_ids s.
Proof.
  unfold depsComplete. induction (dependsOn t) as [|d l IH]; simpl; [done|].
  destruct (bool_decide (d ∈ completed_ids s)) eqn:Hd; simpl.
  - intros H. destruct (IH H) as (d' & H1 & H2). exists d'. split; [by right|done].
  - intros _. exists d. split; [by left|]. by apply bool_decide_eq_false in Hd.
Qed.

Lemma in_tasks_same_input (s s' : State) (t' : Task) :
  map input (tasks s') = map input (tasks s) -> In t' (tasks s') ->
  exists t, In t (tasks s) /\ input t = input t'.
Proof.
  intros Hm Hin. apply (in_map input) in Hin. rewrite Hm in Hin.
  apply in_map_iff in Hin. destruct Hin as (t & H1 & H2). eauto.
Qed.

Lemma dispatchable_grows (s s' : State) (id : string) :
  map input (tasks s') = map input (tasks s) ->
  completed_ids s ⊆ completed_ids s' ->
  dispatchable s id -> dispatchable s' id.
Proof.
  intros Hm Hsub Hd t' Hin Hid.
  destruct (in_tasks_same_input s s' t' Hm Hin) as (t & Ht & Hi).
  eapply depsComplete_mono; [exact Hsub|symmetry; exact Hi|].
  apply Hd; [exact Ht|]. unfold task_id in *. by rewrite Hi.
Qed.

Lemma map_task_id_of_input (l l' : list Task) :
  map input l' = map input l -> map task_id l' = map task_id l.
Proof.
  intros H. unfold task_id.
  rewrite <- (map_map input in_id l'), <- (map_map input in_id l). by rewrite H.
Qed.

Lemma length_of_input (l l' : list Task) :
  map input l' = map input l -> length l' = length l.
Proof.
  intros H. rewrite <- (length_map input l'), <- (length_map input l). by rewrite H.
Qed.

(* A task found by id in a table without duplicate ids is the only one. *)
Lemma unique_getTask (s : State) (id : string) (t u : Task) :
  NoDup (map task_id (tasks s)) -> getTask id s = Some t ->
  In u (tasks s) -> task_id u = id -> u = t.
Proof.
  unfold getTask. induction (tasks s) as [|a l IH]; simpl; [done|].
  intros Hnd Hf Hin Hu. inversion Hnd as [|x xs Hnotin Hnd']; subst.
  destruct (has_id (task_id u) a) eqn:Ha.
  - injection Hf as <-. destruct Hin as [->|Hin]; [done|].
    exfalso. apply Hnotin. apply has_id_true in Ha. rewrite Ha.
    apply list_elem_of_In. by apply in_map.
  - destruct Hin as [->|Hin].
    + apply has_id_false in Ha. done.
    + by apply IH.
Qed.

Lemma unique_dispatchable (s : State) (id : string) (t : Task) :
  NoDup (map task_id (tasks s)) -> getTask id s = Some t ->
  depsComplete s t = true -> dispatchable s id.
Proof.
  intros Hnd Ht Hd u Hin Hu.
  by rewrite (unique_getTask s id t u Hnd Ht Hin Hu).
Qed.

Lemma In_getTask (s : State) (t : Task) :
  In t (tasks s) -> exists u, getTask (task_id t) s = Some u.
Proof.
  intros Hin. unfold getTask.
  destruct (List.find (has_id (task_id t)) (tasks s)) as [u|] eqn:Hf; [eauto|].
  exfalso. eapply find_none in Hf; [|exact Hin].
  apply has_id_false in Hf. done.
Qed.

(* a change that touches none of the fields the invariant reads *)
Lemma Inv_same (s s' : State) :
  tasks s' = tasks s -> completed_ids s' = completed_ids s ->
  activeAgents s' = activeAgents s -> suspended s' = suspended s ->
  trace s' = trace s -> Inv s -> Inv s'.
Proof.
  intros Ht Hc Ha Hs Htr [H1 H2 H3 H4 H5].
  assert (forall id, dispatchable s id -> dispatchable s' id) as Hd.
  { intros id. apply dispatchable_grows; [by rewrite Ht|by rewrite Hc]. }
  split.
  - by rewrite Ht.
  - intros t Hin Hr. rewrite Ht in Hin.
    rewrite (depsComplete_ext s s' t t Hc eq_refl). by apply H2.
  - intros a tid Hl. rewrite Ha in Hl. eapply Hd, H3, Hl.
  - intros c i Hc' Hi. rewrite Hs in Hc'. eapply Hd, H4; eauto.
  - intros c f. unfold announced. rewrite Htr, Ht. apply H5.
Qed.

Lemma Inv_out (o : Output) (s : State) :
  ~ is_announcement o -> Inv s -> Inv (out o s).
Proof.
  intros Ho [H1 H2 H3 H4 H5]. split; try done.
  intros c f. unfold announced. simpl. rewrite in_app_iff.
  intros [Hin|[->|[]]]; [by apply H5|].
  exfalso. apply Ho. by exists c, f.
Qed.

Lemma Inv_suspend (c : Suspended) (s : State) :
  (forall i, In i (batch_of c) -> dispatchable s (in_id i)) ->
  Inv s -> Inv (suspend c s).
Proof.
  intros Hc [H1 H2 H3 H4 H5]. split; try done.
  intros c' i. simpl. rewrite in_app_iff.
  intros [Hin|[<-|[]]] Hi; [by eapply H4|by apply Hc].
Qed.

Lemma Inv_resume (k : nat) (s : State) : Inv s -> Inv (resume k s).
Proof.
  intros [H1 H2 H3 H4 H5]. split; try done.
  intros c i Hin Hi. simpl in Hin. eapply H4; [|exact Hi].
  apply list_elem_of_In in Hin. apply list_elem_of_In.
  by eapply list_elem_of_delete_inv.
Qed.

Lemma tasks_modifyTask_input (id : string) (f : Task -> Task) (s : State) :
  keeps_id f -> map input (tasks (modifyTask id f s)) = map input (tasks s).
Proof.
  intros Hf. simpl. rewrite map_map. apply map_ext. intros t.
  by destruct (has_id id t).
Qed.

Lemma Inv_modify (id : string) (f : Task -> Task) (s : State) :
  keeps_id f ->
  (forall t, In t (tasks s) -> task_id t = id -> status (f t) = ready ->
             depsComplete s t = true) ->
  Inv s -> Inv (modifyTask id f s).
Proof.
  intros Hf Hr [H1 H2 H3 H4 H5].
  pose proof (tasks_modifyTask_input id f s Hf) as Hm.
  assert (forall i, dispatchable s i -> dispatchable (modifyTask id f s) i) as Hd.
  { intros i. by apply dispatchable_grows. }
  split.
  - by rewrite (map_task_id_of_input _ _ Hm).
  - intros t' Hin Hst. simpl in Hin. apply in_map_iff in Hin.
    destruct Hin as (t & <- & Hin).
    destruct (has_id id t) eqn:Hid.
    + rewrite (depsComplete_ext s _ t (f t)); [|done|apply Hf].
      apply Hr; [done| |done]. by apply has_id_true.
    + rewrite (depsComplete_ext s _ t t); [|done|done]. by apply H2.
  - intros a tid Hl. eapply Hd, H3, Hl.
  - intros c i Hc Hi. eapply Hd, H4; eauto.
  - intros c fl Ha. rewrite (length_of_input _ _ Hm). by apply H5.
Qed.

Lemma Inv_complete (id : string) (s : State) :
  Inv s -> Inv (set_completed_ids ({[id]} ∪ completed_ids s) s).
Proof.
  intros [H1 H2 H3 H4 H5].
  assert (forall i, dispatchable s i ->
                    dispatchable (set_completed_ids ({[id]} ∪ completed_ids s) s) i)
    as Hd.
  { intros i. apply dispatchable_grows; [done|]. simpl. set_solver. }
  split; try done.
  - intros t Hin Hr. eapply depsComplete_mono; [|reflexivity|by apply H2].
    simpl. set_solver.
  - intros a tid Hl. eapply Hd, H3, Hl.
  - intros c i Hc Hi. eapply Hd, H4; eauto.
Qed.

Lemma Inv_bind (agent taskId : string) (s : State) :
  dispatchable s taskId -> Inv s ->
  Inv (set_activeAgents (<[agent := taskId]> (activeAgents s)) s).
Proof.
  intros Hd [H1 H2 H3 H4 H5]. split; try done.
  intros a tid. simpl. destruct (decide (agent = a)) as [->|Hne].
  - rewrite lookup_insert_eq. by intros [= <-].
  - rewrite lookup_insert_ne by done. apply H3.
Qed.

Lemma Inv_unbind (agent : string) (s : State) :
  Inv s -> Inv (set_activeAgents (delete agent (activeAgents s)) s).
Proof.
  intros [H1 H2 H3 H4 H5]. split; try done.
  intros a tid. simpl. intros Hl. apply lookup_delete_Some in Hl as [_ Hl].
  by eapply H3.
Qed.

(* --------------------------------------------------------------------- *)
(* The invariant of a run: the functions of the program                  *)
(* --------------------------------------------------------------------- *)

Lemma In_firstn {A : Type} (n : nat) (l : list A) (x : A) :
  In x (firstn n l) -> In x l.
Proof.
  revert l. induction n as [|n IH]; intros [|a l]; simpl; try done.
  intros [->|H]; [by left|right; by apply IH].
Qed.

Lemma dispatchable_same (s s' : State) (id : string) :
  tasks s' = tasks s -> completed_ids s' = completed_ids s ->
  dispatchable s id -> dispatchable s' id.
Proof.
  intros Ht Hc. apply dispatchable_grows; [by rewrite Ht|by rewrite Hc].
Qed.

Lemma Inv_ready_dispatchable (s : State) (t : Task) :
  Inv s -> In t (tasks s) -> status t = ready -> dispatchable s (task_id t).
Proof.
  intros HI Hin Hr. destruct (In_getTask s t Hin) as [u Hu].
  pose proof (unique_getTask s _ u t (inv_unique s HI) Hu Hin eq_refl) as ->.
  eapply unique_dispatchable; [apply HI|exact Hu|]. by apply HI.
Qed.

Lemma Inv_out_announce (o : Output) (s : State) :
  (forall c f, o = Queue (allComplete c f) ->
               (length c + length f = length (tasks s))%nat) ->
  Inv s -> Inv (out o s).
Proof.
  intros Ho [H1 H2 H3 H4 H5]. split; try done.
  intros c f. unfold announced. simpl. rewrite in_app_iff.
  intros [Hin|[->|[]]]; [by apply H5|]. by apply Ho.
Qed.

Lemma length_getResults (l : list Task) :
  forallb is_terminal l = true ->
  (length (with_status completed l) + length (with_status failed l) = length l)%nat.
Proof.
  unfold with_status, is_terminal.
  induction l as [|t l IH]; simpl; [done|].
  intros H. apply andb_true_iff in H as [Ht Hl]. specialize (IH Hl).
  destruct (status t); simpl in *; try discriminate; lia.
Qed.

Section Preservation.

Variable cfg : Config.

Lemma Inv_saveState s : Inv s -> Inv (saveState cfg s).
Proof.
  unfold saveState. destruct (hasStateStore cfg); [|done].
  apply Inv_out. by intros (c & f & H).
Qed.

Lemma Inv_spawnLoop (batch : list TaskInput) (s : State) :
  (forall i, In i batch -> dispatchable s (in_id i)) ->
  Inv s -> Inv (spawnLoop batch s).
Proof.
  destruct batch as [|t rest]; [done|]. intros Hb HI. simpl.
  apply Inv_suspend; [exact Hb|]. apply Inv_out; [|exact HI].
  by intros (c & f & H).
Qed.

Lemma Inv_trySpawnAgents s : Inv s -> Inv (trySpawnAgents cfg s).
Proof.
  intros HI. unfold trySpawnAgents.
  destruct (negb (isRunning s)); [done|]. destruct (_ <=? 0); [done|].
  apply Inv_spawnLoop; [|exact HI].
  intros i Hi. apply in_map_iff in Hi as (t & <- & Ht).
  apply In_firstn in Ht. apply In_getReadyTasks in Ht as [Hin Hr].
  by apply Inv_ready_dispatchable.
Qed.

Lemma Inv_clearTimeout agent s : Inv s -> Inv (clearTimeout agent s).
Proof. apply Inv_same; by frame_simpl. Qed.

Lemma Inv_clearAllTimeouts s : Inv s -> Inv (clearAllTimeouts s).
Proof. by apply Inv_same. Qed.

Lemma Inv_listener (e : QueueEvent) (s : State) : Inv s -> Inv (listener cfg e s).
Proof.
  intros HI. destruct e; simpl.
  - by apply Inv_trySpawnAgents.
  - done.
  - apply Inv_saveState, Inv_out; [by intros (c & f & H)|done].
  - apply Inv_out; [by intros (c & f & H)|done].
  - apply Inv_saveState, Inv_out; [by intros (c & f & H)|done].
  - assert (Inv (out (Orch (ev_complete completedIds failedIds))
                   (clearAllTimeouts
                      (out (Client stopAllMonitoring) (set_isRunning false s)))))
      as HI'.
    { apply Inv_out; [by intros (c & f & H)|].
      apply Inv_clearAllTimeouts, Inv_out; [by intros (c & f & H)|].
      revert HI. by apply Inv_same. }
    destruct (hasStateStore cfg); [|exact HI'].
    apply Inv_out; [by intros (c & f & H)|exact HI'].
Qed.

Lemma Inv_emit (e : QueueEvent) (s : State) :
  (forall c f, e = allComplete c f ->
               (length c + length f = length (tasks s))%nat) ->
  Inv s -> Inv (emit cfg e s).
Proof.
  intros He HI. unfold emit. apply Inv_listener, Inv_out_announce; [|exact HI].
  intros c f [= ->]. by apply He.
Qed.

Lemma Inv_updateReadyLoop (ids : list string) (s : State) :
  Inv s -> Inv (updateReadyLoop cfg ids s).
Proof.
  revert s. induction ids as [|id ids IH]; intros s HI; [done|].
  cbn [updateReadyLoop].
  destruct (getTask id s) as [task|] eqn:Ht; [|by apply IH].
  destruct (negb (TaskStatus_eqb (status task) pending)); [by apply IH|].
  destruct (depsComplete s task) eqn:Hd; cbn [negb]; [|by apply IH].
  apply IH, Inv_emit; [done|].
  apply Inv_modify; [apply keeps_id_set_status| |exact HI].
  intros t Hin Hid _.
  eapply unique_dispatchable; eauto. apply HI.
Qed.

Lemma Inv_markRunning id agent s : Inv s -> Inv (markRunning cfg id agent s).
Proof.
  intros HI. unfold markRunning. destruct (getTask id s); [|done].
  apply Inv_emit; [done|]. apply Inv_modify; [by intros ?|done|exact HI].
Qed.

Lemma Inv_checkAllComplete s : Inv s -> Inv (checkAllComplete cfg s).
Proof.
  intros HI. unfold checkAllComplete.
  destruct (forallb is_terminal (tasks s)) eqn:Hall; [|done].
  apply Inv_emit; [|exact HI].
  intros c f [= <- <-]. rewrite !length_map. by apply length_getResults.
Qed.

Lemma Inv_markCompleted id res chk now s :
  Inv s -> Inv (markCompleted cfg id res chk now s).
Proof.
  intros HI. unfold markCompleted. destruct (getTask id s); [|done].
  assert (Inv (updateReadyTasks cfg
                 (emit cfg (taskCompleted id)
                    (set_completed_ids ({[id]} ∪ completed_ids s)
                       (modifyTask id
                          (fun t => set_result
                                      (Some (mkTaskResult (fst res) (snd res) now))
                                      (set_status completed t)) s))))) as HI'.
  { apply Inv_updateReadyLoop, Inv_emit; [done|].
    apply (Inv_complete id (modifyTask id _ s)).
    apply Inv_modify; [by intros ?|done|exact HI]. }
  destruct chk; [|exact HI']. by apply Inv_checkAllComplete.
Qed.

Lemma Inv_markFailed id err m s :
  dispatchable s id -> Inv s -> Inv (markFailed cfg id err m s).
Proof.
  intros Hd HI. unfold markFailed. destruct (getTask id s) as [task|]; [|done].
  assert (Inv (modifyTask id (set_error (Some err)) s)) as HI1.
  { apply Inv_modify; [apply keeps_id_set_error| |exact HI].
    intros t Hin _ Hr. by apply HI. }
  assert (dispatchable (modifyTask id (set_error (Some err)) s) id) as Hd1.
  { revert Hd. apply dispatchable_grows; [|done].
    apply tasks_modifyTask_input, keeps_id_set_error. }
  destruct (_ <? _).
  - apply Inv_emit; [done|].
    apply Inv_modify; [apply keeps_id_set_status| |exact HI1].
    intros t Hin Hid _. by apply Hd1.
  - apply Inv_checkAllComplete, Inv_emit; [done|].
    apply Inv_modify; [apply keeps_id_set_status|done|exact HI1].
Qed.

Lemma inputs_updateReadyLoop (ids : list string) (s : State) :
  map input (tasks (updateReadyLoop cfg ids s)) = map input (tasks s).
Proof.
  revert s. induction ids as [|id ids IH]; intros s; [done|].
  cbn [updateReadyLoop].
  destruct (getTask id s) as [task|]; [|by apply IH].
  destruct (negb _); [by apply IH|]. destruct (negb _); [by apply IH|].
  rewrite IH. frame_simpl.
  apply (tasks_modifyTask_input id _ s), keeps_id_set_status.
Qed.

Lemma inputs_markRunning id agent s :
  map input (tasks (markRunning cfg id agent s)) = map input (tasks s).
Proof.
  unfold markRunning. destruct (getTask id s); [|done].
  rewrite tasks_emit. by apply tasks_modifyTask_input.
Qed.

Lemma inputs_markFailed id err m s :
  map input (tasks (markFailed cfg id err m s)) = map input (tasks s).
Proof.
  rewrite tasks_markFailed. destruct (getTask id s); [|done].
  rewrite map_map. apply map_ext. intros u. by destruct (has_id id u).
Qed.

Lemma Inv_handleAgentComplete agent target now s :
  Inv s -> Inv (handleAgentComplete cfg agent target now s).
Proof.
  intros HI. unfold handleAgentComplete.
  destruct (truthy_string _) as [taskId|]; [|done]. cbv zeta.
  by apply Inv_trySpawnAgents, Inv_markCompleted, Inv_clearTimeout, Inv_unbind.
Qed.

Lemma Inv_handleAgentFailed agent err s :
  Inv s -> Inv (handleAgentFailed cfg agent err s).
Proof.
  intros HI. unfold handleAgentFailed.
  destruct (truthy_string _) as [taskId|] eqn:Hb; [|done]. cbv zeta.
  apply truthy_string_Some in Hb as [Hb _].
  apply Inv_trySpawnAgents, Inv_markFailed.
  - eapply dispatchable_same; [| |eapply (inv_bound s HI), Hb]; by frame_simpl.
  - apply Inv_out; [by intros (c & f & H)|].
    by apply Inv_clearTimeout, Inv_unbind.
Qed.

Lemma Inv_timeoutCallback agent s : Inv s -> Inv (timeoutCallback cfg agent s).
Proof.
  intros HI. unfold timeoutCallback. destruct (activeAgents s !! agent); [|done].
  apply Inv_handleAgentFailed, Inv_out; [by intros (c & f & H)|done].
Qed.

Lemma Inv_onSignal sg now s : Inv s -> Inv (onSignal cfg sg now s).
Proof.
  intros HI. destruct sg; simpl.
  - by apply Inv_handleAgentComplete.
  - by apply Inv_handleAgentFailed.
  - by apply Inv_handleAgentFailed.
  - done.
Qed.

Lemma Inv_fold_stopAgent (l : list string) (s : State) :
  Inv s -> Inv (fold_left (fun s agent => out (Client (stopAgent agent)) s) l s).
Proof.
  revert s. induction l as [|a l IH]; intros s HI; simpl; [done|].
  apply IH, Inv_out; [by intros (c & f & H)|done].
Qed.

Lemma Inv_stop s : Inv s -> Inv (stop s).
Proof.
  intros HI. unfold stop. cbv zeta.
  apply Inv_out; [by intros (c & f & H)|].
  apply Inv_fold_stopAgent, Inv_clearAllTimeouts, Inv_out; [by intros (c & f & H)|].
  revert HI. by apply Inv_same.
Qed.

Lemma Inv_spawnAgent_created task rest agent s :
  (forall i, In i (task :: rest) -> dispatchable s (in_id i)) ->
  Inv s -> Inv (spawnAgent_created cfg task rest agent s).
Proof.
  intros Hb HI. unfold spawnAgent_created. cbv zeta.
  set (s1 := markRunning cfg (in_id task) agent
               (set_activeAgents (<[agent:=in_id task]> (activeAgents s)) s)).
  assert (Inv s1) as HI1.
  { apply Inv_markRunning, Inv_bind; [|exact HI]. apply Hb. by left. }
  assert (forall i, In i (task :: rest) -> dispatchable s1 (in_id i)) as Hb1.
  { intros i Hi. eapply dispatchable_grows; [| |apply (Hb i Hi)].
    - unfold s1. by rewrite inputs_markRunning.
    - unfold s1. by frame_simpl. }
  apply Inv_suspend.
  - intros i Hi. eapply dispatchable_same; [| |apply (Hb1 i Hi)]; by frame_simpl.
  - apply Inv_saveState, Inv_out; [by intros (c & f & H)|].
    eapply Inv_same; [| | | | |apply (Inv_out (Client (startMonitoring agent (pollInterval cfg))) s1); [by intros (c & f & H)|exact HI1]]; done.
Qed.

Lemma Inv_spawnAgent_threw task rest message s :
  (forall i, In i (task :: rest) -> dispatchable s (in_id i)) ->
  Inv s -> Inv (spawnAgent_threw cfg task rest message s).
Proof.
  intros Hb HI. unfold spawnAgent_threw. apply Inv_spawnLoop.
  - intros i Hi. eapply dispatchable_grows; [| |apply (Hb i); by right].
    + by rewrite inputs_markFailed.
    + by frame_simpl.
  - apply Inv_markFailed; [|exact HI]. apply Hb. by left.
Qed.

Lemma Inv_start s s' : Inv s -> start cfg s = Returned s' -> Inv s'.
Proof.
  intros HI. unfold start. destruct (isRunning s); [done|]. intros [= <-].
  apply Inv_suspend; [by intros i []|].
  apply Inv_saveState, Inv_out; [by intros (c & f & H)|].
  revert HI. by apply Inv_same.
Qed.

Lemma Inv_sendFollowUp taskId message s s' :
  Inv s -> sendFollowUp taskId message s = Returned s' -> Inv s'.
Proof.
  intros HI. unfold sendFollowUp.
  destruct (getTask taskId s); [|done]. destruct (truthy_string _); [|done].
  intros [= <-]. apply Inv_out; [by intros (c & f & H)|done].
Qed.

Lemma suspended_batch (k : nat) (c : Suspended) (s : State) :
  Inv s -> suspended s !! k = Some c ->
  forall i, In i (batch_of c) -> dispatchable (resume k s) (in_id i).
Proof.
  intros HI Hk i Hi. apply (inv_batch s HI c i); [|exact Hi].
  apply list_elem_of_In. by eapply list_elem_of_lookup_2.
Qed.

Lemma Inv_step (a : Action) (s s' : State) :
  Inv s -> step cfg a s = Some s' -> Inv s'.
Proof.
  intros HI. destruct a; simpl.
  - destruct (start cfg s) eqn:Hs; intros [= <-]; [by eapply Inv_start|done].
  - intros [= <-]. by apply Inv_stop.
  - destruct (sendFollowUp _ _ s) eqn:Hs; intros [= <-];
      [by eapply Inv_sendFollowUp|done].
  - destruct (suspended s !! k) as [[| |]|] eqn:Hk; try done. intros [= <-].
    apply Inv_spawnAgent_created; [|by apply Inv_resume].
    by apply (suspended_batch k _ s HI Hk).
  - destruct (suspended s !! k) as [[| |]|] eqn:Hk; try done. intros [= <-].
    apply Inv_spawnAgent_threw; [|by apply Inv_resume].
    by apply (suspended_batch k _ s HI Hk).
  - destruct (suspended s !! k) as [[| |]|] eqn:Hk; try done; intros [= <-].
    + by apply Inv_trySpawnAgents, Inv_resume.
    + apply Inv_spawnLoop; [|by apply Inv_resume].
      intros i Hi. apply (suspended_batch k _ s HI Hk). by right.
  - destruct (hasStateStore cfg); [|done].
    destruct (suspended s !! k) as [[| |]|] eqn:Hk; try done; intros [= <-].
    + by apply Inv_resume.
    + apply Inv_spawnAgent_threw; [|by apply Inv_resume].
      by apply (suspended_batch k _ s HI Hk).
  - intros [= <-]. by apply Inv_onSignal.
  - destruct (armed s !! timer); [|done]. intros [= <-].
    apply Inv_timeoutCallback. revert HI. by apply Inv_same.
Qed.

End Preservation.

(* --------------------------------------------------------------------- *)
(* The readiness scan                                                    *)
(* --------------------------------------------------------------------- *)

Section Readiness.

Variable cfg : Config.

Lemma getTask_updateReadyLoop_other (ids : list string) (id : string) (s : State) :
  ~ In id ids -> getTask id (updateReadyLoop cfg ids s) = getTask id s.
Proof.
  revert s. induction ids as [|i ids IH]; intros s Hni; [done|].
  cbn [updateReadyLoop].
  assert (~ In id ids) as Hni' by (intros H; apply Hni; by right).
  assert (id <> i) as Hne by (intros ->; apply Hni; by left).
  destruct (getTask i s) as [task|]; [|by apply IH].
  destruct (negb _); [by apply IH|]. destruct (negb _); [by apply IH|].
  rewrite IH by done. rewrite getTask_emit.
  by apply getTask_modifyTask_ne; [apply keeps_id_set_status|].
Qed.

(* What the scan does to a pending task. *)
Lemma getTask_updateReadyLoop_pending (ids : list string) (id : string)
    (s : State) (t : Task) :
  NoDup ids -> In id ids -> getTask id s = Some t -> status t = pending ->
  getTask id (updateReadyLoop cfg ids s)
  = Some (if depsComplete s t then set_status ready t else t).
Proof.
  revert s. induction ids as [|i ids IH]; intros s Hnd Hin Ht Hp; [done|].
  inversion Hnd as [|x xs Hnotin Hnd']; subst.
  rewrite list_elem_of_In in Hnotin.
  cbn [updateReadyLoop].
  destruct (String.eqb_spec i id) as [->|Hne].
  - rewrite Ht, Hp. cbn [TaskStatus_eqb negb].
    destruct (depsComplete s t) eqn:Hd; cbn [negb].
    + rewrite getTask_updateReadyLoop_other by done. rewrite getTask_emit.
      by apply getTask_modifyTask_eq; [apply keeps_id_set_status|].
    + by rewrite getTask_updateReadyLoop_other.
  - destruct Hin as [->|Hin]; [done|].
    destruct (getTask i s) as [task|]; [|by apply IH].
    destruct (negb _); [by apply IH|]. destruct (negb _); [by apply IH|].
    rewrite (IH (emit cfg (taskReady i) (modifyTask i (set_status ready) s)) Hnd' Hin).
    + by rewrite (depsComplete_ext s _ t t) by (by frame_simpl).
    + rewrite getTask_emit. rewrite getTask_modifyTask_ne; [done|apply keeps_id_set_status|done].
    + done.
Qed.

Lemma none_overdue_same (s s' : State) :
  tasks s' = tasks s -> completed_ids s' = completed_ids s ->
  none_overdue s -> none_overdue s'.
Proof.
  intros Ht Hc H t Hin Hp. rewrite Ht in Hin.
  rewrite (depsComplete_ext s s' t t Hc eq_refl). by apply H.
Qed.

Lemma none_overdue_modify (id : string) (f : Task -> Task) (s : State) :
  keeps_id f -> (forall t, status (f t) = pending -> status t = pending) ->
  none_overdue s -> none_overdue (modifyTask id f s).
Proof.
  intros Hf Hp H t' Hin Hst. simpl in Hin. apply in_map_iff in Hin.
  destruct Hin as (t & <- & Hin). destruct (has_id id t).
  - rewrite (depsComplete_ext s _ t (f t)); [|done|apply Hf]. apply H; auto.
  - rewrite (depsComplete_ext s _ t t); [|done|done]. by apply H.
Qed.

(* After the scan no pending task has all its dependencies completed. *)
Lemma none_overdue_updateReadyTasks (s : State) :
  NoDup (map task_id (tasks s)) -> none_overdue (updateReadyTasks cfg s).
Proof.
  intros Hnd t' Hin' Hp'.
  pose proof (inputs_updateReadyLoop cfg (map task_id (tasks s)) s) as Hm.
  fold (updateReadyTasks cfg s) in Hm.
  assert (NoDup (map task_id (tasks (updateReadyTasks cfg s)))) as Hnd'.
  { by rewrite (map_task_id_of_input _ _ Hm). }
  destruct (in_tasks_same_input _ _ t' Hm Hin') as (t0 & Hin0 & Hi0).
  destruct (In_getTask s t0 Hin0) as [t Ht].
  assert (task_id t0 = task_id t') as Hid by (unfold task_id; by rewrite Hi0).
  rewrite Hid in Ht.
  destruct (In_getTask _ t' Hin') as [u Hu].
  pose proof (unique_getTask _ _ u t' Hnd' Hu Hin' eq_refl) as ->.
  destruct (decide (status t = pending)) as [Hp|Hnp].
  - unfold updateReadyTasks in Hu.
    destruct (getTask_Some _ _ _ Ht) as [Hint Hidt].
    rewrite (getTask_updateReadyLoop_pending _ _ s t Hnd) in Hu;
      [|apply in_map_iff; by exists t|exact Ht|exact Hp].
    destruct (depsComplete s t) eqn:Hd; injection Hu as <-; [done|].
    rewrite <- Hd. apply depsComplete_ext; [|done].
    apply completed_ids_updateReadyTasks.
  - unfold updateReadyTasks in Hu.
    rewrite (getTask_updateReadyLoop cfg _ _ s t Ht Hnp) in Hu.
    by injection Hu as <-.
Qed.

Lemma none_overdue_markRunning id agent s :
  none_overdue s -> none_overdue (markRunning cfg id agent s).
Proof.
  intros H. unfold markRunning. destruct (getTask id s); [|done].
  eapply none_overdue_same; [apply tasks_emit|apply completed_ids_emit|].
  apply none_overdue_modify; [by intros ?|done|exact H].
Qed.

Lemma none_overdue_markFailed id err m s :
  none_overdue s -> none_overdue (markFailed cfg id err m s).
Proof.
  intros H t' Hin Hp. rewrite tasks_markFailed in Hin.
  rewrite (depsComplete_ext s _ t' t'); [|by frame_simpl|done].
  destruct (getTask id s) as [t|]; [|by apply H].
  apply in_map_iff in Hin. destruct Hin as (u & <- & Hin).
  destruct (has_id id u); [|by apply H].
  by destruct (_ <? _).
Qed.

Lemma none_overdue_markCompleted id res chk now s :
  Inv s -> none_overdue s -> none_overdue (markCompleted cfg id res chk now s).
Proof.
  intros HI H. unfold markCompleted. destruct (getTask id s); [|done].
  set (s1 := emit cfg (taskCompleted id) _).
  assert (none_overdue (updateReadyTasks cfg s1)) as H1.
  { apply none_overdue_updateReadyTasks. unfold s1. frame_simpl.
    rewrite map_map. simpl.
    erewrite map_ext; [apply (inv_unique s HI)|].
    intros u. unfold task_id. by destruct (has_id id u). }
  destruct chk; [|exact H1].
  eapply none_overdue_same; [| |exact H1]; by frame_simpl.
Qed.

Lemma none_overdue_handleAgentComplete agent target now s :
  Inv s -> none_overdue s ->
  none_overdue (handleAgentComplete cfg agent target now s).
Proof.
  intros HI H. unfold handleAgentComplete.
  destruct (truthy_string _); [|done]. cbv zeta.
  eapply none_overdue_same;
    [apply tasks_trySpawnAgents|apply completed_ids_trySpawnAgents|].
  apply none_overdue_markCompleted.
  - by apply Inv_clearTimeout, Inv_unbind.
  - eapply none_overdue_same; [| |exact H]; by frame_simpl.
Qed.

Lemma none_overdue_handleAgentFailed agent err s :
  none_overdue s -> none_overdue (handleAgentFailed cfg agent err s).
Proof.
  intros H. unfold handleAgentFailed.
  destruct (truthy_string _); [|done]. cbv zeta.
  eapply none_overdue_same;
    [apply tasks_trySpawnAgents|apply completed_ids_trySpawnAgents|].
  apply none_overdue_markFailed.
  eapply none_overdue_same; [| |exact H]; by frame_simpl.
Qed.

Lemma none_overdue_spawnAgent_threw task rest message s :
  none_overdue s -> none_overdue (spawnAgent_threw cfg task rest message s).
Proof.
  intros H. unfold spawnAgent_threw.
  eapply none_overdue_same; [apply tasks_spawnLoop|apply completed_ids_spawnLoop|].
  by apply none_overdue_markFailed.
Qed.

Lemma none_overdue_spawnAgent_created task rest agent s :
  none_overdue s -> none_overdue (spawnAgent_created cfg task rest agent s).
Proof.
  intros H. unfold spawnAgent_created. cbv zeta.
  eapply none_overdue_same;
    [| |apply (none_overdue_markRunning (in_id task) agent
                 (set_activeAgents (<[agent:=in_id task]> (activeAgents s)) s));
        exact H]; by frame_simpl.
Qed.

Lemma none_overdue_step (a : Action) (s s' : State) :
  Inv s -> none_overdue s -> step cfg a s = Some s' -> none_overdue s'.
Proof.
  intros HI H. destruct a; simpl.
  - unfold start. destruct (isRunning s); intros [= <-]; [done|].
    eapply none_overdue_same; [| |exact H]; by frame_simpl.
  - intros [= <-]. eapply none_overdue_same; [| |exact H]; apply stop_fields.
  - unfold sendFollowUp. destruct (getTask taskId s); [|by intros [= <-]].
    destruct (truthy_string _); by intros [= <-].
  - destruct (suspended s !! k) as [[| |]|]; try done. intros [= <-].
    by apply none_overdue_spawnAgent_created.
  - destruct (suspended s !! k) as [[| |]|]; try done. intros [= <-].
    by apply none_overdue_spawnAgent_threw.
  - destruct (suspended s !! k) as [[| |]|]; try done; intros [= <-];
      (eapply none_overdue_same; [| |exact H]; by frame_simpl).
  - destruct (hasStateStore cfg); [|done].
    destruct (suspended s !! k) as [[| |]|]; try done; intros [= <-]; [done|].
    by apply none_overdue_spawnAgent_threw.
  - intros [= <-]. destruct sg; simpl.
    + by apply none_overdue_handleAgentComplete.
    + by apply none_overdue_handleAgentFailed.
    + by apply none_overdue_handleAgentFailed.
    + done.
  - destruct (armed s !! timer); [|done]. intros [= <-].
    unfold timeoutCallback. simpl. destruct (activeAgents s !! _); [|done].
    by apply none_overdue_handleAgentFailed.
Qed.

End Readiness.

(* --------------------------------------------------------------------- *)
(* Loading the tasks                                                     *)
(* --------------------------------------------------------------------- *)

Lemma In_tasks_set (t : Task) (l : list Task) : In t (tasks_set t l).
Proof.
  unfold tasks_set. destruct (existsb _ l) eqn:He.
  - apply existsb_exists in He as (u & Hin & Hu).
    apply in_map_iff. exists u. by rewrite Hu.
  - apply in_or_app. right. by left.
Qed.

Lemma In_tasks_set_inv (t u : Task) (l : list Task) :
  In u (tasks_set t l) -> u = t \/ (In u l /\ task_id u <> task_id t).
Proof.
  unfold tasks_set. destruct (existsb _ l) eqn:He.
  - intros Hin. apply in_map_iff in Hin as (v & <- & Hin).
    destruct (has_id (task_id t) v) eqn:Hv; [by left|].
    right. split; [done|]. by apply has_id_false.
  - intros Hin. apply in_app_or in Hin as [Hin|[<-|[]]]; [|by left].
    right. split; [done|].
    rewrite <- not_true_iff_false in He. intros Heq. apply He.
    apply existsb_exists. exists u. split; [done|]. by apply has_id_true.
Qed.

Lemma NoDup_tasks_set (t : Task) (l : list Task) :
  NoDup (map task_id l) -> NoDup (map task_id (tasks_set t l)).
Proof.
  intros Hnd. unfold tasks_set. destruct (existsb _ l) eqn:He.
  - rewrite map_map. erewrite map_ext; [exact Hnd|].
    intros u. simpl. destruct (has_id (task_id t) u) eqn:Hu; [|done].
    symmetry. by apply has_id_true.
  - rewrite map_app. simpl. apply NoDup_app. split; [exact Hnd|].
    split; [|apply NoDup_singleton].
    intros x Hx Hx'. apply list_elem_of_singleton in Hx' as ->.
    apply list_elem_of_In, in_map_iff in Hx as (u & Hu & Hin).
    rewrite <- not_true_iff_false in He. apply He.
    apply existsb_exists. exists u. split; [done|]. by apply has_id_true.
Qed.

Lemma Idle_same (s s' : State) :
  isRunning s' = isRunning s -> activeAgents s' = activeAgents s ->
  suspended s' = suspended s -> trace s' = trace s -> Idle s -> Idle s'.
Proof.
  intros Hr Ha Hs Ht [H1 H2 H3 H4]. split; try congruence.
  intros c f. unfold announced. rewrite Ht. apply H4.
Qed.

Lemma Idle_out (o : Output) (s : State) :
  ~ is_announcement o -> Idle s -> Idle (out o s).
Proof.
  intros Ho [H1 H2 H3 H4]. split; try done.
  intros c f. unfold announced. simpl. rewrite in_app_iff.
  intros [Hin|[->|[]]]; [by eapply H4|]. apply Ho. by exists c, f.
Qed.

Section Loading.

Variable cfg : Config.

Lemma trySpawnAgents_not_running (s : State) :
  isRunning s = false -> trySpawnAgents cfg s = s.
Proof. unfold trySpawnAgents. by intros ->. Qed.

Lemma Idle_saveState s : Idle s -> Idle (saveState cfg s).
Proof.
  unfold saveState. destruct (hasStateStore cfg); [|done].
  apply Idle_out. by intros (c & f & H).
Qed.

Lemma Idle_emit (e : QueueEvent) (s : State) :
  (forall c f, e <> allComplete c f) -> Idle s -> Idle (emit cfg e s).
Proof.
  intros He HI. unfold emit.
  assert (Idle (out (Queue e) s)) as HI'.
  { apply Idle_out; [|done]. intros (c & f & [= ->]). by eapply He. }
  destruct e; simpl.
  - rewrite trySpawnAgents_not_running; [done|apply HI'].
  - done.
  - apply Idle_saveState, Idle_out; [by intros (c & f & H)|done].
  - apply Idle_out; [by intros (c & f & H)|done].
  - apply Idle_saveState, Idle_out; [by intros (c & f & H)|done].
  - by destruct (He completedIds failedIds).
Qed.

Lemma Idle_updateReadyLoop (ids : list string) (s : State) :
  Idle s -> Idle (updateReadyLoop cfg ids s).
Proof.
  revert s. induction ids as [|id ids IH]; intros s HI; [done|].
  cbn [updateReadyLoop].
  destruct (getTask id s) as [task|]; [|by apply IH].
  destruct (negb _); [by apply IH|]. destruct (negb _); [by apply IH|].
  apply IH, Idle_emit; [done|]. revert HI. by apply Idle_same.
Qed.

Lemma Idle_markCompleted_unchecked id res now s :
  Idle s -> Idle (markCompleted cfg id res false now s).
Proof.
  intros HI. unfold markCompleted. destruct (getTask id s); [|done].
  apply Idle_updateReadyLoop, Idle_emit; [done|]. revert HI. by apply Idle_same.
Qed.

Lemma Idle_Inv_tasks_set (i : TaskInput) (s : State) :
  Idle s -> Inv s ->
  Inv (set_tasks (tasks_set (mkPending i) (tasks s)) s)
  /\ Idle (set_tasks (tasks_set (mkPending i) (tasks s)) s).
Proof.
  intros HI HV. split; [|revert HI; by apply Idle_same].
  destruct HI as [H1 H2 H3 H4]. split; simpl.
  - apply NoDup_tasks_set, HV.
  - intros t Hin Hr. apply In_tasks_set_inv in Hin as [->|[Hin _]]; [done|].
    rewrite (depsComplete_ext s _ t t); [|done|done]. by apply HV.
  - intros a tid. by rewrite H2, lookup_empty.
  - intros c j. by rewrite H3.
  - intros c f Ha. by destruct (H4 c f).
Qed.

Lemma load_each (now : string) (i : TaskInput) (s : State) :
  Idle s -> Inv s ->
  Idle (addTasks_each cfg now s i) /\ Inv (addTasks_each cfg now s i).
Proof.
  intros HI HV. unfold addTasks_each. cbv zeta.
  destruct (Idle_Inv_tasks_set i s HI HV) as [HV1 HI1].
  destruct (truthy_flag _); [|done].
  split; [by apply Idle_markCompleted_unchecked|by apply Inv_markCompleted].
Qed.

Lemma load_fold (now : string) (inputs : list TaskInput) (s : State) :
  Idle s -> Inv s ->
  Idle (fold_left (addTasks_each cfg now) inputs s)
  /\ Inv (fold_left (addTasks_each cfg now) inputs s).
Proof.
  revert s. induction inputs as [|i inputs IH]; intros s HI HV; simpl; [done|].
  destruct (load_each now i s HI HV) as [HI1 HV1]. by apply IH.
Qed.

Lemma Idle_initial : Idle initial.
Proof. split; try done. intros c f []. Qed.

Lemma Inv_initial : Inv initial.
Proof. split; simpl; try done. constructor. Qed.

Lemma loaded_ok (name : string) (inputs : list TaskInput) (now : string) :
  Idle (loaded cfg name inputs now)
  /\ Inv (loaded cfg name inputs now)
  /\ none_overdue (loaded cfg name inputs now).
Proof.
  unfold loaded, loadTasks, addTasks.
  destruct (load_fold now inputs (set_templateName name initial)) as [HI HV].
  { eapply Idle_same; [| | | |apply Idle_initial]; done. }
  { eapply Inv_same; [| | | | |apply Inv_initial]; done. }
  split; [by apply Idle_updateReadyLoop|].
  split; [by apply Inv_updateReadyLoop|].
  apply none_overdue_updateReadyTasks, HV.
Qed.

Lemma run_ok (acts : list Action) (s s' : State) :
  Inv s -> none_overdue s -> run cfg acts s = Some s' ->
  Inv s' /\ none_overdue s'.
Proof.
  revert s. induction acts as [|a acts IH]; intros s HV HN; simpl.
  - by intros [= <-].
  - destruct (step cfg a s) as [s1|] eqn:Hs; [|done].
    apply IH; [by eapply Inv_step|by eapply none_overdue_step].
Qed.

Lemma reachable_ok (name : string) (inputs : list TaskInput) (now : string)
    (s : State) :
  reachable cfg name inputs now s -> Inv s /\ none_overdue s.
Proof.
  intros [acts Hrun].
  destruct (loaded_ok name inputs now) as (_ & HV & HN).
  by eapply run_ok.
Qed.

End Loading.

(** C4: the readiness scan moves a pending task to `ready` exactly when
    every id of its dependsOn is in the completed set, and leaves it pending
    otherwise; and in every state of a run every `ready` task (also one put
    back to `ready` by a retry) has all its dependencies in the completed
    set, while every `pending` task has a dependency that is not in it. *)
Theorem C4_ready_iff_dependencies_completed (cfg : Config) (name : string)
    (inputs : list TaskInput) (now : string) (s : State) :
  reachable cfg name inputs now s ->
  (forall q id t,
      NoDup (map task_id (tasks q)) -> getTask id q = Some t -> status t = pending ->
      getTask id (updateReadyTasks cfg q)
      = Some (if depsComplete q t then set_status ready t else t))
  /\ (forall t, In t (tasks s) -> status t = ready ->
        forall d, In d (dependsOn t) -> d ∈ completed_ids s)
  /\ (forall t, In t (tasks s) -> status t = pending ->
        exists d, In d (dependsOn t) /\ d ∉ completed_ids s).
Proof.
  intros Hreach. destruct (reachable_ok cfg name inputs now s Hreach) as [HV HN].
  split; [|split].
  - intros q id t Hnd Ht Hp. unfold updateReadyTasks.
    apply getTask_updateReadyLoop_pending; try done.
    apply getTask_Some in Ht as [Hin <-]. by apply in_map.
  - intros t Hin Hr. apply depsComplete_spec. by apply HV.
  - intros t Hin Hp. apply depsComplete_false. by apply HN.
Qed.

Lemma C4_witness :
  reachable cfg_one "plan" fan_out "t0" fan_out_A_completed
  /\ (forall t, In t (tasks fan_out_A_completed) -> status t = ready ->
        forall d, In d (dependsOn t) -> d ∈ completed_ids fan_out_A_completed).
Proof.
  assert (reachable cfg_one "plan" fan_out "t0" fan_out_A_completed) as Hr.
  { exists [Start; SaveResolved 0; CreateAgentResolved 0 "a1"; SaveResolved 0;
            Signalled (sig_completed "a1" None None) "t1"].
    vm_compute; reflexivity. }
  split; [exact Hr|].
  apply (C4_ready_iff_dependencies_completed cfg_one "plan" fan_out "t0"
           fan_out_A_completed Hr).
Defined.

(* --------------------------------------------------------------------- *)
(* Runs whose tasks are all pre-marked complete                          *)
(* --------------------------------------------------------------------- *)

Section Premarked.

Variable cfg : Config.

Lemma updateReadyLoop_no_pending (ids : list string) (s : State) :
  (forall t, In t (tasks s) -> status t <> pending) ->
  updateReadyLoop cfg ids s = s.
Proof.
  intros Hnp. induction ids as [|id ids IH]; [done|].
  cbn [updateReadyLoop].
  destruct (getTask id s) as [task|] eqn:Ht; [|exact IH].
  apply getTask_Some in Ht as [Hin _]. specialize (Hnp task Hin).
  destruct (status task); try exact IH. done.
Qed.

Lemma trySpawnAgents_none_ready (s : State) :
  (forall t, In t (tasks s) -> status t <> ready) -> trySpawnAgents cfg s = s.
Proof.
  intros Hnr. unfold trySpawnAgents.
  destruct (negb (isRunning s)); [done|]. destruct (_ <=? 0); [done|].
  assert (getReadyTasks s = []) as ->; [|by rewrite firstn_nil].
  destruct (getReadyTasks s) as [|t l] eqn:Hg; [done|].
  assert (In t (getReadyTasks s)) as Hin by (rewrite Hg; by left).
  apply In_getReadyTasks in Hin as [Hin Hr]. by destruct (Hnr t Hin).
Qed.

Lemma premarked_each (now : string) (i : TaskInput) (s : State) :
  truthy_flag (in_complete i) = true ->
  (forall t, In t (tasks s) -> status t = completed) ->
  forall t, In t (tasks (addTasks_each cfg now s i)) -> status t = completed.
Proof.
  intros Hc Hall. unfold addTasks_each. cbv zeta. rewrite Hc.
  set (s1 := set_tasks (tasks_set (mkPending i) (tasks s)) s).
  destruct (In_getTask s1 (mkPending i)) as [u Hu]; [apply In_tasks_set|].
  change (task_id (mkPending i)) with (in_id i) in Hu.
  unfold markCompleted. rewrite Hu.
  set (s2 := emit cfg (taskCompleted (in_id i)) _).
  assert (forall t, In t (tasks s2) -> status t = completed) as H2.
  { unfold s2. frame_simpl. intros t Hin.
    apply in_map_iff in Hin as (v & <- & Hin).
    destruct (has_id (in_id i) v) eqn:Hv; [done|].
    apply In_tasks_set_inv in Hin as [->|[Hin _]]; [|by apply Hall].
    apply has_id_false in Hv. done. }
  unfold updateReadyTasks. rewrite updateReadyLoop_no_pending; [exact H2|].
  intros t Hin. by rewrite (H2 t Hin).
Qed.

Lemma premarked_fold (now : string) (inputs : list TaskInput) (s : State) :
  Forall (fun i => truthy_flag (in_complete i) = true) inputs ->
  (forall t, In t (tasks s) -> status t = completed) ->
  forall t, In t (tasks (fold_left (addTasks_each cfg now) inputs s)) ->
            status t = completed.
Proof.
  intros Hf. revert s. induction Hf as [|i inputs Hi Hf IH]; intros s Hall; [done|].
  simpl. apply IH. by apply premarked_each.
Qed.

Lemma AllPremarked_loaded (name : string) (inputs : list TaskInput) (now : string) :
  Forall (fun i => truthy_flag (in_complete i) = true) inputs ->
  AllPremarked (loaded cfg name inputs now).
Proof.
  intros Hf. destruct (loaded_ok cfg name inputs now) as ([H1 H2 H3 H4] & _ & _).
  split; try done; [|intros c; by rewrite H3].
  unfold loaded, loadTasks, addTasks.
  pose proof (premarked_fold now inputs (set_templateName name initial) Hf) as Hall.
  unfold updateReadyTasks. rewrite updateReadyLoop_no_pending.
  - apply Hall. by intros t [].
  - intros t Hin. rewrite (Hall ltac:(by intros ? []) t Hin). done.
Qed.

Lemma AllPremarked_same (s s' : State) :
  tasks s' = tasks s -> activeAgents s' = activeAgents s ->
  suspended s' = suspended s ->
  (forall c f, announced s' c f -> announced s c f) ->
  AllPremarked s -> AllPremarked s'.
Proof.
  intros Ht Ha Hs Htr [H1 H2 H3 H4]. split.
  - by rewrite Ht.
  - by rewrite Ha.
  - by rewrite Hs.
  - intros c f H. by eapply H4, Htr.
Qed.

Lemma announced_out (o : Output) (s : State) c f :
  ~ is_announcement o -> announced (out o s) c f -> announced s c f.
Proof.
  intros Ho. unfold announced. simpl. rewrite in_app_iff.
  intros [H|[->|[]]]; [done|]. destruct Ho. by exists c, f.
Qed.

Lemma announced_saveState (s : State) c f :
  announced (saveState cfg s) c f -> announced s c f.
Proof.
  unfold saveState. destruct (hasStateStore cfg); [|done].
  apply announced_out. by intros (? & ? & ?).
Qed.

Lemma AllPremarked_trySpawnAgents (s : State) :
  AllPremarked s -> trySpawnAgents cfg s = s.
Proof.
  intros HP. apply trySpawnAgents_none_ready.
  intros t Hin. by rewrite (pre_tasks s HP t Hin).
Qed.

Lemma AllPremarked_resume (k : nat) (s : State) :
  AllPremarked s -> AllPremarked (resume k s).
Proof.
  intros [H1 H2 H3 H4]. split; try done.
  intros c Hin. apply H3. simpl in Hin.
  apply list_elem_of_In. apply list_elem_of_In in Hin.
  by eapply list_elem_of_delete_inv.
Qed.

Lemma AllPremarked_step (a : Action) (s s' : State) :
  AllPremarked s -> step cfg a s = Some s' -> AllPremarked s'.
Proof.
  intros HP. pose proof HP as [H1 H2 H3 H4]. destruct a; simpl.
  - unfold start. destruct (isRunning s); intros [= <-]; [done|].
    split; frame_simpl; try done.
    + intros c Hin. apply in_app_or in Hin as [Hin|[<-|[]]]; [by apply H3|done].
    + intros c f Ha. apply (H4 c f).
      unfold announced in *. simpl in Ha.
      apply announced_saveState in Ha.
      revert Ha. apply announced_out. by intros (? & ? & ?).
  - intros [= <-]. unfold stop. cbv zeta.
    replace (activeAgents (clearAllTimeouts
               (out (Client stopAllMonitoring) (set_isRunning false s))))
      with (activeAgents s) by done.
    rewrite H2, map_to_list_empty. simpl.
    split; simpl; try done.
    intros c f Ha. apply (H4 c f). unfold announced in *. simpl in Ha.
    rewrite !in_app_iff in Ha. simpl in Ha.
    destruct Ha as [[Ha|[Ha|[]]]|[Ha|[]]]; done.
  - unfold sendFollowUp. destruct (getTask taskId s); [|by intros [= <-]].
    destruct (truthy_string _); intros [= <-]; [|done].
    revert HP. apply AllPremarked_same; try done.
    intros c f. apply announced_out. by intros (? & ? & ?).
  - destruct (suspended s !! k) as [c|] eqn:Hk; [|done].
    assert (c = StartAwaitSave) as ->; [|done].
    apply H3, list_elem_of_In. by eapply list_elem_of_lookup_2.
  - destruct (suspended s !! k) as [c|] eqn:Hk; [|done].
    assert (c = StartAwaitSave) as ->; [|done].
    apply H3, list_elem_of_In. by eapply list_elem_of_lookup_2.
  - destruct (suspended s !! k) as [c|] eqn:Hk; [|done].
    assert (c = StartAwaitSave) as ->.
    { apply H3, list_elem_of_In. by eapply list_elem_of_lookup_2. }
    intros [= <-]. rewrite AllPremarked_trySpawnAgents; by apply AllPremarked_resume.
  - destruct (hasStateStore cfg); [|done].
    destruct (suspended s !! k) as [c|] eqn:Hk; [|done].
    assert (c = StartAwaitSave) as ->.
    { apply H3, list_elem_of_In. by eapply list_elem_of_lookup_2. }
    intros [= <-]. by apply AllPremarked_resume.
  - intros [= <-].
    assert (forall agent, truthy_string (activeAgents s !! agent) = None) as Hn.
    { intros agent. by rewrite H2, lookup_empty. }
    destruct sg; simpl.
    + by rewrite handleAgentComplete_unbound.
    + by rewrite handleAgentFailed_unbound.
    + by rewrite handleAgentFailed_unbound.
    + done.
  - destruct (armed s !! timer); [|done]. intros [= <-].
    unfold timeoutCallback. simpl. rewrite H2, lookup_empty.
    revert HP. by apply AllPremarked_same.
Qed.

Lemma AllPremarked_run (acts : list Action) (s s' : State) :
  AllPremarked s -> run cfg acts s = Some s' -> AllPremarked s'.
Proof.
  revert s. induction acts as [|a acts IH]; intros s HP; simpl.
  - by intros [= <-].
  - destruct (step cfg a s) as [s1|] eqn:Hs; [|done].
    apply IH. by eapply AllPremarked_step.
Qed.

Lemma checkAllComplete_announces (q : State) c f :
  announced (checkAllComplete cfg q) c f -> ~ announced q c f ->
  forall t, In t (tasks q) -> status t = completed \/ status t = failed.
Proof.
  unfold checkAllComplete.
  destruct (forallb is_terminal (tasks q)) eqn:Hall; [|done].
  intros _ _ t Hin. rewrite forallb_forall in Hall. specialize (Hall t Hin).
  unfold is_terminal in Hall. destruct (status t); simpl in Hall; auto; done.
Qed.

End Premarked.

(** C3 (as stated, refuted): in the run whose two tasks are both loaded
    pre-marked complete every task is `completed` from the start, and no
    sequence of steps ever emits allComplete: it is emitted zero times, not
    once. *)
Lemma C3_all_premarked_run_never_announces :
  Forall (fun t => status t = completed) (tasks (loaded cfg_one "plan" all_done "t0"))
  /\ ~ (exists acts s c f,
          run cfg_one acts (loaded cfg_one "plan" all_done "t0") = Some s
          /\ announced s c f).
Proof.
  split; [vm_compute; repeat constructor|].
  intros (acts & s & c & f & Hrun & Ha).
  assert (AllPremarked (loaded cfg_one "plan" all_done "t0")) as HP.
  { apply AllPremarked_loaded. repeat constructor. }
  eapply pre_trace; [|exact Ha]. by eapply AllPremarked_run.
Qed.

(* The defect of C1 also lets the signal be emitted twice: B is dispatched
   twice, and each of its two agents completes. *)
Lemma allComplete_emitted_twice :
  exists s,
    run cfg_one chain_B_twice (loaded cfg_one "plan" chain "t0") = Some s
    /\ List.filter (fun o => match o with
                             | Queue (allComplete _ _) => true
                             | _ => false
                             end) (trace s)
       = [Queue (allComplete ["A"; "B"] []); Queue (allComplete ["A"; "B"] [])].
Proof. eexists. split; vm_compute; reflexivity. Qed.

(* ===================================================================== *)
(* Further properties of the task queue                                  *)
(* ===================================================================== *)

(* --------------------------------------------------------------------- *)
(* getStatus and getResults                                              *)
(* --------------------------------------------------------------------- *)

Lemma with_status_counts (l : list Task) :
  (length (with_status pending l) + length (with_status ready l)
   + length (with_status running l) + length (with_status completed l)
   + length (with_status failed l) = length l)%nat.
Proof.
  unfold with_status. induction l as [|t l IH]; simpl; [done|].
  destruct (status t); simpl; lia.
Qed.

(** X1: the five per-status counts of getStatus() add up to its `total`:
    every task of the table is counted under exactly one status. *)
Theorem getStatus_counts_add_up (s : State) :
  (n_pending (getStatus s) + n_ready (getStatus s) + n_running (getStatus s)
   + n_completed (getStatus s) + n_failed (getStatus s)
   = n_total (getStatus s))%nat.
Proof. unfold getStatus. simpl. apply with_status_counts. Qed.

Lemma In_with_status (v : TaskStatus) (l : list Task) (t : Task) :
  In t (with_status v l) <-> In t l /\ status t = v.
Proof.
  unfold with_status. rewrite filter_In.
  split; intros [Hin Hs]; (split; [done|]).
  - destruct (status t), v; simpl in Hs; congruence.
  - rewrite Hs. by destruct v.
Qed.

Lemma getResults_terminal_perm (l : list Task) :
  Permutation (with_status completed l ++ with_status failed l)
              (List.filter is_terminal l).
Proof.
  unfold with_status, is_terminal. induction l as [|t l IH]; simpl; [done|].
  destruct (status t); simpl; try exact IH.
  - by constructor.
  - rewrite <- Permutation_middle. by constructor.
Qed.

(** X2: getResults() puts a task in `completed` exactly when its status is
    completed and in `failed` exactly when it is failed, so no task is in
    both; the two lists together are a rearrangement of the terminal tasks
    of the table, and of the whole table once every task is terminal. *)
Theorem getResults_partitions_terminal_tasks (s : State) :
  (forall t, In t (fst (getResults s)) <-> In t (tasks s) /\ status t = completed)
  /\ (forall t, In t (snd (getResults s)) <-> In t (tasks s) /\ status t = failed)
  /\ Permutation (fst (getResults s) ++ snd (getResults s))
                 (List.filter is_terminal (tasks s))
  /\ (forallb is_terminal (tasks s) = true ->
      Permutation (fst (getResults s) ++ snd (getResults s)) (tasks s)).
Proof.
  unfold getResults. simpl. split; [|split; [|split]].
  - intros t. apply In_with_status.
  - intros t. apply In_with_status.
  - apply getResults_terminal_perm.
  - intros Hall. rewrite getResults_terminal_perm.
    induction (tasks s) as [|t l IH]; simpl in *; [done|].
    apply andb_true_iff in Hall as [-> Hl]. constructor. by apply IH.
Qed.

(* --------------------------------------------------------------------- *)
(* The readiness scan run twice                                          *)
(* --------------------------------------------------------------------- *)

Section Scan.

Variable cfg : Config.

Lemma updateReadyLoop_none_overdue (ids : list string) (s : State) :
  none_overdue s -> updateReadyLoop cfg ids s = s.
Proof.
  intros Hno. induction ids as [|id ids IH]; [done|].
  cbn [updateReadyLoop].
  destruct (getTask id s) as [task|] eqn:Ht; [|exact IH].
  apply getTask_Some in Ht as [Hin _].
  destruct (status task) eqn:Hst; try exact IH.
  cbn [TaskStatus_eqb negb]. by rewrite (Hno task Hin Hst).
Qed.

Lemma ids_updateReadyTasks (s : State) :
  map task_id (tasks (updateReadyTasks cfg s)) = map task_id (tasks s).
Proof. apply map_task_id_of_input, inputs_updateReadyLoop. Qed.

Lemma updateReadyTasks_twice (s : State) :
  NoDup (map task_id (tasks s)) ->
  updateReadyTasks cfg (updateReadyTasks cfg s) = updateReadyTasks cfg s.
Proof.
  intros Hnd. unfold updateReadyTasks at 1.
  apply updateReadyLoop_none_overdue.
  by apply none_overdue_updateReadyTasks.
Qed.

End Scan.

(** X3: the readiness scan is idempotent: when the ids of the table are
    distinct, running updateReadyTasks a second time changes no task and
    emits no further taskReady event (the whole state, trace included, is
    the same). *)
Theorem updateReadyTasks_idempotent (cfg : Config) (s : State) :
  NoDup (map task_id (tasks s)) ->
  updateReadyTasks cfg (updateReadyTasks cfg s) = updateReadyTasks cfg s.
Proof. apply updateReadyTasks_twice. Qed.

Lemma updateReadyTasks_idempotent_witness :
  NoDup (map task_id (tasks fan_out_A_completed))
  /\ updateReadyTasks cfg_one (updateReadyTasks cfg_one fan_out_A_completed)
     = updateReadyTasks cfg_one fan_out_A_completed.
Proof.
  assert (NoDup (map task_id (tasks fan_out_A_completed))) as Hnd.
  { apply (bool_decide_unpack _). vm_compute. exact I. }
  split; [exact Hnd|].
  apply (updateReadyTasks_idempotent cfg_one fan_out_A_completed Hnd).
Defined.

(* --------------------------------------------------------------------- *)
(* addTask and addTasks                                                  *)
(* --------------------------------------------------------------------- *)

Lemma find_app {A : Type} (f : A -> bool) (l1 l2 : list A) :
  List.find f (l1 ++ l2)
  = match List.find f l1 with
    | Some x => Some x
    | None => List.find f l2
    end.
Proof.
  induction l1 as [|a l1 IH]; simpl; [done|]. by destruct (f a).
Qed.

Lemma find_replace_other (id : string) (t : Task) (l : list Task) :
  has_id id t = false ->
  List.find (has_id id) (map (fun u => if has_id (task_id t) u then t else u) l)
  = List.find (has_id id) l.
Proof.
  intros Ht. induction l as [|u l IH]; simpl; [done|].
  destruct (has_id (task_id t) u) eqn:Hu.
  - rewrite Ht. apply has_id_true in Hu.
    assert (has_id id u = false) as ->; [|exact IH].
    apply has_id_false. apply has_id_false in Ht. congruence.
  - destruct (has_id id u); [done|exact IH].
Qed.

Lemma find_replace_same (t : Task) (l : list Task) :
  existsb (has_id (task_id t)) l = true ->
  List.find (has_id (task_id t))
            (map (fun u => if has_id (task_id t) u then t else u) l)
  = Some t.
Proof.
  induction l as [|u l IH]; simpl; [done|].
  destruct (has_id (task_id t) u) eqn:Hu; simpl.
  - intros _. unfold has_id. by rewrite String.eqb_refl.
  - intros He. rewrite Hu. by apply IH.
Qed.

Lemma find_tasks_set (id : string) (t : Task) (l : list Task) :
  List.find (has_id id) (tasks_set t l)
  = if has_id id t then Some t else List.find (has_id id) l.
Proof.
  unfold tasks_set. destruct (existsb (has_id (task_id t)) l) eqn:He.
  - destruct (has_id id t) eqn:Ht.
    + apply has_id_true in Ht. subst id. by apply find_replace_same.
    + by apply find_replace_other.
  - rewrite find_app. simpl.
    destruct (has_id id t) eqn:Ht.
    + apply has_id_true in Ht. subst id.
      destruct (List.find (has_id (task_id t)) l) as [u|] eqn:Hf; [|done].
      apply find_some in Hf as [Hin Hu].
      rewrite <- not_true_iff_false in He. destruct He.
      apply existsb_exists. eauto.
    + by destruct (List.find (has_id id) l).
Qed.

Lemma find_same_inputs (id : string) (l l' : list Task) :
  map input l' = map input l ->
  option_map input (List.find (has_id id) l')
  = option_map input (List.find (has_id id) l).
Proof.
  revert l'. induction l as [|t l IH]; intros [|t' l']; simpl; try done.
  intros [= Hi Hl]. unfold has_id, task_id. rewrite Hi.
  destruct (String.eqb (in_id (input t)) id); simpl; [by rewrite Hi|].
  by apply IH.
Qed.

Section AddTasks.

Variable cfg : Config.

Lemma inputs_markCompleted id res chk now s :
  map input (tasks (markCompleted cfg id res chk now s)) = map input (tasks s).
Proof.
  unfold markCompleted. destruct (getTask id s); [|done].
  assert (forall q, map input (tasks (updateReadyTasks cfg q)) = map input (tasks q))
    as Hu by (intros q; apply inputs_updateReadyLoop).
  destruct chk; frame_simpl; rewrite Hu; frame_simpl;
    rewrite map_map; apply map_ext; intros u; by destruct (has_id id u).
Qed.

Lemma inputs_addTasks_each now s i :
  map input (tasks (addTasks_each cfg now s i))
  = map input (tasks_set (mkPending i) (tasks s)).
Proof.
  unfold addTasks_each. cbv zeta. destruct (truthy_flag _); [|done].
  by rewrite inputs_markCompleted.
Qed.

(* the table as a map from ids to inputs, after one more input *)
Lemma lookup_addTasks_each now s i id :
  option_map input (getTask id (addTasks_each cfg now s i))
  = if String.eqb (in_id i) id then Some i else option_map input (getTask id s).
Proof.
  unfold getTask.
  rewrite (find_same_inputs id (tasks_set (mkPending i) (tasks s)))
    by apply inputs_addTasks_each.
  rewrite find_tasks_set. unfold has_id at 1. simpl.
  change (task_id (mkPending i)) with (in_id i).
  by destruct (String.eqb (in_id i) id).
Qed.

Lemma lookup_fold now (inputs : list TaskInput) s id :
  option_map input (getTask id (fold_left (addTasks_each cfg now) inputs s))
  = match List.find (fun i => String.eqb (in_id i) id) (rev inputs) with
    | Some i => Some i
    | None => option_map input (getTask id s)
    end.
Proof.
  revert s. induction inputs as [|i inputs IH]; intros s; simpl; [done|].
  rewrite IH, find_app. simpl.
  destruct (List.find _ (rev inputs)); [done|].
  rewrite lookup_addTasks_each. by destruct (String.eqb (in_id i) id).
Qed.

Lemma getTask_updateReadyTasks_input id s :
  option_map input (getTask id (updateReadyTasks cfg s))
  = option_map input (getTask id s).
Proof. apply find_same_inputs, inputs_updateReadyLoop. Qed.

Lemma lookup_loaded name (inputs : list TaskInput) now id :
  option_map input (getTask id (loaded cfg name inputs now))
  = List.find (fun i => String.eqb (in_id i) id) (rev inputs).
Proof.
  unfold loaded, loadTasks, addTasks.
  rewrite getTask_updateReadyTasks_input, lookup_fold. simpl.
  by destruct (List.find _ (rev inputs)).
Qed.

Lemma append_fold now (inputs : list TaskInput) s :
  NoDup (map in_id inputs) ->
  (forall i, In i inputs -> ~ In (in_id i) (map task_id (tasks s))) ->
  map input (tasks (fold_left (addTasks_each cfg now) inputs s))
  = map input (tasks s) ++ inputs.
Proof.
  revert s. induction inputs as [|i inputs IH]; intros s Hnd Hfresh; simpl.
  - by rewrite app_nil_r.
  - inversion Hnd as [|x xs Hni Hnd']; subst.
    assert (map input (tasks (addTasks_each cfg now s i))
            = map input (tasks s) ++ [i]) as Hstep.
    { rewrite inputs_addTasks_each. unfold tasks_set.
      destruct (existsb _ (tasks s)) eqn:He.
      - apply existsb_exists in He as (u & Hin & Hu).
        apply has_id_true in Hu. destruct (Hfresh i); [by left|].
        change (task_id (mkPending i)) with (in_id i) in Hu.
        rewrite <- Hu. by apply in_map.
      - by rewrite map_app. }
    rewrite IH; [by rewrite Hstep, <- app_assoc|done|].
    intros j Hj Hin. unfold task_id in Hin.
    rewrite <- (map_map input in_id) in Hin. rewrite Hstep in Hin.
    rewrite map_app, map_map in Hin. apply in_app_or in Hin as [Hin|[Heq|[]]].
    + apply (Hfresh j); [by right|done].
    + apply Hni. apply list_elem_of_In. rewrite Heq. by apply in_map.
Qed.

Lemma addTask_as_batch (i : TaskInput) now s :
  NoDup (map task_id (tasks s)) ->
  addTask cfg i now s = addTasks cfg [i] now s.
Proof.
  intros Hnd. unfold addTask, addTasks, addTasks_each. cbn [fold_left]. cbv zeta.
  destruct (truthy_flag (in_complete i)); [|done].
  set (s1 := set_tasks (tasks_set (mkPending i) (tasks s)) s).
  destruct (In_getTask s1 (mkPending i)) as [u Hu]; [apply In_tasks_set|].
  change (task_id (mkPending i)) with (in_id i) in Hu.
  unfold markCompleted. rewrite Hu. cbv zeta.
  symmetry. apply updateReadyTasks_twice. frame_simpl.
  rewrite map_map.
  erewrite map_ext; [apply (NoDup_tasks_set (mkPending i)), Hnd|].
  intros v. simpl. by destruct (has_id (in_id i) v).
Qed.

End AddTasks.

(** X4: addTask(input) does what addTasks([input]) does: on a table with
    distinct ids the two leave the same state, events included (the extra
    readiness scan of addTasks after a pre-marked task finds nothing to
    do). *)
Theorem addTask_is_addTasks_of_one (cfg : Config) (i : TaskInput) (now : string)
    (s : State) :
  NoDup (map task_id (tasks s)) ->
  addTask cfg i now s = addTasks cfg [i] now s.
Proof. apply addTask_as_batch. Qed.

Lemma addTask_is_addTasks_of_one_witness :
  NoDup (map task_id (tasks (loaded cfg_one "plan" fan_out "t0")))
  /\ addTask cfg_one (sampleTask "D" ["A"] 5 None (Some true)) "t1"
       (loaded cfg_one "plan" fan_out "t0")
     = addTasks cfg_one [sampleTask "D" ["A"] 5 None (Some true)] "t1"
         (loaded cfg_one "plan" fan_out "t0").
Proof.
  assert (NoDup (map task_id (tasks (loaded cfg_one "plan" fan_out "t0")))) as Hnd.
  { apply (bool_decide_unpack _). vm_compute. exact I. }
  split; [exact Hnd|].
  apply (addTask_is_addTasks_of_one cfg_one _ "t1" _ Hnd).
Defined.

Lemma loaded_lookup (cfg : Config) (name : string)
    (inputs : list TaskInput) (now : string) :
  NoDup (map task_id (tasks (loaded cfg name inputs now)))
  /\ (forall id, is_Some (getTask id (loaded cfg name inputs now))
                 <-> In id (map in_id inputs))
  /\ (forall id, option_map input (getTask id (loaded cfg name inputs now))
                 = List.find (fun i => String.eqb (in_id i) id) (rev inputs))
  /\ (NoDup (map in_id inputs) ->
      map input (tasks (loaded cfg name inputs now)) = inputs).
Proof.
  split; [|split; [|split]].
  - apply (loaded_ok cfg name inputs now).
  - intros id.
    pose proof (lookup_loaded cfg name inputs now id) as Hl.
    split.
    + intros [t Ht]. rewrite Ht in Hl. simpl in Hl. symmetry in Hl.
      apply find_some in Hl as [Hin Hid]. apply String.eqb_eq in Hid.
      rewrite <- Hid. apply in_map. by apply in_rev.
    + intros Hin. apply in_map_iff in Hin as (i & <- & Hin).
      destruct (getTask (in_id i) (loaded cfg name inputs now)); [done|].
      simpl in Hl. symmetry in Hl.
      eapply find_none in Hl; [|apply in_rev; by rewrite rev_involutive].
      by rewrite String.eqb_refl in Hl.
  - apply lookup_loaded.
  - intros Hnd. unfold loaded, loadTasks, addTasks, updateReadyTasks.
    rewrite inputs_updateReadyLoop.
    rewrite append_fold; [done|done|]. by intros i _ [].
Qed.

(** X5: after loadTasks on a fresh orchestrator the table has one entry per
    distinct id of the input list; getTask(id) finds an entry exactly for
    the ids of the list, and the entry holds the fields of the last input
    with that id (a duplicate id overwrites silently); when the ids of the
    list are distinct the table lists the inputs in load order. *)
Theorem loadTasks_lookup (cfg : Config) (name : string)
    (inputs : list TaskInput) (now : string) :
  NoDup (map task_id (tasks (loaded cfg name inputs now)))
  /\ (forall id, is_Some (getTask id (loaded cfg name inputs now))
                 <-> In id (map in_id inputs))
  /\ (forall id, option_map input (getTask id (loaded cfg name inputs now))
                 = List.find (fun i => String.eqb (in_id i) id) (rev inputs))
  /\ (NoDup (map in_id inputs) ->
      map input (tasks (loaded cfg name inputs now)) = inputs).
Proof. apply loaded_lookup. Qed.


Lemma loadTasks_lookup_witness :
  NoDup (map in_id fan_out)
  /\ map input (tasks (loaded cfg_one "plan" fan_out "t0")) = fan_out.
Proof.
  assert (NoDup (map in_id fan_out)) as Hnd.
  { apply (bool_decide_unpack _). vm_compute. exact I. }
  split; [exact Hnd|].
  apply (loadTasks_lookup cfg_one "plan" fan_out "t0"). exact Hnd.
Defined.

(* --------------------------------------------------------------------- *)
(* The statuses after loading                                            *)
(* --------------------------------------------------------------------- *)

Section LoadStatus.

Variable cfg : Config.

(* The scan only turns pending tasks into ready ones. *)
Lemma updateReadyLoop_In (ids : list string) (s : State) (t' : Task) :
  NoDup (map task_id (tasks s)) ->
  In t' (tasks (updateReadyLoop cfg ids s)) ->
  In t' (tasks s)
  \/ exists t, In t (tasks s) /\ status t = pending /\ t' = set_status ready t.
Proof.
  revert s. induction ids as [|id ids IH]; intros s Hnd Hin; [by left|].
  cbn [updateReadyLoop] in Hin.
  destruct (getTask id s) as [task|] eqn:Ht; [|by apply IH].
  destruct (status task) eqn:Hst; cbn [TaskStatus_eqb negb] in Hin;
    try (by apply IH).
  destruct (depsComplete s task); cbn [negb] in Hin; [|by apply IH].
  set (s1 := emit cfg (taskReady id) (modifyTask id (set_status ready) s)) in Hin.
  assert (tasks s1 = map (fun u => if has_id id u then set_status ready u else u)
                         (tasks s)) as Ht1 by (unfold s1; by frame_simpl).
  assert (forall u, In u (tasks s1) ->
            In u (tasks s) \/ (u = set_status ready task /\ In task (tasks s))) as H1.
  { intros u Hu. rewrite Ht1 in Hu. apply in_map_iff in Hu as (v & <- & Hv).
    destruct (has_id id v) eqn:Hid; [|by left].
    apply has_id_true in Hid.
    rewrite (unique_getTask s id task v Hnd Ht Hv Hid). right.
    split; [done|]. by apply getTask_Some in Ht as [? _]. }
  assert (NoDup (map task_id (tasks s1))) as Hnd1.
  { rewrite Ht1, map_map. erewrite map_ext; [exact Hnd|].
    intros u. by destruct (has_id id u). }
  destruct (IH s1 Hnd1 Hin) as [Hin1|(t1 & Hin1 & Hp1 & ->)].
  - destruct (H1 t' Hin1) as [?|[-> Hin0]]; [by left|]. right. eauto.
  - destruct (H1 t1 Hin1) as [?|[-> Hin0]]; [|done]. right. eauto.
Qed.

Lemma load_shape_same (s s' : State) :
  tasks s' = tasks s -> completed_ids s' = completed_ids s ->
  load_shape s -> load_shape s'.
Proof. unfold load_shape. by intros -> ->. Qed.

Lemma load_shape_updateReadyTasks (s : State) :
  NoDup (map task_id (tasks s)) -> load_shape s ->
  load_shape (updateReadyTasks cfg s).
Proof.
  intros Hnd Hs t' Hin. frame_simpl.
  destruct (updateReadyLoop_In _ s t' Hnd Hin) as [Hin0|(t & Hin0 & Hp & ->)];
    [by apply Hs|].
  specialize (Hs t Hin0). destruct Hs as (Ha & Hg & He & Hc).
  simpl. repeat split; try done.
  unfold complete in *. simpl.
  destruct (truthy_flag (in_complete (input t))).
  - destruct Hc as (Hc & _). congruence.
  - split; [by right|apply Hc].
Qed.

Lemma load_shape_addTasks_each now (s : State) (i : TaskInput) :
  NoDup (map task_id (tasks s)) -> load_shape s ->
  load_shape (addTasks_each cfg now s i).
Proof.
  intros Hnd Hs. unfold addTasks_each. cbv zeta.
  set (s1 := set_tasks (tasks_set (mkPending i) (tasks s)) s).
  destruct (truthy_flag (in_complete i)) eqn:Hflag.
  - destruct (In_getTask s1 (mkPending i)) as [u Hu]; [apply In_tasks_set|].
    change (task_id (mkPending i)) with (in_id i) in Hu.
    unfold markCompleted. rewrite Hu.
    apply load_shape_updateReadyTasks.
    + frame_simpl. rewrite map_map.
      erewrite map_ext; [apply (NoDup_tasks_set (mkPending i)), Hnd|].
      intros v. simpl. by destruct (has_id (in_id i) v).
    + intros t' Hin. rewrite tasks_emit in Hin. simpl in Hin. frame_simpl.
      apply in_map_iff in Hin as (v & <- & Hv).
      apply In_tasks_set_inv in Hv as [->|[Hv Hne]].
      * unfold has_id. change (task_id (mkPending i)) with (in_id i).
        rewrite String.eqb_refl. unfold complete. simpl. rewrite Hflag.
        repeat split; try done. set_solver.
      * assert (has_id (in_id i) v = false) as -> by (by apply has_id_false).
        specialize (Hs v Hv). destruct Hs as (Ha & Hg & He & Hc).
        repeat split; try done.
        destruct (truthy_flag (complete v)); [|done].
        destruct Hc as (? & ? & ?). repeat split; try done. set_solver.
  - intros t' Hin. simpl in Hin.
    apply In_tasks_set_inv in Hin as [->|[Hv _]]; [|by apply Hs].
    unfold complete. simpl. rewrite Hflag. repeat split; try done. by left.
Qed.

Lemma ids_addTasks_each now (s : State) (i : TaskInput) :
  NoDup (map task_id (tasks s)) ->
  NoDup (map task_id (tasks (addTasks_each cfg now s i))).
Proof.
  intros Hnd. unfold task_id. rewrite <- (map_map input in_id).
  rewrite inputs_addTasks_each, map_map.
  apply (NoDup_tasks_set (mkPending i)), Hnd.
Qed.

Lemma completed_ids_addTasks_each now (s : State) (i : TaskInput) :
  completed_ids (addTasks_each cfg now s i)
  = if truthy_flag (in_complete i) then {[in_id i]} ∪ completed_ids s
    else completed_ids s.
Proof.
  unfold addTasks_each. cbv zeta.
  set (s1 := set_tasks (tasks_set (mkPending i) (tasks s)) s).
  destruct (truthy_flag (in_complete i)); [|done].
  destruct (In_getTask s1 (mkPending i)) as [u Hu]; [apply In_tasks_set|].
  change (task_id (mkPending i)) with (in_id i) in Hu.
  unfold markCompleted. rewrite Hu. by frame_simpl.
Qed.

Lemma load_fold_shape now (inputs : list TaskInput) (s : State) :
  NoDup (map task_id (tasks s)) -> load_shape s ->
  let s' := fold_left (addTasks_each cfg now) inputs s in
  NoDup (map task_id (tasks s')) /\ load_shape s'
  /\ forall d, d ∈ completed_ids s'
               <-> d ∈ completed_ids s
                   \/ exists i, In i inputs /\ in_id i = d /\ premarked i.
Proof.
  revert s. induction inputs as [|i inputs IH]; intros s Hnd Hs; simpl.
  - split; [done|]. split; [done|]. intros d. split; [by left|].
    by intros [?|(i & [] & _)].
  - destruct (IH (addTasks_each cfg now s i)) as (H1 & H2 & H3);
      [by apply ids_addTasks_each|by apply load_shape_addTasks_each|].
    split; [done|]. split; [done|]. intros d. rewrite H3.
    rewrite completed_ids_addTasks_each. unfold premarked.
    destruct (truthy_flag (in_complete i)) eqn:Hflag.
    + rewrite elem_of_union, elem_of_singleton. split.
      * intros [[->|?]|(j & Hj & ? & ?)]; [right|by left|right].
        -- exists i. split; [by left|done].
        -- exists j. split; [by right|done].
      * intros [?|(j & [<-|Hj] & Hd & Hp)]; [left; by right|left; by left|right].
        exists j. done.
    + split.
      * intros [?|(j & Hj & ? & ?)]; [by left|right].
        exists j. split; [by right|done].
      * intros [?|(j & [<-|Hj] & Hd & Hp)]; [by left|congruence|right].
        exists j. done.
Qed.

Lemma loaded_shape name (inputs : list TaskInput) now :
  load_shape (loaded cfg name inputs now)
  /\ forall d, d ∈ completed_ids (loaded cfg name inputs now)
               <-> exists i, In i inputs /\ in_id i = d /\ premarked i.
Proof.
  unfold loaded, loadTasks, addTasks.
  destruct (load_fold_shape now inputs (set_templateName name initial))
    as (H1 & H2 & H3); [constructor|by intros t []|].
  split; [by apply load_shape_updateReadyTasks|].
  intros d. frame_simpl. rewrite H3. split; [|by right].
  intros [Hd|?]; [|done]. set_solver.
Qed.

End LoadStatus.

(** X6: right after loadTasks on a fresh orchestrator every task has
    attempts 0 and neither agentId nor error; a pre-marked task is
    `completed` with a result; any other task is `ready` when every id of
    its dependsOn is the id of some pre-marked input of the list (also of one
    overwritten by a later duplicate), and `pending` otherwise. *)
Theorem loadTasks_statuses (cfg : Config) (name : string)
    (inputs : list TaskInput) (now : string) (t : Task) :
  In t (tasks (loaded cfg name inputs now)) ->
  attempts t = 0 /\ agentId t = None /\ error t = None
  /\ (truthy_flag (complete t) = true -> status t = completed /\ is_Some (result t))
  /\ (truthy_flag (complete t) = false ->
      (status t = ready \/ status t = pending)
      /\ (status t = ready
          <-> forall d, In d (dependsOn t) ->
                exists i, In i inputs /\ in_id i = d /\ premarked i)).
Proof.
  intros Hin.
  destruct (loaded_shape cfg name inputs now) as [Hshape Hdone].
  destruct (loaded_ok cfg name inputs now) as (_ & HV & HN).
  destruct (Hshape t Hin) as (Ha & Hg & He & Hc).
  split; [done|]. split; [done|]. split; [done|]. split.
  - intros Hf. rewrite Hf in Hc. split; apply Hc.
  - intros Hf. rewrite Hf in Hc. destruct Hc as [Hst _].
    split; [tauto|]. split.
    + intros Hr d Hd. apply Hdone.
      by apply (proj1 (depsComplete_spec _ t) (inv_ready _ HV t Hin Hr)).
    + intros Hdeps. destruct Hst as [Hp|Hr]; [|done].
      pose proof (HN t Hin Hp) as Hno.
      assert (depsComplete (loaded cfg name inputs now) t = true) as Hyes.
      { apply depsComplete_spec. intros d Hd. apply Hdone. by apply Hdeps. }
      congruence.
Qed.

Lemma loadTasks_statuses_witness :
  In (mkPending (sampleTask "B" ["A"] 0 None None))
     (tasks (loaded cfg_one "plan" fan_out "t0"))
  /\ attempts (mkPending (sampleTask "B" ["A"] 0 None None)) = 0.
Proof.
  assert (In (mkPending (sampleTask "B" ["A"] 0 None None))
             (tasks (loaded cfg_one "plan" fan_out "t0"))) as Hin.
  { vm_compute. right. by left. }
  split; [exact Hin|].
  apply (loadTasks_statuses cfg_one "plan" fan_out "t0" _ Hin).
Defined.

(* --------------------------------------------------------------------- *)
(* How a task changes in the course of a run                             *)
(* --------------------------------------------------------------------- *)

Lemma task_tr_mono (c c' : gset string) (t t' : Task) :
  c ⊆ c' -> task_tr c t t' -> task_tr c' t t'.
Proof.
  intros Hsub. induction 1; try (by constructor).
  - constructor. set_solver.
  - by eapply tr_trans.
Qed.

Lemma task_tr_input c t t' : task_tr c t t' -> input t' = input t.
Proof. induction 1; simpl; congruence. Qed.

Lemma task_tr_attempts c t t' : task_tr c t t' -> attempts t <= attempts t'.
Proof. induction 1; simpl; lia. Qed.

Lemma task_tr_kept c t t' :
  task_tr c t t' ->
  (is_Some (agentId t) -> is_Some (agentId t'))
  /\ (is_Some (result t) -> is_Some (result t'))
  /\ (is_Some (error t) -> is_Some (error t')).
Proof. induction 1; simpl; try tauto; repeat split; eauto. Qed.

Lemma task_tr_ok c t t' : task_tr c t t' -> task_ok c t -> task_ok c t'.
Proof.
  induction 1 as [t|t|t a|t r Hc|t e|t He|t1 t2 t3 _ IH1 _ IH2];
    intros Hok; [exact Hok| | | | | |by auto];
    destruct Hok as [H1 H2 H3 H4 H5 H6]; split; simpl;
    try done; try lia; try (intros; discriminate).
  all: try (split; [intros; lia|eauto]).
  all: try (intros _; split; [done|eauto]).
  all: eauto.
Qed.

Lemma task_ok_mono (c c' : gset string) (t : Task) :
  c ⊆ c' -> task_ok c t -> task_ok c' t.
Proof.
  intros Hsub [H1 H2 H3 H4 H5 H6]. split; try done.
  intros Hc. destruct (H3 Hc) as [Hin ?].
  split; [by eapply elem_of_weaken|done].
Qed.

Lemma Forall2_diag {A : Type} (R : A -> A -> Prop) (l : list A) :
  (forall x, R x x) -> Forall2 R l l.
Proof. intros H. induction l; constructor; auto. Qed.

Lemma Forall2_map_self {A : Type} (R : A -> A -> Prop) (g : A -> A) (l : list A) :
  (forall x, In x l -> R x (g x)) -> Forall2 R l (map g l).
Proof.
  induction l as [|a l IH]; simpl; intros H; constructor.
  - apply H. by left.
  - apply IH. intros x Hx. apply H. by right.
Qed.

Lemma Forall2_compose {A : Type} (R1 R2 R3 : A -> A -> Prop) (l1 l2 l3 : list A) :
  (forall x y z, R1 x y -> R2 y z -> R3 x z) ->
  Forall2 R1 l1 l2 -> Forall2 R2 l2 l3 -> Forall2 R3 l1 l3.
Proof.
  intros H H12. revert l3. induction H12; intros l3 H23; inversion H23; subst;
    constructor; eauto.
Qed.

Lemma Forall2_same_inputs c (l l' : list Task) :
  Forall2 (task_tr c) l l' -> map input l' = map input l.
Proof.
  induction 1 as [|t t' l l' Ht _ IH]; simpl; [done|].
  by rewrite (task_tr_input c t t' Ht), IH.
Qed.

Lemma transitions_refl (s : State) : transitions s s.
Proof.
  split; [apply Forall2_diag; constructor|done|]. intros t' _ ?. by left.
Qed.

Lemma transitions_same (s s' : State) :
  tasks s' = tasks s -> completed_ids s' = completed_ids s -> transitions s s'.
Proof.
  intros Ht Hc. split.
  - rewrite Ht. apply Forall2_diag. constructor.
  - by rewrite Hc.
  - intros t' _ ?. left. by rewrite <- Hc.
Qed.

Lemma Forall2_In_r {A : Type} (R : A -> A -> Prop) (l l' : list A) (y : A) :
  Forall2 R l l' -> In y l' -> exists x, In x l /\ R x y.
Proof.
  induction 1 as [|a b l l' Hab _ IH]; simpl; [done|].
  intros [<-|Hin]; [exists a; auto|].
  destruct (IH Hin) as (x & ? & ?). exists x. auto.
Qed.

Lemma transitions_trans (s1 s2 s3 : State) :
  transitions s1 s2 -> transitions s2 s3 -> transitions s1 s3.
Proof.
  intros [Ht1 Hc1 Hn1] [Ht2 Hc2 Hn2]. split.
  - eapply Forall2_compose; [|exact Ht1|exact Ht2].
    intros x y z Hxy Hyz. eapply tr_trans; [|exact Hyz].
    by eapply task_tr_mono.
  - set_solver.
  - intros t3 Hin Hid.
    destruct (Hn2 t3 Hin Hid) as [Hid2|?]; [|by right].
    destruct (Forall2_In_r _ _ _ t3 Ht2 Hin) as (t2 & Hin2 & Htr).
    assert (task_id t2 = task_id t3) as Heq.
    { unfold task_id. by rewrite (task_tr_input _ _ _ Htr). }
    rewrite <- Heq in Hid2.
    destruct (Hn1 t2 Hin2 Hid2) as [?|Hres]; [left; by rewrite <- Heq|].
    right. by apply (task_tr_kept _ _ _ Htr).
Qed.

Lemma transitions_modify (id : string) (f : Task -> Task) (s : State) :
  (forall t, In t (tasks s) -> task_id t = id ->
             task_tr (completed_ids s) t (f t)) ->
  transitions s (modifyTask id f s).
Proof.
  intros Hf. split; simpl; [|done|].
  - apply Forall2_map_self. intros t Hin.
    destruct (has_id id t) eqn:Hid; [|constructor].
    apply Hf; [done|]. by apply has_id_true.
  - intros t' _ ?. by left.
Qed.

Lemma transitions_complete (id : string) (r : TaskResult) (s : State) :
  transitions s
    (set_completed_ids ({[id]} ∪ completed_ids s)
       (modifyTask id (fun t => set_result (Some r) (set_status completed t)) s)).
Proof.
  split; simpl.
  - apply Forall2_map_self. intros t Hin.
    destruct (has_id id t) eqn:Hid; [|constructor].
    constructor. apply has_id_true in Hid. rewrite Hid.
    apply elem_of_union_l. by apply elem_of_singleton.
  - apply union_subseteq_r.
  - intros t' Hin Hid. apply in_map_iff in Hin as (t & <- & Hin).
    destruct (has_id id t) eqn:Ht; [by right|].
    left. apply has_id_false in Ht.
    apply elem_of_union in Hid as [Hid|Hid]; [|done].
    by apply elem_of_singleton in Hid.
Qed.

Section Transitions.

Variable cfg : Config.

Lemma transitions_emit e s : transitions s (emit cfg e s).
Proof. apply transitions_same; by frame_simpl. Qed.

Lemma transitions_trySpawnAgents s : transitions s (trySpawnAgents cfg s).
Proof. apply transitions_same; by frame_simpl. Qed.

Lemma transitions_checkAllComplete s : transitions s (checkAllComplete cfg s).
Proof. apply transitions_same; by frame_simpl. Qed.

Lemma transitions_updateReadyLoop (ids : list string) (s : State) :
  transitions s (updateReadyLoop cfg ids s).
Proof.
  revert s. induction ids as [|id ids IH]; intros s; [apply transitions_refl|].
  cbn [updateReadyLoop].
  destruct (getTask id s); [|apply IH].
  destruct (negb _); [apply IH|]. destruct (negb _); [apply IH|].
  eapply transitions_trans; [|apply IH].
  eapply transitions_trans; [|apply transitions_emit].
  apply transitions_modify. intros; constructor.
Qed.

Lemma transitions_markRunning id agent s :
  transitions s (markRunning cfg id agent s).
Proof.
  unfold markRunning. destruct (getTask id s); [|apply transitions_refl].
  eapply transitions_trans; [|apply transitions_emit].
  apply transitions_modify. intros; constructor.
Qed.

Lemma transitions_markCompleted id res chk now s :
  transitions s (markCompleted cfg id res chk now s).
Proof.
  unfold markCompleted. destruct (getTask id s); [|apply transitions_refl].
  assert (transitions s
            (updateReadyTasks cfg
               (emit cfg (taskCompleted id)
                  (set_completed_ids ({[id]} ∪ completed_ids s)
                     (modifyTask id
                        (fun t => set_result
                                    (Some (mkTaskResult (fst res) (snd res) now))
                                    (set_status completed t)) s))))) as H.
  { eapply transitions_trans; [|apply transitions_updateReadyLoop].
    eapply transitions_trans; [|apply transitions_emit].
    apply transitions_complete. }
  destruct chk; [|exact H].
  eapply transitions_trans; [exact H|apply transitions_checkAllComplete].
Qed.

Lemma transitions_markFailed id err m s :
  transitions s (markFailed cfg id err m s).
Proof.
  unfold markFailed. destruct (getTask id s) as [task|]; [|apply transitions_refl].
  assert (transitions s (modifyTask id (set_error (Some err)) s)) as H1.
  { apply transitions_modify. intros; constructor. }
  destruct (_ <? _).
  - eapply transitions_trans; [exact H1|].
    eapply transitions_trans; [|apply transitions_emit].
    apply transitions_modify. intros; constructor.
  - eapply transitions_trans; [exact H1|].
    eapply transitions_trans; [|apply transitions_checkAllComplete].
    eapply transitions_trans; [|apply transitions_emit].
    apply transitions_modify. intros t Hin Hid. constructor.
    simpl in Hin. apply in_map_iff in Hin as (u & <- & Hu).
    destruct (has_id id u) eqn:Hid'; [by eexists|].
    apply has_id_false in Hid'. done.
Qed.

Lemma transitions_handleAgentComplete agent target now s :
  transitions s (handleAgentComplete cfg agent target now s).
Proof.
  unfold handleAgentComplete.
  destruct (truthy_string _); [|apply transitions_refl]. cbv zeta.
  eapply transitions_trans; [|apply transitions_trySpawnAgents].
  eapply transitions_trans; [|apply transitions_markCompleted].
  apply transitions_same; by frame_simpl.
Qed.

Lemma transitions_handleAgentFailed agent err s :
  transitions s (handleAgentFailed cfg agent err s).
Proof.
  unfold handleAgentFailed.
  destruct (truthy_string _); [|apply transitions_refl]. cbv zeta.
  eapply transitions_trans; [|apply transitions_trySpawnAgents].
  eapply transitions_trans; [|apply transitions_markFailed].
  apply transitions_same; by frame_simpl.
Qed.

Lemma transitions_spawnAgent_threw task rest message s :
  transitions s (spawnAgent_threw cfg task rest message s).
Proof.
  unfold spawnAgent_threw.
  eapply transitions_trans; [apply transitions_markFailed|].
  apply transitions_same; by frame_simpl.
Qed.

Lemma transitions_spawnAgent_created task rest agent s :
  transitions s (spawnAgent_created cfg task rest agent s).
Proof.
  unfold spawnAgent_created. cbv zeta.
  eapply transitions_trans;
    [apply (transitions_same s
              (set_activeAgents (<[agent:=in_id task]> (activeAgents s)) s));
     done|].
  eapply transitions_trans; [apply transitions_markRunning|].
  apply transitions_same; by frame_simpl.
Qed.

Lemma transitions_step (a : Action) (s s' : State) :
  step cfg a s = Some s' -> transitions s s'.
Proof.
  destruct a; simpl.
  - unfold start. destruct (isRunning s); intros [= <-]; [apply transitions_refl|].
    apply transitions_same; by frame_simpl.
  - intros [= <-]. apply transitions_same; apply stop_fields.
  - unfold sendFollowUp.
    destruct (getTask taskId s); [|intros [= <-]; apply transitions_refl].
    destruct (truthy_string _); intros [= <-]; by apply transitions_same.
  - destruct (suspended s !! k) as [[| |]|]; try done. intros [= <-].
    eapply transitions_trans;
      [apply (transitions_same s (resume k s)); done
      |apply transitions_spawnAgent_created].
  - destruct (suspended s !! k) as [[| |]|]; try done. intros [= <-].
    eapply transitions_trans;
      [apply (transitions_same s (resume k s)); done
      |apply transitions_spawnAgent_threw].
  - destruct (suspended s !! k) as [[| |]|]; try done; intros [= <-];
      apply transitions_same; by frame_simpl.
  - destruct (hasStateStore cfg); [|done].
    destruct (suspended s !! k) as [[| |]|]; try done; intros [= <-].
    + by apply transitions_same.
    + eapply transitions_trans;
        [apply (transitions_same s (resume k s)); done
        |apply transitions_spawnAgent_threw].
  - intros [= <-]. destruct sg; simpl.
    + apply transitions_handleAgentComplete.
    + apply transitions_handleAgentFailed.
    + apply transitions_handleAgentFailed.
    + apply transitions_refl.
  - destruct (armed s !! timer); [|done]. intros [= <-].
    unfold timeoutCallback. simpl.
    destruct (activeAgents s !! _); [|by apply transitions_same].
    eapply transitions_trans; [|apply transitions_handleAgentFailed].
    by apply transitions_same.
Qed.

Lemma transitions_run (acts : list Action) (s s' : State) :
  run cfg acts s = Some s' -> transitions s s'.
Proof.
  revert s. induction acts as [|a acts IH]; intros s; simpl.
  - intros [= <-]. apply transitions_refl.
  - destruct (step cfg a s) as [s1|] eqn:Hs; [|done]. intros Hr.
    eapply transitions_trans; [by eapply transitions_step|by apply IH].
Qed.

End Transitions.

(** X7: no step of a run adds, removes or reorders an entry of the task
    table or changes a field a task was loaded with (id, dependsOn,
    priority, retries, ...), and the completed set only grows. *)
Theorem run_keeps_table_and_grows_completed (cfg : Config) (acts : list Action)
    (s s' : State) :
  run cfg acts s = Some s' ->
  map input (tasks s') = map input (tasks s)
  /\ completed_ids s ⊆ completed_ids s'.
Proof.
  intros Hrun. destruct (transitions_run cfg acts s s' Hrun) as [Ht Hc _].
  split; [by eapply Forall2_same_inputs|done].
Qed.

Lemma run_keeps_table_and_grows_completed_witness :
  run cfg_one fan_out_overrun (loaded cfg_one "plan" fan_out "t0")
  = Some (after cfg_one fan_out_overrun (loaded cfg_one "plan" fan_out "t0"))
  /\ map input (tasks (after cfg_one fan_out_overrun
                         (loaded cfg_one "plan" fan_out "t0")))
     = map input (tasks (loaded cfg_one "plan" fan_out "t0")).
Proof.
  assert (run cfg_one fan_out_overrun (loaded cfg_one "plan" fan_out "t0")
          = Some (after cfg_one fan_out_overrun
                    (loaded cfg_one "plan" fan_out "t0"))) as Hrun
    by (vm_compute; reflexivity).
  split; [exact Hrun|].
  apply (run_keeps_table_and_grows_completed cfg_one fan_out_overrun _ _ Hrun).
Defined.

(** X8: in the course of a run the attempts counter of a task never
    decreases, and an agentId, a result or an error once recorded on a task
    is never erased (it can only be overwritten). *)
Theorem run_never_resets_attempts (cfg : Config) (acts : list Action)
    (s s' : State) :
  run cfg acts s = Some s' ->
  Forall2 (fun t t' =>
             attempts t <= attempts t'
             /\ (is_Some (agentId t) -> is_Some (agentId t'))
             /\ (is_Some (result t) -> is_Some (result t'))
             /\ (is_Some (error t) -> is_Some (error t')))
          (tasks s) (tasks s').
Proof.
  intros Hrun. destruct (transitions_run cfg acts s s' Hrun) as [Ht _ _].
  eapply Forall2_impl; [exact Ht|]. intros t t' Htr. simpl.
  split; [by eapply task_tr_attempts|by eapply task_tr_kept].
Qed.

Lemma run_never_resets_attempts_witness :
  run cfg_one fan_out_overrun (loaded cfg_one "plan" fan_out "t0")
  = Some (after cfg_one fan_out_overrun (loaded cfg_one "plan" fan_out "t0"))
  /\ Forall2 (fun t t' => attempts t <= attempts t')
       (tasks (loaded cfg_one "plan" fan_out "t0"))
       (tasks (after cfg_one fan_out_overrun (loaded cfg_one "plan" fan_out "t0"))).
Proof.
  assert (run cfg_one fan_out_overrun (loaded cfg_one "plan" fan_out "t0")
          = Some (after cfg_one fan_out_overrun
                    (loaded cfg_one "plan" fan_out "t0"))) as Hrun
    by (vm_compute; reflexivity).
  split; [exact Hrun|].
  eapply Forall2_impl;
    [apply (run_never_resets_attempts cfg_one fan_out_overrun _ _ Hrun)|].
  intros t t' H. apply H.
Defined.

Lemma loaded_task_ok cfg name (inputs : list TaskInput) now :
  Forall (task_ok (completed_ids (loaded cfg name inputs now)))
         (tasks (loaded cfg name inputs now)).
Proof.
  apply Forall_forall. intros t Hin.
  destruct (loaded_shape cfg name inputs now) as [Hshape _].
  destruct (Hshape t (proj1 (list_elem_of_In _ _) Hin)) as (Ha & Hg & He & Hc).
  split; try (rewrite Ha; lia).
  - rewrite Ha, Hg. split; [by intros [? ?]|lia].
  - intros Hst. destruct (truthy_flag (complete t)).
    + split; apply Hc.
    + destruct Hc as [[?|?] _]; congruence.
  - intros Hst. destruct (truthy_flag (complete t)).
    + destruct Hc as (? & _). congruence.
    + destruct Hc as [[?|?] _]; congruence.
  - intros Hst. split; [done|]. destruct (truthy_flag (complete t)).
    + destruct Hc as (? & _). congruence.
    + apply Hc.
  - intros Hst. destruct (truthy_flag (complete t)).
    + destruct Hc as (? & _). congruence.
    + destruct Hc as [[?|?] _]; congruence.
Qed.

Lemma reachable_task_ok (cfg : Config) (name : string)
    (inputs : list TaskInput) (now : string) (s : State) (t : Task) :
  reachable cfg name inputs now s -> In t (tasks s) ->
  task_ok (completed_ids s) t.
Proof.
  intros [acts Hrun] Hin.
  destruct (transitions_run cfg acts _ s Hrun) as [Ht Hc _].
  destruct (Forall2_In_r _ _ _ t Ht Hin) as (t0 & Hin0 & Htr).
  apply (task_tr_ok _ _ _ Htr).
  eapply task_ok_mono; [exact Hc|].
  pose proof (loaded_task_ok cfg name inputs now) as Hall.
  rewrite Forall_forall in Hall. apply Hall. by apply list_elem_of_In.
Qed.

(** X9: in every state of a run the mutable fields of each task agree:
    attempts is not negative; an agentId is recorded exactly when attempts is
    at least 1; a `completed` task has its id in the completed set and
    carries a result; a `running` task has an agentId; a `pending` task has
    attempts 0 and no result; a `failed` task carries an error message. *)
Theorem reachable_tasks_are_consistent (cfg : Config) (name : string)
    (inputs : list TaskInput) (now : string) (s : State) (t : Task) :
  reachable cfg name inputs now s -> In t (tasks s) ->
  task_ok (completed_ids s) t.
Proof. apply reachable_task_ok. Qed.

Lemma reachable_tasks_are_consistent_witness :
  reachable cfg_one "plan" one_retry "t0" one_retry_failed
  /\ exists t, In t (tasks one_retry_failed)
               /\ task_ok (completed_ids one_retry_failed) t.
Proof.
  assert (reachable cfg_one "plan" one_retry "t0" one_retry_failed) as Hr.
  { exists one_retry_fails_once. vm_compute; reflexivity. }
  split; [exact Hr|].
  destruct (tasks one_retry_failed) as [|t l] eqn:Ht; [vm_compute in Ht; done|].
  exists t.
  assert (In t (tasks one_retry_failed)) as Hin by (rewrite Ht; by left).
  rewrite <- Ht. split; [exact Hin|].
  apply (reachable_tasks_are_consistent cfg_one "plan" one_retry "t0"
           one_retry_failed t Hr Hin).
Defined.

(* --------------------------------------------------------------------- *)
(* buildPrompt                                                           *)
(* --------------------------------------------------------------------- *)

Lemma dependencyInfo_fold (deps : list string) (s : State) (acc : list string) :
  fold_left
    (fun info depId =>
       match getTask depId s with
       | Some depTask =>
           match result depTask with
           | Some r => info ++ [resultLine depTask r]
           | None => info ++ [inProgressLine depTask]
           end
       | None => info
       end) deps acc
  = acc ++ flat_map (fun depId =>
                       match getTask depId s with
                       | Some depTask =>
                           match result depTask with
                           | Some r => [resultLine depTask r]
                           | None => [inProgressLine depTask]
                           end
                       | None => []
                       end) deps.
Proof.
  revert acc. induction deps as [|d deps IH]; intros acc; simpl.
  - by rewrite app_nil_r.
  - rewrite IH. destruct (getTask d s) as [t|]; [|done].
    destruct (result t); by rewrite <- app_assoc.
Qed.

Lemma NoDup_in_id_inj (inputs : list TaskInput) (i j : TaskInput) :
  NoDup (map in_id inputs) -> In i inputs -> In j inputs ->
  in_id i = in_id j -> i = j.
Proof.
  induction inputs as [|a l IH]; simpl; [done|].
  intros Hnd Hi Hj Heq. inversion Hnd as [|x xs Hni Hnd']; subst.
  rewrite list_elem_of_In in Hni.
  destruct Hi as [->|Hi], Hj as [->|Hj]; try done.
  - destruct Hni. rewrite Heq. by apply in_map.
  - destruct Hni. rewrite <- Heq. by apply in_map.
  - by apply IH.
Qed.

Lemma loaded_results_recorded cfg name (inputs : list TaskInput) now :
  NoDup (map in_id inputs) -> results_recorded (loaded cfg name inputs now).
Proof.
  intros Hnd t Hin Hid.
  destruct (loaded_shape cfg name inputs now) as [Hshape Hdone].
  apply Hdone in Hid as (i & Hi & Heq & Hflag).
  destruct (loaded_lookup cfg name inputs now) as (_ & _ & _ & Hinputs).
  assert (In (input t) inputs) as Hti.
  { rewrite <- (Hinputs Hnd). by apply in_map. }
  assert (i = input t) as -> by (by apply (NoDup_in_id_inj inputs)).
  destruct (Hshape t Hin) as (_ & _ & _ & Hc).
  unfold complete in Hc. unfold premarked in Hflag. rewrite Hflag in Hc.
  apply Hc.
Qed.

Lemma results_recorded_transitions (s s' : State) :
  transitions s s' -> results_recorded s -> results_recorded s'.
Proof.
  intros [Ht Hc Hn] Hs t' Hin Hid.
  destruct (Hn t' Hin Hid) as [Hid0|?]; [|done].
  destruct (Forall2_In_r _ _ _ t' Ht Hin) as (t & Hin0 & Htr).
  apply (task_tr_kept _ _ _ Htr). apply Hs; [done|].
  unfold task_id in *. by rewrite <- (task_tr_input _ _ _ Htr).
Qed.

(** X10: in a run loaded from inputs with distinct ids, when a task is
    `ready` every one of its dependencies that is in the table has a result
    recorded, so the line buildPrompt renders for it is the one built from
    the result (name, branch, PR link), never the "(in progress)" line. *)
Theorem ready_task_dependencies_have_results (cfg : Config) (name : string)
    (inputs : list TaskInput) (now : string) (s : State) (t : Task) :
  NoDup (map in_id inputs) ->
  reachable cfg name inputs now s ->
  In t (tasks s) -> status t = ready ->
  (forall depId depTask,
      In depId (dependsOn t) -> getTask depId s = Some depTask ->
      is_Some (result depTask))
  /\ dependencyInfo (dependsOn t) s
     = flat_map (fun depId =>
                   match getTask depId s with
                   | Some depTask =>
                       match result depTask with
                       | Some r => [resultLine depTask r]
                       | None => []
                       end
                   | None => []
                   end) (dependsOn t).
Proof.
  intros Hnd Hreach Hin Hr.
  assert (results_recorded s) as Hrec.
  { destruct Hreach as [acts Hrun].
    eapply results_recorded_transitions; [by eapply transitions_run|].
    by apply loaded_results_recorded. }
  destruct (reachable_ok cfg name inputs now s Hreach) as [HV _].
  pose proof (proj1 (depsComplete_spec s t) (inv_ready s HV t Hin Hr)) as Hdeps.
  assert (forall depId depTask,
            In depId (dependsOn t) -> getTask depId s = Some depTask ->
            is_Some (result depTask)) as H.
  { intros depId depTask Hd Hg. apply getTask_Some in Hg as [Hin' Hid].
    apply Hrec; [done|]. rewrite Hid. by apply Hdeps. }
  split; [exact H|].
  unfold dependencyInfo. rewrite dependencyInfo_fold. simpl.
  induction (dependsOn t) as [|d l IH]; simpl; [done|].
  rewrite IH.
  - destruct (getTask d s) as [dt|] eqn:Hg; [|done].
    destruct (H d dt) as [r Hres]; [by left|done|]. by rewrite Hres.
  - intros d' Hd'. apply Hdeps. by right.
  - intros d' dt Hd'. apply H. by right.
Qed.

Lemma ready_task_dependencies_have_results_witness :
  NoDup (map in_id fan_out)
  /\ reachable cfg_one "plan" fan_out "t0" fan_out_A_completed
  /\ dependencyInfo ["A"] fan_out_A_completed = ["- **A**"%string].
Proof.
  assert (NoDup (map in_id fan_out)) as Hnd.
  { apply (bool_decide_unpack _). vm_compute. exact I. }
  assert (reachable cfg_one "plan" fan_out "t0" fan_out_A_completed) as Hr.
  { exists [Start; SaveResolved 0; CreateAgentResolved 0 "a1"; SaveResolved 0;
            Signalled (sig_completed "a1" None None) "t1"].
    vm_compute; reflexivity. }
  split; [exact Hnd|]. split; [exact Hr|].
  set (t := set_status ready (mkPending (sampleTask "B" ["A"] 0 None None))).
  assert (In t (tasks fan_out_A_completed)) as Hin.
  { vm_compute. right. by left. }
  destruct (ready_task_dependencies_have_results cfg_one "plan" fan_out "t0"
              fan_out_A_completed t Hnd Hr Hin eq_refl) as [_ Heq].
  change (dependsOn t) with ["A"] in Heq. rewrite Heq.
  vm_compute. reflexivity.
Defined.

Lemma string_app_assoc (a b c : string) :
  ((a ++ b) ++ c = a ++ (b ++ c))%string.
Proof.
  induction a as [|x a IH]; [reflexivity|].
  change (String x ((a ++ b) ++ c) = String x (a ++ (b ++ c)))%string.
  by rewrite IH.
Qed.

Lemma string_app_nil_r (a : string) : (a ++ "" = a)%string.
Proof.
  induction a as [|x a IH]; [reflexivity|].
  change (String x (a ++ "") = String x a)%string. by rewrite IH.
Qed.

Lemma concat_snoc (sep : string) (l : list string) (x : string) :
  String.concat sep (l ++ [x])
  = match l with
    | [] => x
    | _ => (String.concat sep l ++ sep ++ x)%string
    end.
Proof.
  induction l as [|a l IH]; simpl; [done|].
  destruct l as [|b l]; [done|].
  simpl in *. rewrite IH. by rewrite !string_app_assoc.
Qed.

(** X11: whatever is configured and whatever the table holds, the prompt
    built for a task ends with the task's own section "## Task\n<prompt>",
    followed only by the validation section when the task has one; the other
    sections, if any, come before it. *)
Theorem buildPrompt_ends_with_task_section (o : Options) (task : TaskInput)
    (s : State) :
  exists before : string,
    buildPrompt o task s
    = (before ++ taskSection task
       ++ match in_validation task with
          | Some v => nl ++ nl ++ validationSection v
          | None => ""
          end)%string.
Proof.
  unfold buildPrompt. cbv zeta.
  set (p4 := match in_files task with Some (f :: fs) => _ | _ => _ end).
  destruct (in_validation task) as [v|].
  - rewrite concat_snoc.
    destruct (p4 ++ [taskSection task]) as [|a l] eqn:Hp;
      [by destruct p4|]. rewrite <- Hp. rewrite concat_snoc.
    destruct p4 as [|b p4'].
    + exists ""%string. done.
    + exists (String.concat (nl ++ nl) (b :: p4') ++ nl ++ nl)%string.
      by rewrite !string_app_assoc.
  - rewrite concat_snoc. destruct p4 as [|b p4'].
    + exists ""%string. by rewrite string_app_nil_r.
    + exists (String.concat (nl ++ nl) (b :: p4') ++ nl ++ nl)%string.
      by rewrite string_app_nil_r, !string_app_assoc.
Qed.

(* ===================================================================== *)
(* The validation of a template's tasks (parsers/index)                  *)
(* ===================================================================== *)

Lemma taskMapOf_fold (tasks : list TaskInput) (m : gmap string TaskInput) (a : string) :
  fold_left (fun m t => <[in_id t := t]> m) tasks m !! a
  = match List.find (fun t => String.eqb (in_id t) a) (rev tasks) with
    | Some t => Some t
    | None => m !! a
    end.
Proof.
  revert m. induction tasks as [|t tasks IH]; intros m; simpl; [done|].
  rewrite IH, find_app. simpl.
  destruct (List.find _ (rev tasks)); [done|].
  destruct (String.eqb_spec (in_id t) a) as [->|Hne].
  - by rewrite lookup_insert_eq.
  - by rewrite lookup_insert_ne.
Qed.

(* taskMap.get(id) is the last task of the list with that id *)
Lemma taskMapOf_lookup (tasks : list TaskInput) (a : string) :
  taskMapOf tasks !! a
  = List.find (fun t => String.eqb (in_id t) a) (rev tasks).
Proof.
  unfold taskMapOf. rewrite taskMapOf_fold, lookup_empty.
  by destruct (List.find _ (rev tasks)).
Qed.

Lemma taskMapOf_Some (tasks : list TaskInput) (a : string) (t : TaskInput) :
  taskMapOf tasks !! a = Some t -> In t tasks /\ in_id t = a.
Proof.
  rewrite taskMapOf_lookup. intros H. apply find_some in H as [Hin Hid].
  split; [by apply in_rev|by apply String.eqb_eq].
Qed.

Lemma taskMapOf_known (tasks : list TaskInput) (t : TaskInput) :
  In t tasks -> is_Some (taskMapOf tasks !! in_id t).
Proof.
  intros Hin. rewrite taskMapOf_lookup.
  destruct (List.find _ (rev tasks)) eqn:Hf; [done|].
  eapply find_none in Hf; [|apply in_rev; by rewrite rev_involutive].
  by rewrite String.eqb_refl in Hf.
Qed.

Lemma taskMapOf_size (tasks : list TaskInput) :
  (size (taskMapOf tasks) <= length tasks)%nat.
Proof.
  unfold taskMapOf.
  assert (forall m : gmap string TaskInput,
            (size (fold_left (fun m t => <[in_id t := t]> m) tasks m)
             <= size m + length tasks)%nat) as H.
  { induction tasks as [|t tasks IH]; intros m; simpl; [lia|].
    specialize (IH (<[in_id t:=t]> m)).
    rewrite map_size_insert in IH. destruct (m !! in_id t); simpl in IH;
      unfold id in IH; lia. }
  specialize (H ∅). by rewrite map_size_empty in H.
Qed.

Section Dfs.

Variable taskMap : gmap string TaskInput.

(* how many tasks of the map dfs has not visited yet *)
Let unvisited (st : DfsState) : nat := size (dom taskMap ∖ fst st).

Lemma unvisited_mono (st st' : DfsState) :
  fst st ⊆ fst st' -> (unvisited st' <= unvisited st)%nat.
Proof. intros H. unfold unvisited. apply subseteq_size. set_solver. Qed.

Lemma dfs_loop_total (fuel : nat) :
  (forall v st, v ∉ fst st -> (unvisited st < fuel)%nat ->
     exists b st', dfs fuel taskMap v st = Some (b, st') /\ fst st ⊆ fst st') ->
  forall deps st, (unvisited st < fuel)%nat ->
    exists b st', dfs_loop (dfs fuel taskMap) deps st = Some (b, st')
                  /\ fst st ⊆ fst st'.
Proof.
  intros IH deps. induction deps as [|d deps IHd]; intros st Hlt; simpl.
  - by exists false, st.
  - destruct (decide (d ∈ fst st)) as [Hin|Hni].
    + rewrite (bool_decide_eq_true_2 _ Hin).
      destruct (bool_decide (d ∈ snd st)); [by exists true, st|].
      by apply IHd.
    + rewrite (bool_decide_eq_false_2 _ Hni).
      destruct (IH d st Hni Hlt) as (b & st1 & -> & Hsub).
      destruct b; [by exists true, st1|].
      destruct (bool_decide (d ∈ snd st1)); [by exists true, st1|].
      destruct (IHd st1) as (b & st2 & Heq & Hsub2).
      { pose proof (unvisited_mono st st1 Hsub). unfold unvisited in *. lia. }
      exists b, st2. split; [done|]. set_solver.
Qed.

Lemma dfs_total (fuel : nat) (v : string) (st : DfsState) :
  v ∉ fst st -> (unvisited st < fuel)%nat ->
  exists b st', dfs fuel taskMap v st = Some (b, st') /\ fst st ⊆ fst st'.
Proof.
  revert v st. induction fuel as [|fuel IH]; intros v st Hv Hlt; [lia|].
  cbn [dfs]. cbv zeta.
  destruct (taskMap !! v) as [task|] eqn:Hk.
  - destruct (dfs_loop_total fuel IH (in_dependsOn task)
                ({[v]} ∪ fst st, {[v]} ∪ snd st)) as (b & st1 & -> & Hsub).
    { assert (unvisited ({[v]} ∪ fst st, {[v]} ∪ snd st) < unvisited st)%nat;
        [|unfold unvisited in *; lia].
      unfold unvisited. simpl. apply subset_size.
      assert (v ∈ dom taskMap) by (apply elem_of_dom; eauto).
      set_solver. }
    simpl in Hsub. destruct b.
    + exists true, st1. split; [done|]. set_solver.
    + eexists false, _. split; [done|]. simpl. set_solver.
  - eexists false, _. split; [done|]. simpl. set_solver.
Qed.

Lemma hasCycle_loop_total (fuel : nat) (tasks : list TaskInput) (st : DfsState) :
  (size taskMap < fuel)%nat ->
  is_Some (hasCycle_loop fuel taskMap tasks st).
Proof.
  intros Hfuel. revert st. induction tasks as [|t tasks IH]; intros st; simpl;
    [done|].
  destruct (decide (in_id t ∈ fst st)) as [Hin|Hni].
  - rewrite (bool_decide_eq_true_2 _ Hin). apply IH.
  - rewrite (bool_decide_eq_false_2 _ Hni).
    destruct (dfs_total fuel (in_id t) st Hni) as (b & st1 & -> & _).
    { unfold unvisited. rewrite <- (size_dom taskMap) in Hfuel.
      eapply Nat.le_lt_trans; [|exact Hfuel]. apply subseteq_size. set_solver. }
    destruct b; [done|apply IH].
Qed.

End Dfs.

Lemma hasCycle_total (stack : nat) (tasks : list TaskInput) :
  (size (taskMapOf tasks) < stack)%nat -> is_Some (hasCycle stack tasks).
Proof. intros H. unfold hasCycle. by apply hasCycle_loop_total. Qed.

Section DfsSound.

Variable taskMap : gmap string TaskInput.

Let edge : string -> string -> Prop := dependsOnId taskMap.

Lemma finished_edge (st : DfsState) (v w : string) :
  finished_ok taskMap st -> finished st v -> edge v w -> finished st w.
Proof.
  intros [_ Hok] [Hv Hs] (task & Hk & Hin).
  destruct (Hok v Hv Hs) as [(task' & Hk' & Hdeps) _].
  rewrite Hk in Hk'. injection Hk' as <-. by apply Hdeps.
Qed.

Lemma finished_tc (st : DfsState) (v w : string) :
  finished_ok taskMap st -> finished st v -> tc edge v w -> finished st w.
Proof.
  intros Hok Hv Htc. induction Htc as [x y Hxy|x y z Hxy _ IH].
  - by eapply finished_edge.
  - apply IH. by eapply finished_edge.
Qed.

Lemma finished_later (st st' : DfsState) (v : string) :
  fst st ⊆ fst st' -> snd st' = snd st -> finished st v -> finished st' v.
Proof. intros Hsub Heq [Hv Hs]. split; [by apply Hsub|by rewrite Heq]. Qed.

(* entering a node that was not visited keeps what is known of the rest *)
Lemma finished_ok_enter (st : DfsState) (v : string) :
  v ∉ fst st -> finished_ok taskMap st ->
  finished_ok taskMap ({[v]} ∪ fst st, {[v]} ∪ snd st).
Proof.
  intros Hv [Hsub Hok]. split; simpl; [set_solver|].
  intros b Hb Hs.
  assert (b ∈ fst st) as Hb' by set_solver.
  assert (b ∉ snd st) as Hs' by set_solver.
  destruct (Hok b Hb' Hs') as [(task & Hk & Hdeps) Hacyc].
  split; [|done]. exists task. split; [done|].
  intros d Hd. destruct (Hdeps d Hd) as [Hd1 Hd2].
  split; [set_solver|]. intros Hd3.
  apply elem_of_union in Hd3 as [Hd3|Hd3]; [|done].
  apply elem_of_singleton in Hd3. by subst.
Qed.

Lemma dfs_loop_false rec (deps : list string) (st st' : DfsState) :
  dfs_false_spec taskMap rec ->
  dfs_loop rec deps st = Some (false, st') -> finished_ok taskMap st ->
  fst st ⊆ fst st' /\ snd st' = snd st /\ finished_ok taskMap st'
  /\ forall d, In d deps -> finished st' d.
Proof.
  intros Hrec. revert st. induction deps as [|d deps IH]; intros st Hloop Hok.
  - simpl in Hloop. injection Hloop as <-.
    split; [done|]. split; [done|]. split; [done|]. by intros d [].
  - simpl in Hloop.
    destruct (decide (d ∈ fst st)) as [Hin|Hni].
    + rewrite (bool_decide_eq_true_2 _ Hin) in Hloop.
      destruct (decide (d ∈ snd st)) as [Hs|Hs].
      * by rewrite (bool_decide_eq_true_2 _ Hs) in Hloop.
      * rewrite (bool_decide_eq_false_2 _ Hs) in Hloop.
        destruct (IH st Hloop Hok) as (H1 & H2 & H3 & H4).
        split; [done|]. split; [done|]. split; [done|].
        intros d' [<-|Hd']; [|by apply H4].
        by apply (finished_later st).
    + rewrite (bool_decide_eq_false_2 _ Hni) in Hloop.
      destruct (rec d st) as [[[|] st1]|] eqn:Hr; try done.
      destruct (decide (d ∈ snd st1)) as [Hs|Hs].
      * by rewrite (bool_decide_eq_true_2 _ Hs) in Hloop.
      * rewrite (bool_decide_eq_false_2 _ Hs) in Hloop.
        destruct (Hrec d st st1 Hr Hni Hok) as (Hsub & Hok1 & Hknown & Hunknown).
        destruct (taskMap !! d) as [task|] eqn:Hk; [|by destruct Hs; apply Hunknown].
        destruct Hknown as [Heq Hfin]; [done|].
        destruct (IH st1 Hloop Hok1) as (H1 & H2 & H3 & H4).
        split; [set_solver|]. split; [congruence|]. split; [done|].
        intros d' [<-|Hd']; [|by apply H4].
        by apply (finished_later st1).
Qed.

Lemma dfs_false (fuel : nat) : dfs_false_spec taskMap (dfs fuel taskMap).
Proof.
  induction fuel as [|fuel IH]; intros v st st' Hdfs Hv Hok; [done|].
  cbn [dfs] in Hdfs. cbv zeta in Hdfs.
  pose proof (finished_ok_enter st v Hv Hok) as Hok0.
  destruct (taskMap !! v) as [task|] eqn:Hk.
  - destruct (dfs_loop _ _ _) as [[[|] st2]|] eqn:Hloop; try done.
    injection Hdfs as <-.
    destruct (dfs_loop_false _ _ _ _ IH Hloop Hok0) as (H1 & H2 & H3 & H4).
    simpl in H1, H2.
    assert (v ∉ snd st) as Hvs by (destruct Hok as [Hsub _]; set_solver).
    assert (snd st2 ∖ {[v]} = snd st) as Hstack by (rewrite H2; set_solver).
    assert (finished (fst st2, snd st2 ∖ {[v]}) v) as Hfin.
    { split; simpl; [set_solver|]. by rewrite Hstack. }
    split; [simpl; set_solver|]. split; [|split; [done|done]].
    destruct H3 as [Hsub2 Hok2]. split; simpl; [rewrite Hstack; set_solver|].
    intros b Hb Hs. rewrite Hstack in Hs.
    destruct (decide (b = v)) as [->|Hne].
    + split.
      * exists task. split; [done|]. intros d Hd.
        destruct (H4 d Hd) as [Hd1 Hd2]. split; [done|].
        simpl. rewrite Hstack. rewrite H2 in Hd2. set_solver.
      * intros Hcyc.
        assert (exists d, In d (in_dependsOn task)
                          /\ (d = v \/ tc edge d v)) as (d & Hd & Hreach).
        { inversion Hcyc as [x y (t1 & Hk1 & Hin1)|x y z (t1 & Hk1 & Hin1) Htc];
            subst; rewrite Hk in Hk1; injection Hk1 as <-; eauto. }
        assert (finished st2 v) as Hbad.
        { destruct Hreach as [->|Htc]; [by apply H4|].
          eapply finished_tc; [by split|by apply H4|exact Htc]. }
        destruct Hbad as [_ Hbad]. apply Hbad. rewrite H2. set_solver.
    + assert (b ∉ snd st2) as Hs2 by (rewrite H2; set_solver).
      destruct (Hok2 b Hb Hs2) as [(tb & Hkb & Hdeps) Hacyc].
      split; [|done]. exists tb. split; [done|]. intros d Hd.
      destruct (Hdeps d Hd) as [Hd1 Hd2]. split; [done|].
      rewrite Hstack. rewrite H2 in Hd2. set_solver.
  - injection Hdfs as <-. split; [simpl; set_solver|]. split; [done|].
    split; [by intros [? ?]|]. intros _. simpl. set_solver.
Qed.

Lemma hasCycle_loop_false (fuel : nat) (tasks : list TaskInput) (st : DfsState) :
  hasCycle_loop fuel taskMap tasks st = Some false ->
  finished_ok taskMap st -> snd st = ∅ ->
  (forall t, In t tasks -> is_Some (taskMap !! in_id t)) ->
  exists st', finished_ok taskMap st' /\ snd st' = ∅ /\ fst st ⊆ fst st'
              /\ forall t, In t tasks -> in_id t ∈ fst st'.
Proof.
  revert st. induction tasks as [|t tasks IH]; intros st Hloop Hok Hs Hknown.
  - exists st. split; [done|]. split; [done|]. split; [done|]. by intros t [].
  - simpl in Hloop.
    assert (forall u, In u tasks -> is_Some (taskMap !! in_id u)) as Hknown'.
    { intros u Hu. apply Hknown. by right. }
    destruct (decide (in_id t ∈ fst st)) as [Hin|Hni].
    + rewrite (bool_decide_eq_true_2 _ Hin) in Hloop.
      destruct (IH st Hloop Hok Hs Hknown') as (st' & H1 & H2 & H3 & H4).
      exists st'. split; [done|]. split; [done|]. split; [done|].
      intros u [<-|Hu]; [by apply H3|by apply H4].
    + rewrite (bool_decide_eq_false_2 _ Hni) in Hloop.
      destruct (dfs fuel taskMap (in_id t) st) as [[[|] st1]|] eqn:Hdfs; try done.
      destruct (dfs_false fuel _ _ _ Hdfs Hni Hok) as (Hsub & Hok1 & Hk & _).
      destruct Hk as [Heq [Hfin _]]; [apply Hknown; by left|].
      destruct (IH st1 Hloop Hok1) as (st' & H1 & H2 & H3 & H4);
        [congruence|done|].
      exists st'. split; [done|]. split; [done|]. split; [set_solver|].
      intros u [<-|Hu]; [by apply H3|by apply H4].
Qed.

End DfsSound.

Lemma finished_ok_empty (taskMap : gmap string TaskInput) :
  finished_ok taskMap (∅, ∅).
Proof. split; simpl; [done|]. intros v Hv. set_solver. Qed.

(* hasCycle returns false only for a task map all of whose dependencies
   are tasks of the map and which has no cycle *)
Lemma hasCycle_false (stack : nat) (tasks : list TaskInput) :
  hasCycle stack tasks = Some false ->
  (forall a task, taskMapOf tasks !! a = Some task ->
     forall d, In d (in_dependsOn task) -> is_Some (taskMapOf tasks !! d))
  /\ forall a, ~ tc (dependsOnId (taskMapOf tasks)) a a.
Proof.
  intros Hc. unfold hasCycle in Hc.
  destruct (hasCycle_loop_false _ _ _ _ Hc (finished_ok_empty _) eq_refl)
    as (st & [Hsub Hok] & Hs & _ & Hall).
  { intros t Ht. by apply taskMapOf_known. }
  assert (forall a task, taskMapOf tasks !! a = Some task ->
            a ∈ fst st /\ a ∉ snd st) as Hfin.
  { intros a task Hk. apply taskMapOf_Some in Hk as [Hin <-].
    split; [by apply Hall|]. rewrite Hs. set_solver. }
  split.
  - intros a task Hk d Hd.
    destruct (Hfin a task Hk) as [Ha1 Ha2].
    destruct (Hok a Ha1 Ha2) as [(task' & Hk' & Hdeps) _].
    rewrite Hk in Hk'. injection Hk' as <-.
    destruct (Hdeps d Hd) as [Hd1 Hd2].
    destruct (Hok d Hd1 Hd2) as [(td & Hkd & _) _]. by eexists.
  - intros a Hcyc.
    assert (exists task, taskMapOf tasks !! a = Some task) as [task Hk].
    { inversion Hcyc as [x y (t1 & Hk1 & _)|x y z (t1 & Hk1 & _) _]; eauto. }
    destruct (Hfin a task Hk) as [Ha1 Ha2].
    by destruct (Hok a Ha1 Ha2) as [_ Hacyc].
Qed.

Section DfsComplete.

Variable taskMap : gmap string TaskInput.

Let edge : string -> string -> Prop := dependsOnId taskMap.

Hypothesis all_known :
  forall a task, taskMap !! a = Some task ->
    forall d, In d (in_dependsOn task) -> is_Some (taskMap !! d).

Lemma edge_known (v d : string) : edge v d -> is_Some (taskMap !! d).
Proof. intros (task & Hk & Hd). by eapply all_known. Qed.

Lemma dfs_loop_true rec (v : string) (deps : list string) (st st' : DfsState) :
  dfs_false_spec taskMap rec ->
  (forall w st1 st2,
     rec w st1 = Some (true, st2) -> w ∉ fst st1 -> finished_ok taskMap st1 ->
     is_Some (taskMap !! w) -> (forall g, g ∈ snd st1 -> tc edge g w) ->
     exists c, tc edge c c) ->
  dfs_loop rec deps st = Some (true, st') -> finished_ok taskMap st ->
  (forall d, In d deps -> edge v d) ->
  (forall g, g ∈ snd st -> rtc edge g v) ->
  exists c, tc edge c c.
Proof.
  intros Hfalse Htrue. revert st.
  induction deps as [|d deps IH]; intros st Hloop Hok Hdeps Hgray; [done|].
  assert (edge v d) as Hvd by (apply Hdeps; by left).
  assert (forall e, In e deps -> edge v e) as Hdeps'
    by (intros e He; apply Hdeps; by right).
  assert (d ∈ snd st -> exists c, tc edge c c) as Hback.
  { intros Hd. exists v. eapply tc_rtc_r; [by apply tc_once|by apply Hgray]. }
  simpl in Hloop.
  destruct (decide (d ∈ fst st)) as [Hin|Hni].
  - rewrite (bool_decide_eq_true_2 _ Hin) in Hloop.
    destruct (decide (d ∈ snd st)) as [Hs|Hs]; [by apply Hback|].
    rewrite (bool_decide_eq_false_2 _ Hs) in Hloop. by apply (IH st).
  - rewrite (bool_decide_eq_false_2 _ Hni) in Hloop.
    destruct (rec d st) as [[[|] st1]|] eqn:Hr; [| |done].
    + apply (Htrue d st st1 Hr Hni Hok); [by eapply edge_known|].
      intros g Hg. eapply tc_rtc_l; [by apply Hgray|by apply tc_once].
    + destruct (Hfalse d st st1 Hr Hni Hok) as (Hsub & Hok1 & Hknown & _).
      destruct Hknown as [Heq _]; [by eapply edge_known|].
      destruct (decide (d ∈ snd st1)) as [Hs|Hs].
      * apply Hback. by rewrite <- Heq.
      * rewrite (bool_decide_eq_false_2 _ Hs) in Hloop.
        apply (IH st1); try done. intros g Hg. apply Hgray. by rewrite <- Heq.
Qed.

Lemma dfs_true (fuel : nat) (v : string) (st st' : DfsState) :
  dfs fuel taskMap v st = Some (true, st') -> v ∉ fst st ->
  finished_ok taskMap st -> is_Some (taskMap !! v) ->
  (forall g, g ∈ snd st -> tc edge g v) ->
  exists c, tc edge c c.
Proof.
  revert v st st'.
  induction fuel as [|fuel IH]; intros v st st' Hdfs Hv Hok Hk Hgray; [done|].
  cbn [dfs] in Hdfs. cbv zeta in Hdfs.
  destruct (taskMap !! v) as [task|] eqn:Hkv; [|done].
  destruct (dfs_loop _ _ _) as [[[|] st2]|] eqn:Hloop; try done.
  eapply (dfs_loop_true _ v _ _ _ (dfs_false taskMap fuel)); [|exact Hloop| | |].
  - intros w st1 st3. apply IH.
  - by apply finished_ok_enter.
  - intros d Hd. by exists task.
  - simpl. intros g Hg. apply elem_of_union in Hg as [Hg|Hg].
    + apply elem_of_singleton in Hg as ->. apply rtc_refl.
    + apply tc_rtc. by apply Hgray.
Qed.

Lemma hasCycle_loop_true (fuel : nat) (tasks : list TaskInput) (st : DfsState) :
  hasCycle_loop fuel taskMap tasks st = Some true ->
  finished_ok taskMap st -> snd st = ∅ ->
  (forall t, In t tasks -> is_Some (taskMap !! in_id t)) ->
  exists c, tc edge c c.
Proof.
  revert st. induction tasks as [|t tasks IH]; intros st Hloop Hok Hs Hknown;
    [done|].
  simpl in Hloop.
  assert (forall u, In u tasks -> is_Some (taskMap !! in_id u)) as Hknown'
    by (intros u Hu; apply Hknown; by right).
  assert (is_Some (taskMap !! in_id t)) as Hkt by (apply Hknown; by left).
  destruct (decide (in_id t ∈ fst st)) as [Hin|Hni].
  - rewrite (bool_decide_eq_true_2 _ Hin) in Hloop. by apply (IH st).
  - rewrite (bool_decide_eq_false_2 _ Hni) in Hloop.
    destruct (dfs fuel taskMap (in_id t) st) as [[[|] st1]|] eqn:Hdfs; [| |done].
    + apply (dfs_true _ _ _ _ Hdfs Hni Hok Hkt).
      intros g Hg. rewrite Hs in Hg. set_solver.
    + destruct (dfs_false taskMap fuel _ _ _ Hdfs Hni Hok) as (_ & Hok1 & Hk & _).
      destruct (Hk Hkt) as [Heq _]. apply (IH st1); try done. congruence.
Qed.

End DfsComplete.

(* hasCycle returns true only for a task map with an unknown dependency or
   with a cycle *)
Lemma hasCycle_true (stack : nat) (tasks : list TaskInput) :
  hasCycle stack tasks = Some true ->
  (forall a task, taskMapOf tasks !! a = Some task ->
     forall d, In d (in_dependsOn task) -> is_Some (taskMapOf tasks !! d)) ->
  exists c, tc (dependsOnId (taskMapOf tasks)) c c.
Proof.
  intros Hc Hknown. unfold hasCycle in Hc.
  eapply hasCycle_loop_true; [exact Hknown|exact Hc|apply finished_ok_empty|done|].
  intros t Ht. by apply taskMapOf_known.
Qed.

Lemma unknownDependencies_nil (tasks : list TaskInput) :
  unknownDependencies tasks = []
  <-> forall t, In t tasks -> forall d, In d (in_dependsOn t) ->
        In d (map in_id tasks).
Proof.
  unfold unknownDependencies. cbv zeta.
  set (ids := list_to_set (map in_id tasks) : gset string).
  assert (forall d, d ∈ ids <-> In d (map in_id tasks)) as Hids.
  { intros d. unfold ids. rewrite elem_of_list_to_set. apply list_elem_of_In. }
  clearbody ids. revert Hids. generalize (map in_id tasks). intros l Hl.
  induction tasks as [|t tasks IH]; simpl.
  - split; [by intros _ t []|done].
  - split.
    + intros H. apply app_eq_nil in H as [H1 H2].
      intros u [<-|Hu]; [|by apply (proj1 IH H2)].
      clear -H1 Hl. induction (in_dependsOn t) as [|d ds IHd]; [by intros d []|].
      simpl in H1. apply app_eq_nil in H1 as [H1 H3].
      intros d' [<-|Hd'].
      * destruct (decide (d ∈ ids)) as [Hin|Hni]; [by apply Hl|].
        by rewrite (bool_decide_eq_false_2 _ Hni) in H1.
      * by apply IHd.
    + intros H.
      rewrite (proj2 IH); [|intros u Hu; apply H; by right].
      rewrite app_nil_r.
      assert (forall d, In d (in_dependsOn t) -> In d l) as Ht
        by (apply H; by left).
      clear -Ht Hl. induction (in_dependsOn t) as [|d ds IHd]; [done|].
      simpl. rewrite bool_decide_eq_true_2; [|apply Hl, Ht; by left].
      simpl. apply IHd. intros d' Hd'. apply Ht. by right.
Qed.

Lemma all_known_of_list (tasks : list TaskInput) :
  (forall t, In t tasks -> forall d, In d (in_dependsOn t) ->
     In d (map in_id tasks)) ->
  forall a task, taskMapOf tasks !! a = Some task ->
    forall d, In d (in_dependsOn task) -> is_Some (taskMapOf tasks !! d).
Proof.
  intros H a task Hk d Hd. apply taskMapOf_Some in Hk as [Hin _].
  apply (H _ Hin) in Hd. apply in_map_iff in Hd as (u & <- & Hu).
  by apply taskMapOf_known.
Qed.

Lemma validateDependencies_inr (stack : nat) (tasks : list TaskInput) :
  validateDependencies stack tasks = Some (inr tt)
  <-> unknownDependencies tasks = [] /\ hasCycle stack tasks = Some false.
Proof.
  unfold validateDependencies.
  destruct (hasCycle stack tasks) as [[|]|]; cbv zeta.
  - split; [|by intros [_ ?]].
    destruct (unknownDependencies tasks); simpl; discriminate.
  - rewrite app_nil_r. destruct (unknownDependencies tasks); simpl.
    + done.
    + split; [discriminate|by intros [? _]].
  - split; [discriminate|by intros [_ ?]].
Qed.

Lemma validateDependencies_inl (stack : nat) (tasks : list TaskInput)
    (msg : string) :
  validateDependencies stack tasks = Some (inl msg) ->
  unknownDependencies tasks <> [] \/ hasCycle stack tasks = Some true.
Proof.
  unfold validateDependencies.
  destruct (hasCycle stack tasks) as [[|]|]; cbv zeta; [by right| |done].
  rewrite app_nil_r. destruct (unknownDependencies tasks); [done|by left].
Qed.

Lemma validateDependencies_sound (stack : nat) (tasks : list TaskInput) :
  validateDependencies stack tasks = Some (inr tt) -> validTemplate tasks.
Proof.
  rewrite validateDependencies_inr, unknownDependencies_nil.
  intros [Hdeps Hc]. split; [done|]. by eapply hasCycle_false.
Qed.

Lemma validateDependencies_rejects (stack : nat) (tasks : list TaskInput)
    (msg : string) :
  validateDependencies stack tasks = Some (inl msg) -> ~ validTemplate tasks.
Proof.
  intros Hv [Hdeps Hacyc].
  destruct (validateDependencies_inl stack tasks msg Hv) as [Hu|Hc].
  - by apply Hu, unknownDependencies_nil.
  - destruct (hasCycle_true stack tasks Hc (all_known_of_list tasks Hdeps))
      as [c Hcyc].
    by destruct (Hacyc c).
Qed.

Lemma validateDependencies_total (stack : nat) (tasks : list TaskInput) :
  (size (taskMapOf tasks) < stack)%nat ->
  is_Some (validateDependencies stack tasks).
Proof.
  intros Hs. unfold validateDependencies.
  destruct (hasCycle_total stack tasks Hs) as [b ->]. cbv zeta.
  by destruct (_ ++ _).
Qed.

(** X12: whatever room the call stack has, when validateDependencies
    returns without throwing every id in a task's dependsOn is the id of a
    task of the list and the dependsOn relation of the task map (where a
    later task with the same id replaces an earlier one) has no cycle, and
    when it throws its validation Error one of the two fails.  When the stack
    has room for more nested calls of dfs than there are distinct task ids,
    the recursion does not overflow: validateDependencies terminates without
    RangeError and returns exactly for the valid lists. *)
Theorem validateDependencies_accepts_exactly_valid_graphs (stack : nat)
    (tasks : list TaskInput) :
  (validateDependencies stack tasks = Some (inr tt) -> validTemplate tasks)
  /\ (forall msg, validateDependencies stack tasks = Some (inl msg) ->
                  ~ validTemplate tasks)
  /\ ((size (taskMapOf tasks) < stack)%nat ->
      is_Some (validateDependencies stack tasks)
      /\ (validateDependencies stack tasks = Some (inr tt)
          <-> validTemplate tasks)).
Proof.
  split; [apply validateDependencies_sound|].
  split; [apply validateDependencies_rejects|].
  intros Hs. pose proof (validateDependencies_total stack tasks Hs) as Ht.
  split; [exact Ht|]. split; [apply validateDependencies_sound|].
  intros Hvalid. destruct Ht as [[msg|[]] Hv]; [|exact Hv].
  by destruct (validateDependencies_rejects stack tasks msg Hv).
Qed.

Lemma validateDependencies_accepts_exactly_valid_graphs_witness :
  (size (taskMapOf fan_out) < 4)%nat
  /\ validateDependencies 4 fan_out = Some (inr tt)
  /\ validTemplate fan_out.
Proof.
  assert (size (taskMapOf fan_out) < 4)%nat as Hs.
  { apply (bool_decide_unpack _). vm_compute. exact I. }
  assert (validateDependencies 4 fan_out = Some (inr tt)) as Hv
    by (vm_compute; reflexivity).
  split; [exact Hs|]. split; [exact Hv|].
  destruct (validateDependencies_accepts_exactly_valid_graphs 4 fan_out)
    as (_ & _ & Hiff).
  apply (proj2 (Hiff Hs)). exact Hv.
Defined.

Lemma taskMapOf_None (tasks : list TaskInput) (d : string) :
  taskMapOf tasks !! d = None -> ~ In d (map in_id tasks).
Proof.
  intros Hnone Hin. apply in_map_iff in Hin as (u & <- & Hu).
  destruct (taskMapOf_known tasks u Hu) as [x Hx]. congruence.
Qed.

Lemma In_unknownDependencies (tasks : list TaskInput) (task : TaskInput)
    (d : string) :
  In task tasks -> In d (in_dependsOn task) -> ~ In d (map in_id tasks) ->
  In (unknownLine (in_id task) d) (unknownDependencies tasks).
Proof.
  intros Ht Hd Hni. unfold unknownDependencies. cbv zeta.
  apply in_flat_map. exists task. split; [exact Ht|].
  apply in_flat_map. exists d. split; [exact Hd|].
  rewrite bool_decide_eq_false_2; [by left|].
  rewrite elem_of_list_to_set, list_elem_of_In. exact Hni.
Qed.



(* A chain of dependencies deeper than the call stack *)

Lemma taskMapOf_unique (tasks : list TaskInput) (t : TaskInput) :
  NoDup (map in_id tasks) -> In t tasks -> taskMapOf tasks !! in_id t = Some t.
Proof.
  intros Hnd Hin. destruct (taskMapOf_known tasks t Hin) as [u Hu].
  rewrite Hu. f_equal. pose proof Hu as Hu'.
  apply taskMapOf_Some in Hu' as [Hinu Hid].
  by apply (NoDup_in_id_inj tasks u t).
Qed.

Lemma ids_dependencyChain (ids : list string) :
  map in_id (dependencyChain ids) = ids.
Proof. induction ids as [|x ids IH]; simpl; [done|]. by rewrite IH. Qed.

Lemma linked_dependencyChain (taskMap : gmap string TaskInput)
    (ids : list string) :
  (forall t, In t (dependencyChain ids) -> taskMap !! in_id t = Some t) ->
  linked taskMap ids.
Proof.
  induction ids as [|x ids IH]; [done|]. intros HM.
  destruct ids as [|y ids']; [done|]. split.
  - eexists. split; [apply (HM _ (or_introl eq_refl))|done].
  - apply IH. intros t Ht. apply HM. by right.
Qed.

Lemma dfs_overflows (taskMap : gmap string TaskInput) (fuel : nat)
    (x : string) (ids : list string) (st : DfsState) :
  linked taskMap (x :: ids) -> NoDup (x :: ids) ->
  (forall z, In z (x :: ids) -> z ∉ fst st) ->
  (fuel < length (x :: ids))%nat ->
  dfs fuel taskMap x st = None.
Proof.
  revert x ids st.
  induction fuel as [|fuel IH]; intros x ids st Hl Hnd Hfresh Hlen; [done|].
  destruct ids as [|y ids']; [simpl in Hlen; lia|].
  destruct Hl as [(t & Hk & Hdeps) Hl'].
  apply NoDup_cons in Hnd as [Hx Hnd'].
  cbn [dfs]. cbv zeta. rewrite Hk, Hdeps.
  assert (forall z, In z (y :: ids') -> z ∉ {[x]} ∪ fst st) as Hfresh'.
  { intros z Hz Hin. apply elem_of_union in Hin as [Hin|Hin].
    - apply elem_of_singleton in Hin as ->. apply Hx. by apply list_elem_of_In.
    - apply (Hfresh z); [by right|done]. }
  cbn [dfs_loop]. cbv zeta. cbn [fst].
  rewrite bool_decide_eq_false_2 by (apply Hfresh'; by left).
  rewrite (IH y ids' ({[x]} ∪ fst st, {[x]} ∪ snd st) Hl' Hnd' Hfresh');
    [done|].
  simpl in Hlen |- *. lia.
Qed.

Lemma dependencyChain_next (ids : list string) (t : TaskInput) (b : string) :
  In t (dependencyChain ids) -> In b (in_dependsOn t) ->
  exists i, ids !! i = Some (in_id t) /\ ids !! S i = Some b.
Proof.
  induction ids as [|x ids IH]; simpl; [done|].
  intros [<-|Hin] Hb.
  - simpl in Hb. destruct ids as [|y ids']; [done|].
    destruct Hb as [<-|[]]. by exists 0%nat.
  - destruct (IH Hin Hb) as (i & H1 & H2). by exists (S i).
Qed.

Lemma dependencyChain_valid (ids : list string) :
  NoDup ids -> validTemplate (dependencyChain ids).
Proof.
  intros Hnd. split.
  - intros t Ht d Hd. rewrite ids_dependencyChain.
    destruct (dependencyChain_next ids t d Ht Hd) as (i & _ & Hi).
    apply list_elem_of_In. by eapply list_elem_of_lookup_2.
  - assert (forall a b, tc (dependsOnId (taskMapOf (dependencyChain ids))) a b ->
              exists i j, ids !! i = Some a /\ ids !! j = Some b /\ (i < j)%nat)
      as Hbefore.
    { intros a b Htc. induction Htc as [a b Hab|a b c Hab _ IH].
      - destruct Hab as (t & Hk & Hb). apply taskMapOf_Some in Hk as [Ht <-].
        destruct (dependencyChain_next ids t b Ht Hb) as (i & H1 & H2).
        exists i, (S i). split; [done|]. split; [done|lia].
      - destruct Hab as (t & Hk & Hb). apply taskMapOf_Some in Hk as [Ht <-].
        destruct (dependencyChain_next ids t b Ht Hb) as (i & H1 & H2).
        destruct IH as (j & k & Hj & Hk & Hlt).
        pose proof (NoDup_lookup ids _ _ b Hnd H2 Hj) as <-.
        exists i, k. split; [done|]. split; [done|lia]. }
    intros a Hcyc. destruct (Hbefore a a Hcyc) as (i & j & Hi & Hj & Hlt).
    pose proof (NoDup_lookup ids _ _ a Hnd Hi Hj). lia.
Qed.

(** X19: a valid template can make validateDependencies fail: for a chain
    of tasks with distinct ids, each depending on the next and listed from
    the head, that is longer than the number of nested calls of dfs the
    call stack has room for, the recursion of dfs overflows and hasCycle and
    validateDependencies end in RangeError, although every dependency is
    known and there is no cycle. *)
Theorem deep_chain_overflows (stack : nat) (ids : list string) :
  NoDup ids -> (stack < length ids)%nat ->
  validTemplate (dependencyChain ids)
  /\ hasCycle stack (dependencyChain ids) = None
  /\ validateDependencies stack (dependencyChain ids) = None.
Proof.
  intros Hnd Hlen. split; [by apply dependencyChain_valid|].
  assert (hasCycle stack (dependencyChain ids) = None) as Hc.
  { assert (linked (taskMapOf (dependencyChain ids)) ids) as Hl.
    { apply linked_dependencyChain. intros t Ht.
      apply taskMapOf_unique; [|done]. by rewrite ids_dependencyChain. }
    unfold hasCycle. revert Hl. generalize (taskMapOf (dependencyChain ids)).
    intros taskMap Hl.
    destruct ids as [|x ids']; [simpl in Hlen; lia|].
    cbn [dependencyChain hasCycle_loop]. cbn [in_id fst].
    rewrite bool_decide_eq_false_2 by set_solver.
    rewrite (dfs_overflows taskMap stack x ids' (∅, ∅));
      [done|done|done|set_solver|done]. }
  split; [exact Hc|]. unfold validateDependencies. by rewrite Hc.
Qed.

Lemma deep_chain_overflows_witness :
  validTemplate (dependencyChain ["A"; "B"; "C"])
  /\ validateDependencies 2 (dependencyChain ["A"; "B"; "C"]) = None
  /\ validateDependencies 4 (dependencyChain ["A"; "B"; "C"]) = Some (inr tt).
Proof.
  assert (NoDup ["A"; "B"; "C"]) as Hnd.
  { apply (bool_decide_unpack _). vm_compute. exact I. }
  assert (2 < length ["A"; "B"; "C"])%nat as Hlen by (simpl; lia).
  destruct (deep_chain_overflows 2 ["A"; "B"; "C"] Hnd Hlen) as (Hv & _ & Ho).
  split; [exact Hv|]. split; [exact Ho|]. vm_compute. reflexivity.
Defined.

(* --------------------------------------------------------------------- *)
(* From the template to the queue: retries and timeout                   *)
(* --------------------------------------------------------------------- *)

Lemma loaded_inputs (cfg : Config) (name : string) (inputs : list TaskInput)
    (now : string) (t : Task) :
  In t (tasks (loaded cfg name inputs now)) -> In (input t) inputs.
Proof.
  intros Hin. destruct (loaded_ok cfg name inputs now) as (_ & HV & _).
  destruct (In_getTask _ t Hin) as [u Hu].
  assert (t = u) as <-
    by (eapply unique_getTask; [apply HV|exact Hu|exact Hin|done]).
  pose proof (lookup_loaded cfg name inputs now (task_id t)) as Hl.
  rewrite Hu in Hl. simpl in Hl. symmetry in Hl.
  apply find_some in Hl as [Hl _]. by apply in_rev.
Qed.

Lemma reachable_inputs (cfg : Config) (name : string) (inputs : list TaskInput)
    (now : string) (s : State) (t : Task) :
  reachable cfg name inputs now s -> In t (tasks s) -> In (input t) inputs.
Proof.
  intros [acts Hrun] Hin.
  destruct (transitions_run cfg acts _ s Hrun) as [Ht _ _].
  destruct (Forall2_In_r _ _ _ t Ht Hin) as (t0 & Hin0 & Htr).
  rewrite (task_tr_input _ _ _ Htr). by apply (loaded_inputs cfg name _ now).
Qed.

(** X14: for a run loaded from the tasks parseTemplate builds, every task
    carries a retry limit of its own (its `retries`, or else the `retries`
    of the template's defaults), so the maxRetries argument of markFailed
    (default 2) never decides anything: markFailed does the same for every
    value of it.  The timeout armed for a task is likewise the template's,
    unless that is 0, when the configured defaultTimeout is taken. *)
Theorem parsed_tasks_use_template_retries (cfg : Config) (name : string)
    (d : Defaults) (tts : list TemplateTask) (now : string) (s : State) :
  reachable cfg name (map (toTaskInput d) tts) now s ->
  (forall t, In t (tasks s) ->
     exists tt, In tt tts /\ task_id t = tt_id tt
       /\ (forall maxRetries,
             retryLimit t maxRetries = nullish (tt_retries tt) (d_retries d))
       /\ timeoutOf cfg (input t)
          = if nullish (tt_timeout tt) (d_timeout d) =? 0 then defaultTimeout cfg
            else nullish (tt_timeout tt) (d_timeout d))
  /\ forall id err m1 m2, markFailed cfg id err m1 s = markFailed cfg id err m2 s.
Proof.
  intros Hr.
  assert (forall t, In t (tasks s) ->
            exists tt, In tt tts /\ input t = toTaskInput d tt) as Hin.
  { intros t Ht. apply (reachable_inputs cfg name _ now s t Hr) in Ht.
    apply in_map_iff in Ht as (tt & Heq & Htt). eauto. }
  split.
  - intros t Ht. destruct (Hin t Ht) as (tt & Htt & Heq). exists tt.
    split; [done|]. split; [by unfold task_id; rewrite Heq|]. split.
    + intros m. unfold retryLimit, retries. by rewrite Heq.
    + unfold timeoutOf. by rewrite Heq.
  - intros id err m1 m2. unfold markFailed.
    destruct (getTask id s) as [t|] eqn:Hg; [|done].
    apply getTask_Some in Hg as [Ht _].
    destruct (Hin t Ht) as (tt & _ & Heq).
    unfold retryLimit, retries. by rewrite Heq.
Qed.

Lemma parsed_tasks_use_template_retries_witness :
  reachable cfg_one "plan" (map (toTaskInput template_defaults) template_tasks)
    "t0"
    (loaded cfg_one "plan" (map (toTaskInput template_defaults) template_tasks)
       "t0")
  /\ forall id err m1 m2,
       markFailed cfg_one id err m1
         (loaded cfg_one "plan"
            (map (toTaskInput template_defaults) template_tasks) "t0")
       = markFailed cfg_one id err m2
           (loaded cfg_one "plan"
              (map (toTaskInput template_defaults) template_tasks) "t0").
Proof.
  assert (reachable cfg_one "plan"
            (map (toTaskInput template_defaults) template_tasks) "t0"
            (loaded cfg_one "plan"
               (map (toTaskInput template_defaults) template_tasks) "t0")) as Hr.
  { exists []. reflexivity. }
  split; [exact Hr|].
  apply (parsed_tasks_use_template_retries cfg_one "plan" template_defaults
           template_tasks "t0" _ Hr).
Defined.

(* --------------------------------------------------------------------- *)
(* A dispatch round                                                      *)
(* --------------------------------------------------------------------- *)

Lemma StronglySorted_app_inv {A : Type} (R : A -> A -> Prop) (l1 l2 : list A) :
  StronglySorted R (l1 ++ l2) ->
  forall a b, In a l1 -> In b l2 -> R a b.
Proof.
  induction l1 as [|x l1 IH]; simpl; intros Hs a b Ha Hb; [done|].
  apply StronglySorted_inv in Hs as [Hs Hx].
  destruct Ha as [<-|Ha]; [|by apply IH].
  rewrite List.Forall_forall in Hx. apply Hx. apply in_or_app. by right.
Qed.

(** X15: a dispatch round of a running orchestrator with free slots takes
    the first min(free slots, number of ready tasks) entries of
    getReadyTasks(): only tasks of the table that are `ready`, and no ready
    task that is left behind has a higher priority than one that is taken. *)
Theorem trySpawnAgents_dispatches_by_priority (cfg : Config) (s : State) :
  isRunning s = true ->
  0 < maxConcurrent cfg - Z.of_nat (size (activeAgents s)) ->
  let slots := Z.to_nat (maxConcurrent cfg - Z.of_nat (size (activeAgents s))) in
  let taken := firstn slots (getReadyTasks s) in
  let left := skipn slots (getReadyTasks s) in
  trySpawnAgents cfg s = spawnLoop (map input taken) s
  /\ length taken = Nat.min slots (length (getReadyTasks s))
  /\ (forall t, In t taken -> In t (tasks s) /\ status t = ready)
  /\ (forall u, In u (tasks s) -> status u = ready -> In u taken \/ In u left)
  /\ (forall t u, In t taken -> In u left -> priority u <= priority t).
Proof.
  intros Hrun Hslots slots taken left.
  split; [|split; [|split; [|split]]].
  - unfold trySpawnAgents. rewrite Hrun. simpl.
    destruct (Z.leb_spec (maxConcurrent cfg - Z.of_nat (size (activeAgents s))) 0);
      [lia|done].
  - apply length_firstn.
  - intros t Ht. apply In_getReadyTasks. by eapply In_firstn.
  - intros u Hu Hst.
    assert (In u (getReadyTasks s)) as Hin by (by apply In_getReadyTasks).
    rewrite <- (firstn_skipn slots (getReadyTasks s)) in Hin.
    by apply in_app_or in Hin.
  - intros t u Ht Hu.
    pose proof (array_sort_descending priority
                  (List.filter is_ready (tasks s))) as Hsorted.
    unfold descending in Hsorted.
    change (array_sort _ _) with (getReadyTasks s) in Hsorted.
    rewrite <- (firstn_skipn slots (getReadyTasks s)) in Hsorted.
    by apply (StronglySorted_app_inv _ _ _ Hsorted t u).
Qed.

Lemma trySpawnAgents_dispatches_by_priority_witness :
  isRunning pair_A_pending = true
  /\ trySpawnAgents cfg_two pair_A_pending
     = spawnLoop
         (map input
            (firstn (Z.to_nat (maxConcurrent cfg_two
                               - Z.of_nat (size (activeAgents pair_A_pending))))
                    (getReadyTasks pair_A_pending)))
         pair_A_pending.
Proof.
  assert (isRunning pair_A_pending = true) as Hrun by (vm_compute; reflexivity).
  assert (0 < maxConcurrent cfg_two
              - Z.of_nat (size (activeAgents pair_A_pending))) as Hslots
    by (vm_compute; reflexivity).
  split; [exact Hrun|].
  exact (proj1 (trySpawnAgents_dispatches_by_priority cfg_two pair_A_pending
                  Hrun Hslots)).
Defined.

(* --------------------------------------------------------------------- *)
(* Timers and bindings                                                   *)
(* --------------------------------------------------------------------- *)

Section Timers.

Variable cfg : Config.

Lemma timeouts_updateReadyLoop (ids : list string) (s : State) :
  timeouts (updateReadyLoop cfg ids s) ⊆ timeouts s.
Proof.
  revert s. induction ids as [|id ids IH]; intros s; [done|].
  cbn [updateReadyLoop].
  destruct (getTask id s) as [task|]; [|apply IH].
  destruct (negb _); [apply IH|].
  destruct (negb _); [apply IH|].
  etrans; [apply IH|].
  apply (timers_emit cfg (taskReady id) (modifyTask id (set_status ready) s)).
Qed.

Lemma timeouts_markRunning (id agent : string) (s : State) :
  timeouts (markRunning cfg id agent s) ⊆ timeouts s.
Proof.
  unfold markRunning. destruct (getTask id s); [|done].
  apply (timers_emit cfg (taskStarted id) (modifyTask id _ s)).
Qed.

Lemma timeouts_markCompleted (id : string) (res : option string * option string)
    (chk : bool) (now : string) (s : State) :
  timeouts (markCompleted cfg id res chk now s) ⊆ timeouts s.
Proof.
  unfold markCompleted. destruct (getTask id s); [|done]. cbv zeta.
  set (s1 := set_completed_ids _ _).
  assert (timeouts (updateReadyTasks cfg (emit cfg (taskCompleted id) s1))
          ⊆ timeouts s) as H.
  { etrans; [apply timeouts_updateReadyLoop|].
    apply (timers_emit cfg (taskCompleted id) s1). }
  destruct chk; [|exact H].
  etrans; [apply timers_checkAllComplete|exact H].
Qed.

Lemma timers_bound_weaken (s s' : State) :
  timeouts s' ⊆ timeouts s -> activeAgents s' = activeAgents s ->
  timers_bound s -> timers_bound s'.
Proof.
  intros Hsub Heq Hb agent timer Ht. rewrite Heq.
  apply (Hb agent timer). by eapply lookup_weaken.
Qed.

Lemma clearTimeout_lookup (agent : string) (s : State) (a : string) (n : nat) :
  timeouts (clearTimeout agent s) !! a = Some n ->
  a <> agent /\ timeouts s !! a = Some n.
Proof.
  unfold clearTimeout. destruct (timeouts s !! agent) eqn:Hk; simpl.
  - intros H. by apply lookup_delete_Some in H as [? ?].
  - intros H. split; [|done]. intros ->. congruence.
Qed.

Lemma timers_bound_unbind (agent : string) (s s' : State) :
  timeouts s'
  ⊆ timeouts (clearTimeout agent
                (set_activeAgents (delete agent (activeAgents s)) s)) ->
  activeAgents s' = delete agent (activeAgents s) ->
  timers_bound s -> timers_bound s'.
Proof.
  intros Hsub Heq Hb a n Ha. rewrite Heq.
  eapply lookup_weaken in Ha; [|exact Hsub].
  apply clearTimeout_lookup in Ha as [Hne Ha]. simpl in Ha.
  rewrite lookup_delete_ne; [|done]. by apply (Hb a n).
Qed.

Lemma timers_bound_handleAgentComplete (agent : string)
    (target : option string * option string) (now : string) (s : State) :
  timers_bound s -> timers_bound (handleAgentComplete cfg agent target now s).
Proof.
  intros Hb. unfold handleAgentComplete.
  destruct (truthy_string _) as [taskId|] eqn:Hk; [|done]. cbv zeta.
  eapply (timers_bound_unbind agent); [| |exact Hb].
  - rewrite timeouts_trySpawnAgents. apply timeouts_markCompleted.
  - by frame_simpl.
Qed.

Lemma timers_bound_handleAgentFailed (agent err : string) (s : State) :
  timers_bound s -> timers_bound (handleAgentFailed cfg agent err s).
Proof.
  intros Hb. unfold handleAgentFailed.
  destruct (truthy_string _) as [taskId|] eqn:Hk; [|done]. cbv zeta.
  eapply (timers_bound_unbind agent); [| |exact Hb].
  - rewrite timeouts_trySpawnAgents.
    etrans; [apply timers_markFailed|]. done.
  - by frame_simpl.
Qed.

Lemma timers_bound_spawnAgent_created (task : TaskInput) (rest : list TaskInput)
    (agent : string) (s : State) :
  timers_bound s -> timers_bound (spawnAgent_created cfg task rest agent s).
Proof.
  intros Hb a n. unfold spawnAgent_created. cbv zeta. frame_simpl.
  destruct (decide (a = agent)) as [->|Hne].
  - intros _. rewrite lookup_insert_eq. by eexists.
  - rewrite !lookup_insert_ne by done. intros Ha.
    eapply lookup_weaken in Ha; [|apply timeouts_markRunning].
    by apply (Hb a n).
Qed.

Lemma timers_bound_spawnAgent_threw (task : TaskInput) (rest : list TaskInput)
    (message : string) (s : State) :
  timers_bound s -> timers_bound (spawnAgent_threw cfg task rest message s).
Proof.
  apply timers_bound_weaken; unfold spawnAgent_threw; frame_simpl.
  - apply timers_markFailed.
  - done.
Qed.

Lemma timers_bound_step (a : Action) (s s' : State) :
  timers_bound s -> step cfg a s = Some s' -> timers_bound s'.
Proof.
  intros Hb. destruct a; simpl.
  - unfold start. destruct (isRunning s); intros [= <-]; [done|].
    eapply timers_bound_weaken; [| |exact Hb]; by frame_simpl.
  - intros [= <-]. intros a n.
    destruct (stop_fields s) as (_ & _ & _ & -> & _). by rewrite lookup_empty.
  - unfold sendFollowUp.
    destruct (getTask taskId s); [|by intros [= <-]].
    destruct (truthy_string _); by intros [= <-].
  - destruct (suspended s !! k) as [[| |]|]; try done. intros [= <-].
    by apply timers_bound_spawnAgent_created.
  - destruct (suspended s !! k) as [[| |]|]; try done. intros [= <-].
    by apply timers_bound_spawnAgent_threw.
  - destruct (suspended s !! k) as [[| |]|]; try done; intros [= <-];
      (eapply timers_bound_weaken; [| |exact Hb]; by frame_simpl).
  - destruct (hasStateStore cfg); [|done].
    destruct (suspended s !! k) as [[| |]|]; try done; intros [= <-].
    + done.
    + by apply timers_bound_spawnAgent_threw.
  - intros [= <-]. destruct sg; simpl.
    + by apply timers_bound_handleAgentComplete.
    + by apply timers_bound_handleAgentFailed.
    + by apply timers_bound_handleAgentFailed.
    + done.
  - destruct (armed s !! timer); [|done]. intros [= <-].
    unfold timeoutCallback. simpl.
    destruct (activeAgents s !! _); [|done].
    by apply timers_bound_handleAgentFailed.
Qed.

Lemma timers_bound_run (acts : list Action) (s s' : State) :
  timers_bound s -> run cfg acts s = Some s' -> timers_bound s'.
Proof.
  revert s. induction acts as [|a acts IH]; intros s Hb; simpl.
  - by intros [= <-].
  - destruct (step cfg a s) as [s1|] eqn:Hs; [|done].
    apply IH. by eapply timers_bound_step.
Qed.

End Timers.

Lemma timeouts_loaded (cfg : Config) (name : string) (inputs : list TaskInput)
    (now : string) :
  timeouts (loaded cfg name inputs now) = ∅.
Proof.
  assert (forall s, timeouts (fold_left (addTasks_each cfg now) inputs s)
                    ⊆ timeouts s) as Hfold.
  { induction inputs as [|i inputs IH]; intros s; simpl; [done|].
    etrans; [apply IH|]. unfold addTasks_each. cbv zeta.
    destruct (truthy_flag _); [|done].
    etrans; [apply timeouts_markCompleted|]. done. }
  apply map_eq. intros a. rewrite lookup_empty.
  destruct (timeouts (loaded cfg name inputs now) !! a) as [n|] eqn:Ha; [|done].
  unfold loaded, loadTasks, addTasks in Ha.
  eapply lookup_weaken in Ha; [|apply timeouts_updateReadyLoop].
  eapply lookup_weaken in Ha; [|apply Hfold].
  simpl in Ha. by rewrite lookup_empty in Ha.
Qed.

(** X16: in every state of a run an entry of the `timeouts` map belongs to
    an agent that is bound in `activeAgents`: once the binding of an agent is
    gone (its task completed, failed or timed out) no timeout entry is kept
    for it. *)
Theorem timeouts_only_for_bound_agents (cfg : Config) (name : string)
    (inputs : list TaskInput) (now : string) (s : State) (agent : string) :
  reachable cfg name inputs now s ->
  activeAgents s !! agent = None -> timeouts s !! agent = None.
Proof.
  intros [acts Hrun] Hnone.
  assert (timers_bound s) as Hb.
  { eapply timers_bound_run; [|exact Hrun].
    intros a n. by rewrite timeouts_loaded, lookup_empty. }
  destruct (timeouts s !! agent) as [n|] eqn:Ht; [|done].
  destruct (Hb agent n Ht) as [x Hx]. congruence.
Qed.

Lemma timeouts_only_for_bound_agents_witness :
  reachable cfg_one "plan" fan_out "t0" fan_out_A_completed
  /\ activeAgents fan_out_A_completed !! "a1" = None
  /\ timeouts fan_out_A_completed !! "a1" = None.
Proof.
  assert (reachable cfg_one "plan" fan_out "t0" fan_out_A_completed) as Hr.
  { exists [Start; SaveResolved 0; CreateAgentResolved 0 "a1"; SaveResolved 0;
            Signalled (sig_completed "a1" None None) "t1"].
    vm_compute; reflexivity. }
  assert (activeAgents fan_out_A_completed !! "a1" = None) as Hn
    by (vm_compute; reflexivity).
  split; [exact Hr|]. split; [exact Hn|].
  apply (timeouts_only_for_bound_agents cfg_one "plan" fan_out "t0"
           fan_out_A_completed "a1" Hr Hn).
Defined.

(* --------------------------------------------------------------------- *)
(* What bindings and suspended dispatch loops refer to                   *)
(* --------------------------------------------------------------------- *)

Lemma dispatches_refl (s : State) : dispatches s s.
Proof. split; [done|]. intros c Hc. by left. Qed.

Lemma dispatches_same (s s' : State) :
  map input (tasks s') = map input (tasks s) -> suspended s' = suspended s ->
  dispatches s s'.
Proof. intros Ht Hs. split; [done|]. intros c Hc. left. by rewrite <- Hs. Qed.

Lemma dispatches_trans (s1 s2 s3 : State) :
  dispatches s1 s2 -> dispatches s2 s3 -> dispatches s1 s3.
Proof.
  intros [Ht1 Hs1] [Ht2 Hs2]. split; [congruence|].
  intros c Hc. destruct (Hs2 c Hc) as [Hc2|Hb]; [by apply Hs1|].
  right. intros i Hi. rewrite <- Ht1. by apply Hb.
Qed.

Lemma dispatches_modify (id : string) (f : Task -> Task) (s : State) :
  keeps_id f -> dispatches s (modifyTask id f s).
Proof.
  intros Hf. apply dispatches_same; [|done]. by apply tasks_modifyTask_input.
Qed.

Lemma dispatches_spawnLoop (batch : list TaskInput) (s : State) :
  (forall i, In i batch -> In i (map input (tasks s))) ->
  dispatches s (spawnLoop batch s).
Proof.
  destruct batch as [|t rest]; [intros _; apply dispatches_refl|].
  intros Hb. split; [done|]. simpl. intros c Hc.
  apply in_app_or in Hc as [Hc|[<-|[]]]; [by left|by right].
Qed.

Section Dispatches.

Variable cfg : Config.

Lemma dispatches_trySpawnAgents (s : State) : dispatches s (trySpawnAgents cfg s).
Proof.
  unfold trySpawnAgents.
  destruct (negb (isRunning s)); [apply dispatches_refl|].
  destruct (_ <=? 0); [apply dispatches_refl|].
  apply dispatches_spawnLoop. intros i Hi.
  apply in_map_iff in Hi as (t & <- & Ht). apply in_map.
  apply In_firstn in Ht. by apply In_getReadyTasks in Ht as [Hin _].
Qed.

Lemma dispatches_listener (e : QueueEvent) (s : State) :
  dispatches s (listener cfg e s).
Proof.
  destruct e; simpl.
  - apply dispatches_trySpawnAgents.
  - apply dispatches_refl.
  - apply dispatches_same; by frame_simpl.
  - apply dispatches_same; by frame_simpl.
  - apply dispatches_same; by frame_simpl.
  - destruct (hasStateStore cfg); by apply dispatches_same.
Qed.

Lemma dispatches_emit (e : QueueEvent) (s : State) : dispatches s (emit cfg e s).
Proof.
  unfold emit. eapply dispatches_trans; [|apply dispatches_listener].
  by apply dispatches_same.
Qed.

Lemma dispatches_updateReadyLoop (ids : list string) (s : State) :
  dispatches s (updateReadyLoop cfg ids s).
Proof.
  revert s. induction ids as [|id ids IH]; intros s; [apply dispatches_refl|].
  cbn [updateReadyLoop].
  destruct (getTask id s); [|apply IH].
  destruct (negb _); [apply IH|]. destruct (negb _); [apply IH|].
  eapply dispatches_trans; [|apply IH].
  eapply dispatches_trans; [|apply dispatches_emit].
  apply dispatches_modify, keeps_id_set_status.
Qed.

Lemma dispatches_checkAllComplete (s : State) :
  dispatches s (checkAllComplete cfg s).
Proof.
  unfold checkAllComplete.
  destruct (forallb _ _); [apply dispatches_emit|apply dispatches_refl].
Qed.

Lemma dispatches_markRunning (id agent : string) (s : State) :
  dispatches s (markRunning cfg id agent s).
Proof.
  unfold markRunning. destruct (getTask id s); [|apply dispatches_refl].
  eapply dispatches_trans; [|apply dispatches_emit].
  apply dispatches_modify. by intros ?.
Qed.

Lemma dispatches_markCompleted (id : string) (res : option string * option string)
    (chk : bool) (now : string) (s : State) :
  dispatches s (markCompleted cfg id res chk now s).
Proof.
  unfold markCompleted. destruct (getTask id s); [|apply dispatches_refl].
  cbv zeta. set (s1 := set_completed_ids _ _).
  assert (dispatches s s1) as H1.
  { apply dispatches_same; [|done].
    apply (tasks_modifyTask_input id _ s). by intros ?. }
  assert (dispatches s (updateReadyTasks cfg (emit cfg (taskCompleted id) s1)))
    as H2.
  { eapply dispatches_trans; [exact H1|].
    eapply dispatches_trans; [apply dispatches_emit|].
    apply dispatches_updateReadyLoop. }
  destruct chk; [|exact H2].
  eapply dispatches_trans; [exact H2|apply dispatches_checkAllComplete].
Qed.

Lemma dispatches_markFailed (id err : string) (m : Z) (s : State) :
  dispatches s (markFailed cfg id err m s).
Proof.
  unfold markFailed. destruct (getTask id s) as [task|]; [|apply dispatches_refl].
  cbv zeta.
  assert (dispatches s (modifyTask id (set_error (Some err)) s)) as H1
    by apply dispatches_modify, keeps_id_set_error.
  destruct (_ <? _).
  - eapply dispatches_trans; [exact H1|].
    eapply dispatches_trans; [|apply dispatches_emit].
    apply dispatches_modify, keeps_id_set_status.
  - eapply dispatches_trans; [exact H1|].
    eapply dispatches_trans; [|apply dispatches_checkAllComplete].
    eapply dispatches_trans; [|apply dispatches_emit].
    apply dispatches_modify, keeps_id_set_status.
Qed.

Lemma dispatches_handleAgentComplete agent target now (s : State) :
  dispatches s (handleAgentComplete cfg agent target now s).
Proof.
  unfold handleAgentComplete.
  destruct (truthy_string _); [|apply dispatches_refl]. cbv zeta.
  eapply dispatches_trans; [|apply dispatches_trySpawnAgents].
  eapply dispatches_trans; [|apply dispatches_markCompleted].
  apply dispatches_same; by frame_simpl.
Qed.

Lemma dispatches_handleAgentFailed agent err (s : State) :
  dispatches s (handleAgentFailed cfg agent err s).
Proof.
  unfold handleAgentFailed.
  destruct (truthy_string _); [|apply dispatches_refl]. cbv zeta.
  eapply dispatches_trans; [|apply dispatches_trySpawnAgents].
  eapply dispatches_trans; [|apply dispatches_markFailed].
  apply dispatches_same; by frame_simpl.
Qed.

Lemma dispatches_spawnAgent_threw task rest message (s : State) :
  (forall i, In i rest -> In i (map input (tasks s))) ->
  dispatches s (spawnAgent_threw cfg task rest message s).
Proof.
  intros Hb. unfold spawnAgent_threw.
  pose proof (dispatches_markFailed (in_id task) message DEFAULT_MAX_RETRIES s)
    as H1.
  eapply dispatches_trans; [exact H1|].
  apply dispatches_spawnLoop. intros i Hi.
  rewrite (dsp_inputs _ _ H1). by apply Hb.
Qed.

Lemma dispatches_spawnAgent_created task rest agent (s : State) :
  (forall i, In i (task :: rest) -> In i (map input (tasks s))) ->
  dispatches s (spawnAgent_created cfg task rest agent s).
Proof.
  intros Hb. unfold spawnAgent_created. cbv zeta.
  set (s0 := set_activeAgents _ s).
  pose proof (dispatches_markRunning (in_id task) agent s0) as [Ht Hs].
  split.
  - by frame_simpl.
  - simpl. frame_simpl. intros c Hc.
    apply in_app_or in Hc as [Hc|[<-|[]]]; [by apply Hs|by right].
Qed.

Lemma In_resume (k : nat) (s : State) (c : Suspended) :
  In c (suspended (resume k s)) -> In c (suspended s).
Proof.
  simpl. intros Hin. apply list_elem_of_In in Hin. apply list_elem_of_In.
  by eapply list_elem_of_delete_inv.
Qed.

Lemma dispatches_resume (k : nat) (s : State) : dispatches s (resume k s).
Proof. split; [done|]. intros c Hc. left. by eapply In_resume. Qed.

Lemma held_lookup (k : nat) (c : Suspended) (s : State) :
  Held s -> suspended s !! k = Some c ->
  forall i, In i (batch_of c) -> In i (map input (tasks (resume k s))).
Proof.
  intros HH Hk i Hi. apply (held_batch s HH c i); [|exact Hi].
  apply list_elem_of_In. by eapply list_elem_of_lookup_2.
Qed.

Lemma dispatches_step (a : Action) (s s' : State) :
  Held s -> step cfg a s = Some s' -> dispatches s s'.
Proof.
  intros HH. destruct a; simpl.
  - unfold start. destruct (isRunning s); intros [= <-]; [apply dispatches_refl|].
    split; [by frame_simpl|]. simpl. frame_simpl. intros c Hc.
    apply in_app_or in Hc as [Hc|[<-|[]]]; [by left|right; by intros i []].
  - intros [= <-]. apply dispatches_same; [|apply stop_fields].
    by destruct (stop_fields s) as (-> & _).
  - unfold sendFollowUp.
    destruct (getTask taskId s); [|intros [= <-]; apply dispatches_refl].
    destruct (truthy_string _); intros [= <-];
      [by apply dispatches_same|apply dispatches_refl].
  - destruct (suspended s !! k) as [[| |]|] eqn:Hk; try done. intros [= <-].
    eapply dispatches_trans; [apply (dispatches_resume k)|].
    apply dispatches_spawnAgent_created. by apply (held_lookup k _ s HH Hk).
  - destruct (suspended s !! k) as [[| |]|] eqn:Hk; try done. intros [= <-].
    eapply dispatches_trans; [apply (dispatches_resume k)|].
    apply dispatches_spawnAgent_threw. intros i Hi.
    apply (held_lookup k _ s HH Hk). by right.
  - destruct (suspended s !! k) as [[| |]|] eqn:Hk; try done; intros [= <-];
      (eapply dispatches_trans; [apply (dispatches_resume k)|]).
    + apply dispatches_trySpawnAgents.
    + apply dispatches_spawnLoop. intros i Hi.
      apply (held_lookup k _ s HH Hk). by right.
  - destruct (hasStateStore cfg); [|done].
    destruct (suspended s !! k) as [[| |]|] eqn:Hk; try done; intros [= <-].
    + apply dispatches_resume.
    + eapply dispatches_trans; [apply (dispatches_resume k)|].
      apply dispatches_spawnAgent_threw. intros i Hi.
      apply (held_lookup k _ s HH Hk). by right.
  - intros [= <-]. destruct sg; simpl.
    + apply dispatches_handleAgentComplete.
    + apply dispatches_handleAgentFailed.
    + apply dispatches_handleAgentFailed.
    + apply dispatches_refl.
  - destruct (armed s !! timer); [|done]. intros [= <-].
    unfold timeoutCallback. simpl.
    destruct (activeAgents s !! _); [|by apply dispatches_same].
    eapply dispatches_trans; [|apply dispatches_handleAgentFailed].
    by apply dispatches_same.
Qed.

End Dispatches.

Lemma Forall2_In_l {A : Type} (R : A -> A -> Prop) (l l' : list A) (x : A) :
  Forall2 R l l' -> In x l -> exists y, In y l' /\ R x y.
Proof.
  induction 1 as [|a b l l' Hab _ IH]; simpl; [done|].
  intros [<-|Hin]; [exists b; auto|].
  destruct (IH Hin) as (y & ? & ?). exists y. auto.
Qed.

Lemma Held_later (s s' : State) :
  transitions s s' -> dispatches s s' ->
  (forall agent taskId,
      activeAgents s' !! agent = Some taskId ->
      activeAgents s !! agent = Some taskId
      \/ exists t', In t' (tasks s') /\ task_id t' = taskId /\ 1 <= attempts t') ->
  Held s -> Held s'.
Proof.
  intros [Ht _ _] [Hi Hs] Hb [H1 H2 H3]. split.
  - intros t' Hin. destruct (Forall2_In_r _ _ _ t' Ht Hin) as (t & Hin0 & Htr).
    pose proof (task_tr_attempts _ _ _ Htr). specialize (H1 t Hin0). lia.
  - intros agent taskId Hl. destruct (Hb agent taskId Hl) as [Hl0|?]; [|done].
    destruct (H2 agent taskId Hl0) as (t & Hin0 & Hid & Ha).
    destruct (Forall2_In_l _ _ _ t Ht Hin0) as (t' & Hin & Htr).
    exists t'. split; [done|]. split.
    + unfold task_id. by rewrite (task_tr_input _ _ _ Htr).
    + pose proof (task_tr_attempts _ _ _ Htr). lia.
  - intros c i Hc Hin. rewrite Hi.
    destruct (Hs c Hc) as [Hc0|Hnew]; [by eapply H3|by apply Hnew].
Qed.

Section HeldSteps.

Variable cfg : Config.

Lemma bound_spawnAgent_created task rest agent (s : State) :
  Held s -> In task (map input (tasks s)) ->
  forall a taskId,
    activeAgents (spawnAgent_created cfg task rest agent s) !! a = Some taskId ->
    activeAgents s !! a = Some taskId
    \/ exists t', In t' (tasks (spawnAgent_created cfg task rest agent s))
                  /\ task_id t' = taskId /\ 1 <= attempts t'.
Proof.
  intros HH Hin a taskId. unfold spawnAgent_created. cbv zeta. frame_simpl.
  destruct (decide (a = agent)) as [->|Hne];
    [|rewrite lookup_insert_ne by done; by left].
  rewrite lookup_insert_eq. intros [= <-]. right.
  apply in_map_iff in Hin as (t & Heq & Ht).
  set (s0 := set_activeAgents (<[agent:=in_id task]> (activeAgents s)) s).
  destruct (In_getTask s0 t Ht) as [u Hu].
  assert (task_id t = in_id task) as Hid by (unfold task_id; by rewrite Heq).
  rewrite Hid in Hu.
  assert (getTask (in_id task) (markRunning cfg (in_id task) agent s0)
          = Some (set_attempts (attempts u + 1)
                    (set_agentId (Some agent) (set_status running u)))) as Hg.
  { unfold markRunning. rewrite Hu, getTask_emit.
    apply (getTask_modifyTask_eq (in_id task)
             (fun t => set_attempts (attempts t + 1)
                         (set_agentId (Some agent) (set_status running t)))
             s0 u); [by intros ?|exact Hu]. }
  apply getTask_Some in Hg as [Hg1 Hg2]. eexists. split; [exact Hg1|].
  split; [exact Hg2|]. simpl.
  apply getTask_Some in Hu as [Hu _]. pose proof (held_attempts s HH u Hu). lia.
Qed.

Lemma bound_step (a : Action) (s s' : State) :
  Held s -> step cfg a s = Some s' ->
  forall agent taskId,
    activeAgents s' !! agent = Some taskId ->
    activeAgents s !! agent = Some taskId
    \/ exists t', In t' (tasks s') /\ task_id t' = taskId /\ 1 <= attempts t'.
Proof.
  intros HH. destruct a; simpl.
  - unfold start. destruct (isRunning s); intros [= <-] agent taskId;
      frame_simpl; by left.
  - intros [= <-] agent taskId.
    destruct (stop_fields s) as (_ & _ & -> & _). by left.
  - unfold sendFollowUp.
    destruct (getTask taskId s); [|intros [= <-]; by left].
    destruct (truthy_string _); intros [= <-]; by left.
  - destruct (suspended s !! k) as [[| |]|] eqn:Hk; try done. intros [= <-].
    assert (Held (resume k s)) as HH' by (by destruct HH as [H1 H2 H3]; split;
      [exact H1|exact H2|intros c i Hc; apply H3; by eapply In_resume]).
    apply (bound_spawnAgent_created task rest agent (resume k s) HH').
    apply (held_lookup k _ s HH Hk). by left.
  - destruct (suspended s !! k) as [[| |]|] eqn:Hk; try done. intros [= <-].
    intros agent taskId. unfold spawnAgent_threw. frame_simpl. by left.
  - destruct (suspended s !! k) as [[| |]|] eqn:Hk; try done; intros [= <-];
      intros agent taskId; frame_simpl; by left.
  - destruct (hasStateStore cfg); [|done].
    destruct (suspended s !! k) as [[| |]|] eqn:Hk; try done; intros [= <-];
      intros agent taskId.
    + by left.
    + unfold spawnAgent_threw. frame_simpl. by left.
  - intros [= <-] agent taskId.
    assert (forall s1, (s1 = s \/ activeAgents s1 = delete (match sg with
              | sig_completed a _ _ | sig_failed a _ | sig_cancelled a
              | sig_error a _ => a end) (activeAgents s)) ->
            activeAgents s1 !! agent = Some taskId ->
            activeAgents s !! agent = Some taskId) as Hdel.
    { intros s1 [-> | ->]; [done|]. intros H.
      by apply lookup_delete_Some in H as [_ ?]. }
    intros Hl. left. revert Hl. apply Hdel.
    destruct sg; simpl.
    + destruct (truthy_string (activeAgents s !! agent0)) as [x|] eqn:Hb.
      * right. by eapply activeAgents_handleAgentComplete.
      * left. unfold handleAgentComplete. by rewrite Hb.
    + destruct (truthy_string (activeAgents s !! agent0)) as [x|] eqn:Hb.
      * right. by eapply activeAgents_handleAgentFailed.
      * left. unfold handleAgentFailed. by rewrite Hb.
    + destruct (truthy_string (activeAgents s !! agent0)) as [x|] eqn:Hb.
      * right. by eapply activeAgents_handleAgentFailed.
      * left. unfold handleAgentFailed. by rewrite Hb.
    + by left.
  - destruct (armed s !! timer) as [tm|]; [|done]. intros [= <-] agent taskId.
    unfold timeoutCallback. simpl.
    destruct (activeAgents s !! timer_agent tm) as [x|] eqn:Hx; [|by left].
    set (s0 := out _ _).
    destruct (truthy_string (activeAgents s0 !! timer_agent tm)) as [y|] eqn:Hb.
    + erewrite activeAgents_handleAgentFailed by exact Hb. simpl.
      intros H. left. by apply lookup_delete_Some in H as [_ ?].
    + unfold handleAgentFailed. rewrite Hb. by left.
Qed.

Lemma Held_step (a : Action) (s s' : State) :
  Held s -> step cfg a s = Some s' -> Held s'.
Proof.
  intros HH Hs. eapply Held_later; [| | |exact HH].
  - by eapply transitions_step.
  - by eapply dispatches_step.
  - by eapply bound_step.
Qed.

Lemma Held_run (acts : list Action) (s s' : State) :
  Held s -> run cfg acts s = Some s' -> Held s'.
Proof.
  revert s. induction acts as [|a acts IH]; intros s HH; simpl.
  - by intros [= <-].
  - destruct (step cfg a s) as [s1|] eqn:Hs; [|done].
    apply IH. by eapply Held_step.
Qed.

Lemma Held_loaded (name : string) (inputs : list TaskInput) (now : string) :
  Held (loaded cfg name inputs now).
Proof.
  destruct (loaded_ok cfg name inputs now) as ([_ Ha Hs _] & _ & _).
  pose proof (loaded_task_ok cfg name inputs now) as Hok.
  rewrite Forall_forall in Hok. split.
  - intros t Ht. eapply ok_attempts, Hok. by apply list_elem_of_In.
  - intros agent taskId. by rewrite Ha, lookup_empty.
  - intros c i. by rewrite Hs.
Qed.

End HeldSteps.

Lemma reachable_held (cfg : Config) (name : string)
    (inputs : list TaskInput) (now : string) (s : State) :
  reachable cfg name inputs now s ->
  (forall agent taskId,
      activeAgents s !! agent = Some taskId ->
      exists t, getTask taskId s = Some t /\ 1 <= attempts t
                /\ is_Some (agentId t))
  /\ (forall c i,
        In c (suspended s) -> In i (batch_of c) ->
        exists t, getTask (in_id i) s = Some t /\ input t = i).
Proof.
  intros Hr. pose proof Hr as [acts Hrun].
  pose proof (Held_run cfg acts _ s (Held_loaded cfg name inputs now) Hrun)
    as [H1 H2 H3].
  destruct (reachable_ok cfg name inputs now s Hr) as [HI _].
  split.
  - intros agent taskId Hl. destruct (H2 agent taskId Hl) as (t & Hin & Hid & Ha).
    destruct (In_getTask s t Hin) as [u Hu].
    pose proof (unique_getTask s _ u t (inv_unique s HI) Hu Hin eq_refl) as ->.
    rewrite Hid in Hu. exists u. split; [done|]. split; [done|].
    by apply (ok_agent _ u (reachable_task_ok cfg name inputs now s u Hr Hin)).
  - intros c i Hc Hi. specialize (H3 c i Hc Hi).
    apply in_map_iff in H3 as (t & Heq & Hin).
    destruct (In_getTask s t Hin) as [u Hu].
    pose proof (unique_getTask s _ u t (inv_unique s HI) Hu Hin eq_refl) as ->.
    exists u. split; [|done]. unfold task_id in Hu. by rewrite Heq in Hu.
Qed.

(** X17: in every state of a run each binding of activeAgents refers to a
    task of the table that has been started (attempts at least 1, agentId
    recorded), and each task a suspended dispatch loop still holds is a task
    of the table with exactly the fields it was loaded with.  So the lookups
    of markRunning, markCompleted and markFailed made for a bound agent or
    for a task of a dispatch batch never miss. *)
Theorem bindings_refer_to_started_tasks (cfg : Config) (name : string)
    (inputs : list TaskInput) (now : string) (s : State) :
  reachable cfg name inputs now s ->
  (forall agent taskId,
      activeAgents s !! agent = Some taskId ->
      exists t, getTask taskId s = Some t /\ 1 <= attempts t
                /\ is_Some (agentId t))
  /\ (forall c i,
        In c (suspended s) -> In i (batch_of c) ->
        exists t, getTask (in_id i) s = Some t /\ input t = i).
Proof. apply reachable_held. Qed.


Lemma bindings_refer_to_started_tasks_witness :
  reachable cfg_one "plan" fan_out "t0" fan_out_A_running
  /\ exists t, getTask "A" fan_out_A_running = Some t /\ 1 <= attempts t
                /\ is_Some (agentId t).
Proof.
  assert (reachable cfg_one "plan" fan_out "t0" fan_out_A_running) as Hr.
  { exists [Start; SaveResolved 0; CreateAgentResolved 0 "a1"; SaveResolved 0].
    vm_compute; reflexivity. }
  split; [exact Hr|].
  apply (proj1 (bindings_refer_to_started_tasks cfg_one "plan" fan_out "t0"
                  fan_out_A_running Hr) "a1" "A").
  vm_compute; reflexivity.
Defined.

(* --------------------------------------------------------------------- *)
(* The end of a run                                                      *)
(* --------------------------------------------------------------------- *)

Section Ending.

Variable cfg : Config.

Lemma checkAllComplete_ends (q : State) :
  forallb is_terminal (tasks q) = true ->
  isRunning (checkAllComplete cfg q) = false
  /\ timeouts (checkAllComplete cfg q) = ∅
  /\ announced (checkAllComplete cfg q)
       (map task_id (fst (getResults q))) (map task_id (snd (getResults q))).
Proof.
  intros Hall. unfold checkAllComplete. rewrite Hall. unfold emit, announced.
  simpl. destruct (hasStateStore cfg); simpl; rewrite !in_app_iff; simpl;
    (split; [done|split; [done|auto 10]]).
Qed.

Lemma trySpawnAgents_stopped (s : State) :
  isRunning s = false -> trySpawnAgents cfg s = s.
Proof. intros H. unfold trySpawnAgents. by rewrite H. Qed.

Lemma getResults_ext (s s' : State) :
  tasks s' = tasks s -> getResults s' = getResults s.
Proof. unfold getResults. by intros ->. Qed.

Lemma ends_markCompleted (id : string) (res : option string * option string)
    (now : string) (s : State) (t : Task) :
  getTask id s = Some t ->
  forallb is_terminal (tasks (markCompleted cfg id res true now s)) = true ->
  isRunning (markCompleted cfg id res true now s) = false
  /\ timeouts (markCompleted cfg id res true now s) = ∅
  /\ announced (markCompleted cfg id res true now s)
       (map task_id (fst (getResults (markCompleted cfg id res true now s))))
       (map task_id (snd (getResults (markCompleted cfg id res true now s)))).
Proof.
  intros Ht. unfold markCompleted. rewrite Ht. cbv zeta.
  set (s3 := updateReadyTasks cfg _).
  rewrite (getResults_ext s3 _ (tasks_checkAllComplete cfg s3)).
  rewrite tasks_checkAllComplete. apply checkAllComplete_ends.
Qed.

Lemma ends_markFailed (id err : string) (m : Z) (s : State) (t : Task) :
  getTask id s = Some t ->
  forallb is_terminal (tasks (markFailed cfg id err m s)) = true ->
  isRunning (markFailed cfg id err m s) = false
  /\ timeouts (markFailed cfg id err m s) = ∅
  /\ announced (markFailed cfg id err m s)
       (map task_id (fst (getResults (markFailed cfg id err m s))))
       (map task_id (snd (getResults (markFailed cfg id err m s)))).
Proof.
  intros Ht Hall.
  pose proof (getTask_markFailed cfg id err m s t Ht) as Hg.
  apply getTask_Some in Hg as [Hin _].
  rewrite forallb_forall in Hall. pose proof (Hall _ Hin) as Hterm.
  destruct (attempts t <? retryLimit t m) eqn:Hlt; [done|].
  revert Hall. unfold markFailed. rewrite Ht, Hlt. cbv zeta.
  set (s2 := emit cfg (taskFailed id) _). intros Hall.
  rewrite (getResults_ext s2 _ (tasks_checkAllComplete cfg s2)).
  apply checkAllComplete_ends. apply forallb_forall. intros x Hx. apply Hall.
  by rewrite tasks_checkAllComplete.
Qed.

Lemma ends_handleAgentFailed (agent taskId err : string) (s : State) (t : Task) :
  truthy_string (activeAgents s !! agent) = Some taskId ->
  getTask taskId s = Some t ->
  forallb is_terminal (tasks (handleAgentFailed cfg agent err s)) = true ->
  isRunning (handleAgentFailed cfg agent err s) = false
  /\ timeouts (handleAgentFailed cfg agent err s) = ∅
  /\ announced (handleAgentFailed cfg agent err s)
       (map task_id (fst (getResults (handleAgentFailed cfg agent err s))))
       (map task_id (snd (getResults (handleAgentFailed cfg agent err s)))).
Proof.
  intros Hb Ht. unfold handleAgentFailed. rewrite Hb. cbv zeta.
  set (s1 := out _ _).
  assert (getTask taskId s1 = Some t) as Ht1
    by (erewrite getTask_ext; [exact Ht|]; unfold s1; by frame_simpl).
  rewrite tasks_trySpawnAgents. intros Hall.
  destruct (ends_markFailed taskId err DEFAULT_MAX_RETRIES s1 t Ht1 Hall)
    as (Hr & Hto & Han).
  by rewrite (trySpawnAgents_stopped _ Hr).
Qed.

Lemma ends_handleAgentComplete (agent taskId : string)
    (target : option string * option string) (now : string) (s : State)
    (t : Task) :
  truthy_string (activeAgents s !! agent) = Some taskId ->
  getTask taskId s = Some t ->
  forallb is_terminal (tasks (handleAgentComplete cfg agent target now s)) = true ->
  isRunning (handleAgentComplete cfg agent target now s) = false
  /\ timeouts (handleAgentComplete cfg agent target now s) = ∅
  /\ announced (handleAgentComplete cfg agent target now s)
       (map task_id (fst (getResults (handleAgentComplete cfg agent target now s))))
       (map task_id (snd (getResults (handleAgentComplete cfg agent target now s)))).
Proof.
  intros Hb Ht. unfold handleAgentComplete. rewrite Hb. cbv zeta.
  set (s1 := clearTimeout _ _).
  assert (getTask taskId s1 = Some t) as Ht1
    by (erewrite getTask_ext; [exact Ht|]; unfold s1; by frame_simpl).
  rewrite tasks_trySpawnAgents. intros Hall.
  destruct (ends_markCompleted taskId target now s1 t Ht1 Hall)
    as (Hr & Hto & Han).
  by rewrite (trySpawnAgents_stopped _ Hr).
Qed.

End Ending.

Lemma resolution_ends (cfg : Config) (name : string)
    (inputs : list TaskInput) (now : string) (s : State) (r : Resolution)
    (agent taskId : string) :
  reachable cfg name inputs now s ->
  truthy_string (activeAgents s !! agent) = Some taskId ->
  forallb is_terminal (tasks (resolve cfg r agent s)) = true ->
  isRunning (resolve cfg r agent s) = false
  /\ timeouts (resolve cfg r agent s) = ∅
  /\ announced (resolve cfg r agent s)
       (map task_id (fst (getResults (resolve cfg r agent s))))
       (map task_id (snd (getResults (resolve cfg r agent s)))).
Proof.
  intros Hr Hb.
  pose proof Hb as Hb'. apply truthy_string_Some in Hb' as [Hl _].
  destruct (proj1 (reachable_held cfg name inputs now s Hr) agent taskId Hl)
    as (t & Ht & _).
  destruct r; simpl.
  - by apply (ends_handleAgentComplete cfg agent taskId _ _ s t).
  - by apply (ends_handleAgentFailed cfg agent taskId _ s t).
  - by apply (ends_handleAgentFailed cfg agent taskId _ s t).
  - unfold timeoutCallback. rewrite Hl.
    by apply (ends_handleAgentFailed cfg agent taskId _ _ t).
Qed.

(** X18: a run ends itself with the last task: when, in a state of a run,
    the binding of an agent is resolved (by a completed, failed or cancelled
    signal or by its timer) and every task of the table is `completed` or
    `failed` afterwards, then the orchestrator is no longer running, no
    timeout entry is left, and allComplete has been emitted with the ids of
    all completed and all failed tasks. *)
Theorem last_resolution_ends_the_run (cfg : Config) (name : string)
    (inputs : list TaskInput) (now : string) (s : State) (r : Resolution)
    (agent taskId : string) :
  reachable cfg name inputs now s ->
  truthy_string (activeAgents s !! agent) = Some taskId ->
  forallb is_terminal (tasks (resolve cfg r agent s)) = true ->
  isRunning (resolve cfg r agent s) = false
  /\ timeouts (resolve cfg r agent s) = ∅
  /\ announced (resolve cfg r agent s)
       (map task_id (fst (getResults (resolve cfg r agent s))))
       (map task_id (snd (getResults (resolve cfg r agent s)))).
Proof. apply resolution_ends. Qed.


Lemma last_resolution_ends_the_run_witness :
  reachable cfg_one "plan" one_retry "t0"
    (after cfg_one [Start; SaveResolved 0; CreateAgentResolved 0 "a1"]
       (loaded cfg_one "plan" one_retry "t0"))
  /\ isRunning
       (resolve cfg_one (by_completed None None "t1") "a1"
          (after cfg_one [Start; SaveResolved 0; CreateAgentResolved 0 "a1"]
             (loaded cfg_one "plan" one_retry "t0")))
     = false.
Proof.
  assert (reachable cfg_one "plan" one_retry "t0"
            (after cfg_one [Start; SaveResolved 0; CreateAgentResolved 0 "a1"]
               (loaded cfg_one "plan" one_retry "t0"))) as Hr.
  { exists [Start; SaveResolved 0; CreateAgentResolved 0 "a1"].
    vm_compute; reflexivity. }
  split; [exact Hr|].
  apply (last_resolution_ends_the_run cfg_one "plan" one_retry "t0" _
           (by_completed None None "t1") "a1" "A" Hr).
  - vm_compute; reflexivity.
  - vm_compute; reflexivity.
Defined.

(* --------------------------------------------------------------------- *)
(* When the run-complete signal is emitted                               *)
(* --------------------------------------------------------------------- *)

Section Announcing.

Variable cfg : Config.

Lemma checkAllComplete_count (q : State) :
  announcements (checkAllComplete cfg q)
  = (announcements q + if forallb is_terminal (tasks q) then 1 else 0)%nat.
Proof.
  unfold checkAllComplete, announcements.
  destruct (forallb is_terminal (tasks q)); [|lia].
  unfold emit. simpl. destruct (hasStateStore cfg); simpl;
    rewrite !List.filter_app, !length_app; simpl; lia.
Qed.

Lemma announced_spawnLoop (batch : list TaskInput) (s : State) c f :
  announced s c f -> announced (spawnLoop batch s) c f.
Proof.
  destruct batch as [|t rest]; [done|]. unfold announced. simpl.
  intros H. apply in_or_app. by left.
Qed.

Lemma ends_rejected_start (k : nat) (task : TaskInput) (rest : list TaskInput)
    (message : string) (s : State) (t : Task) :
  getTask (in_id task) s = Some t ->
  forallb is_terminal (tasks (spawnAgent_threw cfg task rest message s)) = true ->
  announced (spawnAgent_threw cfg task rest message s)
    (map task_id (fst (getResults (spawnAgent_threw cfg task rest message s))))
    (map task_id (snd (getResults (spawnAgent_threw cfg task rest message s)))).
Proof.
  intros Ht. unfold spawnAgent_threw.
  set (s1 := markFailed cfg (in_id task) message DEFAULT_MAX_RETRIES s).
  rewrite (getResults_ext s1 _ (tasks_spawnLoop rest s1)), tasks_spawnLoop.
  intros Hall. apply announced_spawnLoop.
  by apply (ends_markFailed cfg (in_id task) message DEFAULT_MAX_RETRIES s t).
Qed.

End Announcing.

(** C3 (amended): the termination check emits allComplete exactly when every
    task is `completed` or `failed` at that moment, once per check.  Whenever
    markCompleted (with the check) or markFailed, called for a task of the
    table, leaves every task `completed` or `failed`, allComplete has been
    emitted with the ids of all completed and all failed tasks; in a run this
    is so for every resolution of a bound handle (completed, failed or
    cancelled signal, timer) and for every rejected start.  In every state of
    a run each allComplete emitted so far carried results that cover the whole
    task table.  Loading never runs the check, so a run whose tasks are all
    pre-marked complete never emits it. *)
Theorem C3_allComplete_when_and_only_when_all_terminal (cfg : Config)
    (name : string) (inputs : list TaskInput) (now : string) (s : State) :
  reachable cfg name inputs now s ->
  (forall q,
      announcements (checkAllComplete cfg q)
      = (announcements q + if forallb is_terminal (tasks q) then 1 else 0)%nat)
  /\ (forall q c f,
        announced (checkAllComplete cfg q) c f -> ~ announced q c f ->
        forall t, In t (tasks q) -> status t = completed \/ status t = failed)
  /\ (forall q id res now' t,
        getTask id q = Some t ->
        forallb is_terminal (tasks (markCompleted cfg id res true now' q)) = true ->
        announced (markCompleted cfg id res true now' q)
          (map task_id (fst (getResults (markCompleted cfg id res true now' q))))
          (map task_id (snd (getResults (markCompleted cfg id res true now' q)))))
  /\ (forall q id err m t,
        getTask id q = Some t ->
        forallb is_terminal (tasks (markFailed cfg id err m q)) = true ->
        announced (markFailed cfg id err m q)
          (map task_id (fst (getResults (markFailed cfg id err m q))))
          (map task_id (snd (getResults (markFailed cfg id err m q)))))
  /\ (forall r agent taskId,
        truthy_string (activeAgents s !! agent) = Some taskId ->
        forallb is_terminal (tasks (resolve cfg r agent s)) = true ->
        announced (resolve cfg r agent s)
          (map task_id (fst (getResults (resolve cfg r agent s))))
          (map task_id (snd (getResults (resolve cfg r agent s)))))
  /\ (forall k task rest message s',
        suspended s !! k = Some (SpawnAwaitCreate task rest) ->
        step cfg (CreateAgentRejected k message) s = Some s' ->
        forallb is_terminal (tasks s') = true ->
        announced s' (map task_id (fst (getResults s')))
                     (map task_id (snd (getResults s'))))
  /\ (forall c f, announced s c f ->
        (length c + length f = length (tasks s))%nat)
  /\ (Forall (fun i => truthy_flag (in_complete i) = true) inputs ->
      forall c f, ~ announced s c f).
Proof.
  intros Hreach.
  split; [apply checkAllComplete_count|].
  split; [intros q c f; apply checkAllComplete_announces|].
  split; [intros q id res now' t Ht Hall;
          by apply (ends_markCompleted cfg id res now' q t)|].
  split; [intros q id err m t Ht Hall;
          by apply (ends_markFailed cfg id err m q t)|].
  split; [|split; [|split]].
  - intros r agent taskId Hb Hall.
    apply (resolution_ends cfg name inputs now s r agent taskId Hreach Hb Hall).
  - intros k task rest message s' Hk. simpl. rewrite Hk. intros [= <-] Hall.
    destruct (proj2 (reachable_held cfg name inputs now s Hreach)
                (SpawnAwaitCreate task rest) task) as (t & Ht & _).
    { apply list_elem_of_In. by eapply list_elem_of_lookup_2. }
    { by left. }
    apply (ends_rejected_start cfg k task rest message (resume k s) t);
      [|exact Hall].
    erewrite getTask_ext; [exact Ht|done].
  - destruct (reachable_ok cfg name inputs now s Hreach) as [HV _]. apply HV.
  - intros Hf. destruct Hreach as [acts Hrun].
    apply (pre_trace s). eapply AllPremarked_run; [|exact Hrun].
    by apply AllPremarked_loaded.
Qed.

Lemma C3_witness :
  reachable cfg_one "plan" one_retry "t0"
    (after cfg_one [Start; SaveResolved 0; CreateAgentResolved 0 "a1"]
       (loaded cfg_one "plan" one_retry "t0"))
  /\ announcements
       (after cfg_one [Start; SaveResolved 0; CreateAgentResolved 0 "a1"]
          (loaded cfg_one "plan" one_retry "t0")) = 0%nat
  /\ announced
       (resolve cfg_one (by_failed None) "a1"
          (after cfg_one [Start; SaveResolved 0; CreateAgentResolved 0 "a1"]
             (loaded cfg_one "plan" one_retry "t0")))
       [] ["A"].
Proof.
  assert (reachable cfg_one "plan" one_retry "t0"
            (after cfg_one [Start; SaveResolved 0; CreateAgentResolved 0 "a1"]
               (loaded cfg_one "plan" one_retry "t0"))) as Hr.
  { exists [Start; SaveResolved 0; CreateAgentResolved 0 "a1"].
    vm_compute; reflexivity. }
  split; [exact Hr|]. split; [vm_compute; reflexivity|].
  destruct (C3_allComplete_when_and_only_when_all_terminal cfg_one "plan"
              one_retry "t0" _ Hr) as (_ & _ & _ & _ & Hres & _).
  apply (Hres (by_failed None) "a1" "A").
  - vm_compute; reflexivity.
  - vm_compute; reflexivity.
Defined.
